(** * Gravity-water: the particle fluid solver of [fluid.js] / [water.js]

    A shallow embedding of the physics step [updatePhysics] as it is written
    in the four versions of [fluid.js] kept in the repository, and of the
    screen-boundary block of [Particle.update] in [water.js].

    JavaScript numbers are IEEE-754 binary64 values and the particle arrays
    are [Float32Array]s, so every store rounds to binary32.  The code is
    embedded once, over an interface [Number] of the arithmetic it uses, and
    that interface has two instances:
    - [float_Number]: binary64 arithmetic (Rocq's primitive floats) with the
      binary32 rounding of typed-array stores; it runs, and it has NaN;
    - [R_Number]: the real numbers, the exact arithmetic in which the
      documentation states its formulas. *)

From Stdlib Require Import ZArith QArith Reals Lra Lia Floats List Bool.
From stdpp Require Import base option list countable gmap.

Set Default Proof Using "Type".
Set Warnings "-inexact-float".

(** ** The arithmetic the solver uses *)

Class Number (num : Type) := {
  nadd : num -> num -> num;             (* a + b *)
  nsub : num -> num -> num;             (* a - b *)
  nmul : num -> num -> num;             (* a * b *)
  ndiv : num -> num -> num;             (* a / b *)
  nsqrt : num -> num;                   (* Math.sqrt(a) *)
  nfloor : num -> num;                  (* Math.floor(a) *)
  nlt : num -> num -> bool;             (* a < b *)
  nle : num -> num -> bool;             (* a <= b *)
  lit : Q -> num;                       (* a decimal literal of the source *)
  fround : num -> num;                  (* the value a Float32Array keeps *)
  undefined : num;                      (* an out-of-range read, in arithmetic *)
  numstr : Type;                        (* the decimal string of a number *)
  numstr_eq_dec :: EqDecision numstr;
  numstr_countable :: Countable numstr;
  to_str : num -> numstr                (* number-to-string conversion *)
}.

Declare Scope num_scope.
Delimit Scope num_scope with num.
Infix "+" := nadd : num_scope.
Infix "-" := nsub : num_scope.
Infix "*" := nmul : num_scope.
Infix "/" := ndiv : num_scope.
Infix "<?" := nlt : num_scope.
Infix "<=?" := nle : num_scope.
Notation "a >? b" := (nlt b a) (at level 70, only parsing) : num_scope.

(** A grid key is the string [gx + "," + gy]; two keys are the same string
    exactly when both number strings are. *)
Abbreviation Grid num := (gmap (@numstr num _ * @numstr num _) (list nat)).

(** ** Binary64 arithmetic with binary32 stores *)

Module Float64.

Definition of_Z (z : Z) : float :=
  SF2Prim (binary_normalize prec emax z 0 false).

(** A decimal literal [n/d] is the double nearest to it: IEEE division is
    correctly rounded and both operands are exact. *)
Definition of_Q (q : Q) : float :=
  PrimFloat.div (of_Z (Qnum q)) (of_Z (Zpos (Qden q))).

(** [Math.floor]. *)
Definition floor (f : float) : float :=
  match Prim2SF f with
  | S754_finite s m e =>
      if (e <? 0)%Z
      then of_Z (Z.shiftr (cond_Zopp s (Zpos m)) (- e))
      else f
  | _ => f
  end.

(** [Math.fround]: round to nearest binary32, ties to even. *)
Definition to_f32 (f : float) : float :=
  match Prim2SF f with
  | S754_finite s m e => SF2Prim (binary_round 24 128 s m e)
  | _ => f
  end.

(** Number-to-string conversion tells two numbers apart unless they are
    [0] and [-0], which both print as ["0"]. *)
Definition str (f : float) : spec_float :=
  match Prim2SF f with
  | S754_zero _ => S754_zero false
  | sf => sf
  end.

(** The value of a finite number, as a fraction in lowest terms. *)
Definition to_Q (f : float) : option Q :=
  match Prim2SF f with
  | S754_zero _ => Some 0%Q
  | S754_finite s m e => Some (Qred (inject_Z (cond_Zopp s (Zpos m)) * 2 ^ e))%Q
  | _ => None
  end.

#[global] Instance spec_float_eq_dec : EqDecision spec_float.
Proof. solve_decision. Defined.

Definition sf_code (f : spec_float) : bool + bool + unit + bool * positive * Z :=
  match f with
  | S754_zero s => inl (inl (inl s))
  | S754_infinity s => inl (inl (inr s))
  | S754_nan => inl (inr tt)
  | S754_finite s m e => inr (s, m, e)
  end.

Definition sf_decode (c : bool + bool + unit + bool * positive * Z) : spec_float :=
  match c with
  | inl (inl (inl s)) => S754_zero s
  | inl (inl (inr s)) => S754_infinity s
  | inl (inr _) => S754_nan
  | inr (s, m, e) => S754_finite s m e
  end.

#[global] Instance spec_float_countable : Countable spec_float.
Proof. apply (inj_countable' sf_code sf_decode). intros []; reflexivity. Defined.

End Float64.

#[global] Instance float_Number : Number float := {
  nadd := PrimFloat.add;
  nsub := PrimFloat.sub;
  nmul := PrimFloat.mul;
  ndiv := PrimFloat.div;
  nsqrt := PrimFloat.sqrt;
  nfloor := Float64.floor;
  nlt := PrimFloat.ltb;
  nle := PrimFloat.leb;
  lit := Float64.of_Q;
  fround := Float64.to_f32;
  undefined := PrimFloat.nan;
  numstr := spec_float;
  to_str := Float64.str
}.

(** ** Exact arithmetic *)

Module Exact.

Definition ltb (a b : R) : bool := if Rlt_dec a b then true else false.
Definition leb (a b : R) : bool := if Rle_dec a b then true else false.

Lemma ltb_spec a b : ltb a b = true <-> (a < b)%R.
Proof. unfold ltb. destruct (Rlt_dec a b); split; auto; discriminate. Qed.

Lemma leb_spec a b : leb a b = true <-> (a <= b)%R.
Proof. unfold leb. destruct (Rle_dec a b); split; auto; discriminate. Qed.

Lemma ltb_false a b : ltb a b = false <-> (b <= a)%R.
Proof. unfold ltb. destruct (Rlt_dec a b); split; intros; try lra; auto; discriminate. Qed.

End Exact.

(** In exact arithmetic nothing is rounded.  A well-formed state reads its
    arrays in range only, so the value of [undefined] is immaterial there.
    The solver turns only integers into strings (a floor, or a floor plus or
    minus one), and two integers have the same decimal string exactly when
    they are equal: the integer itself stands for the string. *)
#[global] Instance R_Number : Number R := {
  nadd := Rplus;
  nsub := Rminus;
  nmul := Rmult;
  ndiv := Rdiv;
  nsqrt := R_sqrt.sqrt;
  nfloor := fun a => IZR (Zfloor a);
  nlt := Exact.ltb;
  nle := Exact.leb;
  lit := Q2R;
  fround := fun a => a;
  undefined := 0%R;
  numstr := Z;
  to_str := Zfloor
}.

Example float_literals :
  lit (1#2) = 0.5%float /\ lit (1#1000) = 0.001%float /\ lit 3 = 3%float /\
  nfloor (-0.5)%float = (-1)%float /\ nfloor 2.75%float = 2%float /\
  fround 0.1%float = 0x1.99999ap-4%float /\ fround 20%float = 20%float /\
  ndiv 0%float 0%float = nan.
Proof. vm_compute. repeat split. Qed.

(** ** Data model *)

Section Solver.
Context {num : Type} `{Number num}.
Local Open Scope num_scope.

(** The [CONFIG] object. *)
Record Config := {
  particleCount : nat;
  radius : num;
  physRadius : num;
  gravityScale : num;
  damping : num;
  stiffness : num;
  stiffnessNear : num;
  restDensity : num;
  interactionRadius : num;
  subSteps : nat
}.

(** [const GRID_SIZE = CONFIG.physRadius * 2]. *)
Definition GRID_SIZE (CONFIG : Config) : num := physRadius CONFIG * lit 2.

(** The object [particles] of six [Float32Array]s. *)
Record Particles := {
  particles_x : list num;
  particles_y : list num;
  particles_vx : list num;
  particles_vy : list num;
  particles_prevX : list num;
  particles_prevY : list num
}.

(** The globals [updatePhysics] writes: [particles] and [grid]. *)
Record State := {
  particles : Particles;
  grid : Grid num
}.

(** The globals it only reads; event handlers own them. *)
Record Env := {
  gravity_x : num;
  gravity_y : num;
  pointer_x : num;
  pointer_y : num;
  pointer_down : bool;
  width : num;
  height : num;
  innerWidth : num
}.

(** *** Typed arrays

    An element read out of range is [undefined]; a store rounds to
    binary32 and is dropped when out of range. *)
Definition get (a : list num) (i : nat) : num := default undefined (a !! i).
Definition set (a : list num) (i : nat) (v : num) : list num := <[i := fround v]> a.

Definition set_x (p : Particles) (i : nat) (v : num) : Particles :=
  {| particles_x := set (particles_x p) i v; particles_y := particles_y p;
     particles_vx := particles_vx p; particles_vy := particles_vy p;
     particles_prevX := particles_prevX p; particles_prevY := particles_prevY p |}.
Definition set_y (p : Particles) (i : nat) (v : num) : Particles :=
  {| particles_x := particles_x p; particles_y := set (particles_y p) i v;
     particles_vx := particles_vx p; particles_vy := particles_vy p;
     particles_prevX := particles_prevX p; particles_prevY := particles_prevY p |}.
Definition set_vx (p : Particles) (i : nat) (v : num) : Particles :=
  {| particles_x := particles_x p; particles_y := particles_y p;
     particles_vx := set (particles_vx p) i v; particles_vy := particles_vy p;
     particles_prevX := particles_prevX p; particles_prevY := particles_prevY p |}.
Definition set_vy (p : Particles) (i : nat) (v : num) : Particles :=
  {| particles_x := particles_x p; particles_y := particles_y p;
     particles_vx := particles_vx p; particles_vy := set (particles_vy p) i v;
     particles_prevX := particles_prevX p; particles_prevY := particles_prevY p |}.
Definition set_prevX (p : Particles) (i : nat) (v : num) : Particles :=
  {| particles_x := particles_x p; particles_y := particles_y p;
     particles_vx := particles_vx p; particles_vy := particles_vy p;
     particles_prevX := set (particles_prevX p) i v; particles_prevY := particles_prevY p |}.
Definition set_prevY (p : Particles) (i : nat) (v : num) : Particles :=
  {| particles_x := particles_x p; particles_y := particles_y p;
     particles_vx := particles_vx p; particles_vy := particles_vy p;
     particles_prevX := particles_prevX p; particles_prevY := set (particles_prevY p) i v |}.

(** [for (let i = 0; i < n; i++) body]. *)
Definition for_i {A : Type} (n : nat) (body : nat -> A -> A) (s : A) : A :=
  fold_left (fun s i => body i s) (seq 0 n) s.

(** ** PREDICT *)

(** The body of [if (pointer.down) { ... }]: [ptx], [pty] is the pointer
    position and [iR] the interaction radius as the version scales them,
    [force] its force constant; [iR**2] is the product [iR * iR]. *)
Definition repel (iR force ptx pty : num) (i : nat) (p : Particles) : Particles :=
  let dx := get (particles_x p) i - ptx in
  let dy := get (particles_y p) i - pty in
  let d2 := dx * dx + dy * dy in
  if d2 <? iR * iR then
    let d := nsqrt d2 in
    let f := (lit 1 - d / iR) * force in
    let p := set_vx p i (get (particles_vx p) i + (dx / d) * f) in
    set_vy p i (get (particles_vy p) i + (dy / d) * f)
  else p.

Definition apply_gravity (CONFIG : Config) (env : Env) (i : nat) (p : Particles) : Particles :=
  let p := set_vx p i (get (particles_vx p) i + gravity_x env * gravityScale CONFIG) in
  set_vy p i (get (particles_vy p) i + gravity_y env * gravityScale CONFIG).

(** [prevX[i] = x[i]; prevY[i] = y[i]; x[i] += vx[i]; y[i] += vy[i]]. *)
Definition advance (i : nat) (p : Particles) : Particles :=
  let p := set_prevX p i (get (particles_x p) i) in
  let p := set_prevY p i (get (particles_y p) i) in
  let p := set_x p i (get (particles_x p) i + get (particles_vx p) i) in
  set_y p i (get (particles_y p) i + get (particles_vy p) i).

(** ** The spatial hash grid *)

Definition key (gx gy : num) : numstr * numstr := (to_str gx, to_str gy).

(** [getGridKey(x, y)]. *)
Definition getGridKey (CONFIG : Config) (x y : num) : numstr * numstr :=
  key (nfloor (x / GRID_SIZE CONFIG)) (nfloor (y / GRID_SIZE CONFIG)).

(** [if (!grid[k]) grid[k] = []; grid[k].push(i)]. *)
Definition grid_push (g : Grid num) (k : numstr * numstr) (i : nat) : Grid num :=
  <[k := default [] (g !! k) ++ [i]]> g.

(** [grid = {}] followed by the insertion loop. *)
Definition buildGrid (CONFIG : Config) (p : Particles) : Grid num :=
  for_i (particleCount CONFIG)
    (fun i g => grid_push g (getGridKey CONFIG (get (particles_x p) i) (get (particles_y p) i)) i)
    ∅.

(** ** RELAX *)

(** An entry [{id, d, dx, dy}] of the array [neighbors]. *)
Record Neighbor := { id : nat; d : num; n_dx : num; n_dy : num }.

(** The values [x] takes in [for (let x = lo; x <= hi; x++)]. *)
Fixpoint count_up (fuel : nat) (lo hi : num) : list num :=
  match fuel with
  | O => []
  | S fuel => if lo <=? hi then lo :: count_up fuel (lo + lit 1) hi else []
  end.

(** Whether [for (let x = lo; x <= hi; x++)] is over after [fuel] turns at
    most: one of the first [fuel + 1] values of [x] fails the test. *)
Fixpoint count_ends (fuel : nat) (lo hi : num) : bool :=
  if lo <=? hi then
    match fuel with
    | O => false
    | S fuel => count_ends fuel (lo + lit 1) hi
    end
  else true.

(** [for (let x = gx-1; x <= gx+1; x++)]: the values of [x] in the first
    three turns.  They are all the turns of the loop when
    [count_ends 3 (g - 1) (g + 1)] holds, as it does in exact arithmetic
    and for the integers binary64 counts exactly.  The loop of the source
    has no other bound: where [x++] leaves [x] as it is (an infinite cell
    coordinate, or one from [2^53] on) it does not end, and the frame
    [around] then describes is one the source never completes. *)
Definition around (g : num) : list num := count_up 3 (g - lit 1) (g + lit 1).

(** Both loops of the scan around the cell [(gx, gy)] end within three
    turns; the inner one runs only where the outer one makes a turn. *)
Definition scan_ends (gx gy : num) : bool :=
  count_ends 3 (gx - lit 1) (gx + lit 1) &&
  match around gx with
  | [] => true
  | _ :: _ => count_ends 3 (gy - lit 1) (gy + lit 1)
  end.

(** The keys of the 3x3 block, in the order the two loops visit them. *)
Definition block_keys (gx gy : num) : list (numstr * numstr) :=
  x ← around gx; y ← around gy; [key x y].

(** The same with [fuel] turns allowed to each loop, to tell a scan that
    is over from one that is cut. *)
Definition block_keys_upto (fuel : nat) (gx gy : num) : list (numstr * numstr) :=
  x ← count_up fuel (gx - lit 1) (gx + lit 1);
  y ← count_up fuel (gy - lit 1) (gy + lit 1); [key x y].

(** [let cell = grid[k]; if (cell) ...]: the indices scanned for one key. *)
Definition cell_of (g : Grid num) (k : numstr * numstr) : list nat := default [] (g !! k).

(** Every index the scan of the 3x3 block meets. *)
Definition candidates (g : Grid num) (keys : list (numstr * numstr)) : list nat :=
  k ← keys; cell_of g k.

(** The body of [for (let j of cell)]. *)
Definition scan (CONFIG : Config) (p : Particles) (i : nat) (px py : num)
    (neighbors : list Neighbor) (j : nat) : list Neighbor :=
  if Nat.eqb i j then neighbors
  else
    let dx := get (particles_x p) j - px in
    let dy := get (particles_y p) j - py in
    let d2 := dx * dx + dy * dy in
    if (d2 <? GRID_SIZE CONFIG * GRID_SIZE CONFIG) && (d2 >? lit (1 # 1000))
    then neighbors ++ [{| id := j; d := nsqrt d2; n_dx := dx; n_dy := dy |}]
    else neighbors.

Definition findNeighbors (CONFIG : Config) (p : Particles) (g : Grid num)
    (keys : list (numstr * numstr)) (i : nat) (px py : num) : list Neighbor :=
  fold_left (scan CONFIG p i px py) (candidates g keys) [].

(** [let q = 1 - n.d/GRID_SIZE; rho += q*q; rhoNear += q*q*q]. *)
Definition closeness (CONFIG : Config) (n : Neighbor) : num :=
  lit 1 - d n / GRID_SIZE CONFIG.

Definition densities (CONFIG : Config) (neighbors : list Neighbor) : num * num :=
  fold_left
    (fun '(rho, rhoNear) n =>
       let q := closeness CONFIG n in (rho + q * q, rhoNear + q * q * q))
    neighbors (lit 0, lit 0).

(** [P = CONFIG.stiffness * (rho - CONFIG.restDensity)]. *)
Definition pressure (CONFIG : Config) (rho : num) : num :=
  stiffness CONFIG * (rho - restDensity CONFIG).

(** [PNear = CONFIG.stiffnessNear * rhoNear]. *)
Definition nearPressure (CONFIG : Config) (rhoNear : num) : num :=
  stiffnessNear CONFIG * rhoNear.

(** [D = 0.5 * (P*q + PNear*q*q)]. *)
Definition displacement (P PNear q : num) : num :=
  lit (1 # 2) * (P * q + PNear * q * q).

(** The body of the second [for (let n of neighbors)]: the neighbour is
    moved at once, the particle's own share is kept in [dx], [dy]. *)
Definition push_neighbor (CONFIG : Config) (P PNear : num)
    (acc : Particles * num * num) (n : Neighbor) : Particles * num * num :=
  let '(p, dx, dy) := acc in
  let q := closeness CONFIG n in
  let D := displacement P PNear q in
  let ux := (n_dx n / d n) * D in
  let uy := (n_dy n / d n) * D in
  let p := set_x p (id n) (get (particles_x p) (id n) + ux) in
  let p := set_y p (id n) (get (particles_y p) (id n) + uy) in
  (p, dx - ux, dy - uy).

(** What the solver does with [neighbors] once it has them. *)
Definition relax_with (CONFIG : Config) (neighbors : list Neighbor) (i : nat)
    (p : Particles) : Particles :=
  let '(rho, rhoNear) := densities CONFIG neighbors in
  let P := pressure CONFIG rho in
  let PNear := nearPressure CONFIG rhoNear in
  let '(p, dx, dy) := fold_left (push_neighbor CONFIG P PNear) neighbors (p, lit 0, lit 0) in
  let p := set_x p i (get (particles_x p) i + dx) in
  set_y p i (get (particles_y p) i + dy).

(** One turn of the loop over [i] inside a substep; [keys_of gx gy] is the
    3x3 block as the version enumerates it. *)
Definition relaxParticle (CONFIG : Config) (keys_of : num -> num -> list (numstr * numstr))
    (g : Grid num) (i : nat) (p : Particles) : Particles :=
  let px := get (particles_x p) i in
  let py := get (particles_y p) i in
  let gx := nfloor (px / GRID_SIZE CONFIG) in
  let gy := nfloor (py / GRID_SIZE CONFIG) in
  let neighbors := findNeighbors CONFIG p g (keys_of gx gy) i px py in
  relax_with CONFIG neighbors i p.

Definition relax (CONFIG : Config) (keys_of : num -> num -> list (numstr * numstr))
    (g : Grid num) (p : Particles) : Particles :=
  for_i (particleCount CONFIG) (relaxParticle CONFIG keys_of g) p.

(** Whether every scan of a relaxation pass with the counting loops ends:
    the pass is run, and each turn looks at the cell its particle is in
    when the turn begins. *)
Definition relax_returns (CONFIG : Config) (g : Grid num) (p : Particles) : bool :=
  snd (for_i (particleCount CONFIG)
         (fun i (acc : Particles * bool) =>
            let gx := nfloor (get (particles_x (fst acc)) i / GRID_SIZE CONFIG) in
            let gy := nfloor (get (particles_y (fst acc)) i / GRID_SIZE CONFIG) in
            (relaxParticle CONFIG block_keys g i (fst acc), snd acc && scan_ends gx gy))
         (p, true)).

(** ** Boundaries *)

(** Four independent [if]s. *)
Definition clampParticle (m boundW boundH : num) (i : nat) (p : Particles) : Particles :=
  let p := if get (particles_x p) i <? m then set_x p i m else p in
  let p := if get (particles_x p) i >? boundW - m then set_x p i (boundW - m) else p in
  let p := if get (particles_y p) i <? m then set_y p i m else p in
  if get (particles_y p) i >? boundH - m then set_y p i (boundH - m) else p.

(** The same with [else if] on each axis. *)
Definition clampParticle_else (m boundW boundH : num) (i : nat) (p : Particles) : Particles :=
  let p := if get (particles_x p) i <? m then set_x p i m
           else if get (particles_x p) i >? boundW - m then set_x p i (boundW - m) else p in
  if get (particles_y p) i <? m then set_y p i m
  else if get (particles_y p) i >? boundH - m then set_y p i (boundH - m) else p.

(** [const m = CONFIG.radius] and the loop over all particles. *)
Definition enforceBoundaries (CONFIG : Config) (boundW boundH : num) (p : Particles) : Particles :=
  for_i (particleCount CONFIG) (clampParticle (radius CONFIG) boundW boundH) p.

(** ** RECONCILE *)

Definition updateVelocity (CONFIG : Config) (i : nat) (p : Particles) : Particles :=
  let p := set_vx p i ((get (particles_x p) i - get (particles_prevX p) i) * damping CONFIG) in
  set_vy p i ((get (particles_y p) i - get (particles_prevY p) i) * damping CONFIG).

Definition updateVelocities (CONFIG : Config) (p : Particles) : Particles :=
  for_i (particleCount CONFIG) (updateVelocity CONFIG) p.

(** ** One substep as three of the four versions have it *)

Definition substep (CONFIG : Config) (boundW boundH : num) (st : State) : State :=
  let g := buildGrid CONFIG (particles st) in
  let p := relax CONFIG block_keys g (particles st) in
  {| particles := enforceBoundaries CONFIG boundW boundH p; grid := g |}.

(** [for (let s = 0; s < CONFIG.subSteps; s++)]. *)
Definition substeps (CONFIG : Config) (boundW boundH : num) (st : State) : State :=
  for_i (subSteps CONFIG) (fun _ => substep CONFIG boundW boundH) st.

(** The substep loop with [fuel] turns allowed to each counting loop. *)
Definition substep_upto (fuel : nat) (CONFIG : Config) (boundW boundH : num) (st : State)
    : State :=
  let g := buildGrid CONFIG (particles st) in
  let p := relax CONFIG (block_keys_upto fuel) g (particles st) in
  {| particles := enforceBoundaries CONFIG boundW boundH p; grid := g |}.

Definition substeps_upto (fuel : nat) (CONFIG : Config) (boundW boundH : num) (st : State)
    : State :=
  for_i (subSteps CONFIG) (fun _ => substep_upto fuel CONFIG boundW boundH) st.

(** Whether the substep loop returns: the scans of each of its passes end. *)
Definition substeps_return (CONFIG : Config) (boundW boundH : num) (st : State) : bool :=
  snd (for_i (subSteps CONFIG)
         (fun _ (acc : State * bool) =>
            (substep CONFIG boundW boundH (fst acc),
             snd acc && relax_returns CONFIG (buildGrid CONFIG (particles (fst acc)))
                          (particles (fst acc))))
         (st, true)).

(** *** The same loop with a record of its grid builds

    Each entry is the particle state a grid was built from.  The record
    is not program state: [substeps_erase] shows that dropping it gives
    back [substeps]. *)
Definition substep_logged (CONFIG : Config) (boundW boundH : num)
    (sl : State * list Particles) : State * list Particles :=
  (substep CONFIG boundW boundH (fst sl), snd sl ++ [particles (fst sl)]).

Definition substeps_logged (CONFIG : Config) (boundW boundH : num)
    (st : State) : State * list Particles :=
  for_i (subSteps CONFIG) (fun _ => substep_logged CONFIG boundW boundH) (st, []).

End Solver.

Arguments Config num : clear implicits.
Arguments Particles num : clear implicits.
Arguments Neighbor num : clear implicits.
Arguments State num {_}.
Arguments Env num : clear implicits.

(** ** The four versions of [updatePhysics] *)

(** [fluid.js] "Realistic AR Water Simulation". *)
Module ARWater.
Section ARWater.
Context {num : Type} `{Number num}.
Local Open Scope num_scope.

Definition CONFIG : Config num := {|
  particleCount := 1500; radius := lit 12; physRadius := lit 10;
  gravityScale := lit (15 # 100); damping := lit (985 # 1000);
  stiffness := lit (4 # 100); stiffnessNear := lit (1 # 10);
  restDensity := lit 4; interactionRadius := lit 80; subSteps := 3 |}.

Definition predictParticle (CONFIG : Config num) (env : Env num) (i : nat)
    (p : Particles num) : Particles num :=
  let p := apply_gravity CONFIG env i p in
  let p := if pointer_down env
           then repel (interactionRadius CONFIG) (lit 3) (pointer_x env) (pointer_y env) i p
           else p in
  advance i p.

Definition predict (CONFIG : Config num) (env : Env num) (p : Particles num) : Particles num :=
  for_i (particleCount CONFIG) (predictParticle CONFIG env) p.

Definition updatePhysics (CONFIG : Config num) (env : Env num) (st : State num) : State num :=
  let st := {| particles := predict CONFIG env (particles st); grid := grid st |} in
  let st := substeps CONFIG (width env) (height env) st in
  {| particles := updateVelocities CONFIG (particles st); grid := grid st |}.

Definition updatePhysics_logged (CONFIG : Config num) (env : Env num) (st : State num)
    : State num * list (Particles num) :=
  let st := {| particles := predict CONFIG env (particles st); grid := grid st |} in
  let '(st, log) := substeps_logged CONFIG (width env) (height env) st in
  ({| particles := updateVelocities CONFIG (particles st); grid := grid st |}, log).

(** Whether the frame returns: its other loops count particles and
    substeps. *)
Definition returns (CONFIG : Config num) (env : Env num) (st : State num) : bool :=
  substeps_return CONFIG (width env) (height env)
    {| particles := predict CONFIG env (particles st); grid := grid st |}.
End ARWater.
End ARWater.

(** [fluid.js] "Realistic AR Water (Debug Mode & Fixes)". *)
Module Debug.
Section Debug.
Context {num : Type} `{Number num}.
Local Open Scope num_scope.

Definition CONFIG : Config num := {|
  particleCount := 1500; radius := lit 12; physRadius := lit 10;
  gravityScale := lit (15 # 100); damping := lit (985 # 1000);
  stiffness := lit (4 # 100); stiffnessNear := lit (1 # 10);
  restDensity := lit 4; interactionRadius := lit 80; subSteps := 3 |}.

Definition predictParticle (CONFIG : Config num) (env : Env num) (i : nat)
    (p : Particles num) : Particles num :=
  let p := apply_gravity CONFIG env i p in
  let p := if pointer_down env
           then repel (interactionRadius CONFIG) (lit 4) (pointer_x env) (pointer_y env) i p
           else p in
  advance i p.

Definition predict (CONFIG : Config num) (env : Env num) (p : Particles num) : Particles num :=
  for_i (particleCount CONFIG) (predictParticle CONFIG env) p.

Definition updatePhysics (CONFIG : Config num) (env : Env num) (st : State num) : State num :=
  let st := {| particles := predict CONFIG env (particles st); grid := grid st |} in
  let st := substeps CONFIG (width env) (height env) st in
  {| particles := updateVelocities CONFIG (particles st); grid := grid st |}.

Definition updatePhysics_logged (CONFIG : Config num) (env : Env num) (st : State num)
    : State num * list (Particles num) :=
  let st := {| particles := predict CONFIG env (particles st); grid := grid st |} in
  let '(st, log) := substeps_logged CONFIG (width env) (height env) st in
  ({| particles := updateVelocities CONFIG (particles st); grid := grid st |}, log).

(** Whether the frame returns: its other loops count particles and
    substeps. *)
Definition returns (CONFIG : Config num) (env : Env num) (st : State num) : bool :=
  substeps_return CONFIG (width env) (height env)
    {| particles := predict CONFIG env (particles st); grid := grid st |}.
End Debug.
End Debug.

(** [fluid.js] "Realistic AR Water V5 (Volumetric Thickness)": the pointer
    and the interaction radius are scaled by the device pixel ratio. *)
Module V5.
Section V5.
Context {num : Type} `{Number num}.
Local Open Scope num_scope.

Definition CONFIG : Config num := {|
  particleCount := 900; radius := lit 20; physRadius := lit 15;
  gravityScale := lit (18 # 100); damping := lit (96 # 100);
  stiffness := lit (2 # 100); stiffnessNear := lit (1 # 10);
  restDensity := lit 3; interactionRadius := lit 120; subSteps := 2 |}.

Definition predictParticle (CONFIG : Config num) (env : Env num) (dpr : num) (i : nat)
    (p : Particles num) : Particles num :=
  let p := apply_gravity CONFIG env i p in
  let p := if pointer_down env
           then repel (interactionRadius CONFIG * dpr) (lit 4)
                      (pointer_x env * dpr) (pointer_y env * dpr) i p
           else p in
  advance i p.

Definition predict (CONFIG : Config num) (env : Env num) (p : Particles num) : Particles num :=
  let dpr := width env / innerWidth env in
  for_i (particleCount CONFIG) (predictParticle CONFIG env dpr) p.

Definition updatePhysics (CONFIG : Config num) (env : Env num) (st : State num) : State num :=
  let st := {| particles := predict CONFIG env (particles st); grid := grid st |} in
  let boundW := width env in
  let boundH := height env in
  let st := substeps CONFIG boundW boundH st in
  {| particles := updateVelocities CONFIG (particles st); grid := grid st |}.

Definition updatePhysics_logged (CONFIG : Config num) (env : Env num) (st : State num)
    : State num * list (Particles num) :=
  let st := {| particles := predict CONFIG env (particles st); grid := grid st |} in
  let '(st, log) := substeps_logged CONFIG (width env) (height env) st in
  ({| particles := updateVelocities CONFIG (particles st); grid := grid st |}, log).

(** Whether the frame returns: its other loops count particles and
    substeps. *)
Definition returns (CONFIG : Config num) (env : Env num) (st : State num) : bool :=
  substeps_return CONFIG (width env) (height env)
    {| particles := predict CONFIG env (particles st); grid := grid st |}.
End V5.
End V5.

(** [fluid.js] "High Performance WebGL Fluid Simulation": the boundaries are
    also enforced while predicting, the grid is built once, before the
    substep loop, and the block is enumerated by offsets. *)
Module HighPerf.
Section HighPerf.
Context {num : Type} `{Number num}.
Local Open Scope num_scope.

Definition CONFIG : Config num := {|
  particleCount := 1500; radius := lit 12; physRadius := lit 10;
  gravityScale := lit (15 # 100); damping := lit (99 # 100);
  stiffness := lit (8 # 100); stiffnessNear := lit (1 # 10);
  restDensity := lit 5; interactionRadius := lit 80; subSteps := 2 |}.

Definition predictParticle (CONFIG : Config num) (env : Env num) (i : nat)
    (p : Particles num) : Particles num :=
  let p := apply_gravity CONFIG env i p in
  let p := if pointer_down env
           then repel (interactionRadius CONFIG) (lit 2) (pointer_x env) (pointer_y env) i p
           else p in
  let p := advance i p in
  clampParticle (radius CONFIG) (width env) (height env) i p.

Definition predict (CONFIG : Config num) (env : Env num) (p : Particles num) : Particles num :=
  for_i (particleCount CONFIG) (predictParticle CONFIG env) p.

(** [for (let dx = -1; dx <= 1; dx++) for (let dy = -1; dy <= 1; dy++)]
    with the key [(gx + dx) + "," + (gy + dy)]. *)
Definition block_keys (gx gy : num) : list (numstr * numstr) :=
  dx ← [lit (-1); lit 0; lit 1]; dy ← [lit (-1); lit 0; lit 1]; [key (gx + dx) (gy + dy)].

(** One turn of [for (let step = 0; step < CONFIG.subSteps; step++)]. *)
Definition solveStep (CONFIG : Config num) (env : Env num) (st : State num) : State num :=
  let p := relax CONFIG block_keys (grid st) (particles st) in
  {| particles :=
       for_i (particleCount CONFIG)
         (clampParticle_else (radius CONFIG) (width env) (height env)) p;
     grid := grid st |}.

Definition updatePhysics (CONFIG : Config num) (env : Env num) (st : State num) : State num :=
  let p := predict CONFIG env (particles st) in
  let st := {| particles := p; grid := buildGrid CONFIG p |} in
  let st := for_i (subSteps CONFIG) (fun _ => solveStep CONFIG env) st in
  {| particles := updateVelocities CONFIG (particles st); grid := grid st |}.

Definition updatePhysics_logged (CONFIG : Config num) (env : Env num) (st : State num)
    : State num * list (Particles num) :=
  let p := predict CONFIG env (particles st) in
  let '(st, log) := ({| particles := p; grid := buildGrid CONFIG p |}, [p]) in
  let st := for_i (subSteps CONFIG) (fun _ => solveStep CONFIG env) st in
  ({| particles := updateVelocities CONFIG (particles st); grid := grid st |}, log).

(** Every loop of this version counts offsets, particles, substeps or the
    elements of a cell: the frame always returns. *)
Definition returns (CONFIG : Config num) (env : Env num) (st : State num) : bool := true.
End HighPerf.
End HighPerf.

(** [initParticles] of the "Realistic AR Water Simulation" version, the one
    place that calls [Math.random]: [random k] is what its call number [k]
    returns.  [cols], [i % cols] and [Math.floor(i / cols)] are integers and
    computed as such. *)
Module ARWaterInit.
Section ARWaterInit.
Context {num : Type} `{Number num}.
Local Open Scope num_scope.

Definition of_nat (n : nat) : num := lit (inject_Z (Z.of_nat n)).

Definition initParticle (CONFIG : Config num) (env : Env num) (random : nat -> num)
    (cols : nat) (spacing startX : num) (i : nat) (p : Particles num) : Particles num :=
  let p := set_x p i (startX + of_nat (i mod cols) * spacing) in
  let p := set_y p i (height env * lit (2 # 10) + of_nat (i / cols) * spacing) in
  let p := set_prevX p i (get (particles_x p) i) in
  let p := set_prevY p i (get (particles_y p) i) in
  let p := set_vx p i ((random (2 * i)%nat - lit (1 # 2)) * lit 5) in
  set_vy p i ((random (2 * i + 1)%nat - lit (1 # 2)) * lit 5).

Definition initParticles (CONFIG : Config num) (env : Env num) (random : nat -> num)
    (p : Particles num) : Particles num :=
  let cols := Nat.sqrt (particleCount CONFIG) in
  let spacing := physRadius CONFIG * lit (22 # 10) in
  let startX := (width env - of_nat cols * spacing) / lit 2 in
  for_i (particleCount CONFIG) (initParticle CONFIG env random cols spacing startX) p.

End ARWaterInit.
End ARWaterInit.

(** [water.js]: the block "Screen Boundaries" that ends [Particle.update].
    The particle's own [radius], the one it is drawn with, is the margin;
    there is no other radius in that file. *)
Module Water.
Section Water.
Context {num : Type} `{Number num}.
Local Open Scope num_scope.

Record Particle := { x : num; y : num; vx : num; vy : num; radius : num }.

Definition screenBoundaries (width height : num) (this : Particle) : Particle :=
  let bounce := lit (-7 # 10) in
  let this :=
    if x this <? radius this then
      {| x := radius this; y := y this; vx := vx this * bounce; vy := vy this;
         radius := radius this |}
    else if x this >? width - radius this then
      {| x := width - radius this; y := y this; vx := vx this * bounce; vy := vy this;
         radius := radius this |}
    else this in
  if y this <? radius this then
    {| x := x this; y := radius this; vx := vx this; vy := vy this * bounce;
       radius := radius this |}
  else if y this >? height - radius this then
    {| x := x this; y := height - radius this; vx := vx this; vy := vy this * bounce;
       radius := radius this |}
  else this.

End Water.
Arguments Particle num : clear implicits.
End Water.

(** ** The versions together, and the state they start from *)

Section Versions.
Context {num : Type} `{Number num}.
Local Open Scope num_scope.

(** The four versions of the frame step. *)
Definition versions : list (Config num -> Env num -> State num -> State num) :=
  [ARWater.updatePhysics; Debug.updatePhysics; V5.updatePhysics; HighPerf.updatePhysics].

(** Each version with the test that its frame returns. *)
Definition returning_versions
  : list ((Config num -> Env num -> State num -> State num) *
          (Config num -> Env num -> State num -> bool)) :=
  [ (ARWater.updatePhysics, ARWater.returns); (Debug.updatePhysics, Debug.returns);
    (V5.updatePhysics, V5.returns); (HighPerf.updatePhysics, HighPerf.returns) ].

(** The globals as the script's top level leaves them: six
    [new Float32Array(CONFIG.particleCount)], all zeros, and [grid = {}]. *)
Definition initial_state (CONFIG : Config num) : State num :=
  let zeros := replicate (particleCount CONFIG) (lit 0) in
  {| particles := {| particles_x := zeros; particles_y := zeros;
                     particles_vx := zeros; particles_vy := zeros;
                     particles_prevX := zeros; particles_prevY := zeros |};
     grid := ∅ |}.

End Versions.

(** The constants of a [CONFIG] with another particle count, for frames
    small enough to run here. *)
Definition with_count {num : Type} (n : nat) (c : Config num) : Config num := {|
  particleCount := n; radius := radius c; physRadius := physRadius c;
  gravityScale := gravityScale c; damping := damping c;
  stiffness := stiffness c; stiffnessNear := stiffnessNear c;
  restDensity := restDensity c; interactionRadius := interactionRadius c;
  subSteps := subSteps c |}.

(** * Around the frame step: reset, events, vertex data *)

(** ** Reset: [initParticles] in the other versions *)

Section Lattice.
Context {num : Type} `{Number num}.
Local Open Scope num_scope.

(** The four stores that put particle [i] on the lattice and save its
    position: column [i % cols], row [Math.floor(i / cols)]. *)
Definition place (cols : nat) (spacing startX startY : num) (i : nat)
    (p : Particles num) : Particles num :=
  let p := set_x p i (startX + ARWaterInit.of_nat (i mod cols) * spacing) in
  let p := set_y p i (startY + ARWaterInit.of_nat (i / cols) * spacing) in
  let p := set_prevX p i (get (particles_x p) i) in
  set_prevY p i (get (particles_y p) i).

(** [vx[i] = (Math.random()-0.5)*5; vy[i] = (Math.random()-0.5)*5]: the
    calls number [2i] and [2i+1] of a reset. *)
Definition kick (random : nat -> num) (i : nat) (p : Particles num) : Particles num :=
  let p := set_vx p i ((random (2 * i)%nat - lit (1 # 2)) * lit 5) in
  set_vy p i ((random (2 * i + 1)%nat - lit (1 # 2)) * lit 5).

(** [vx[i]=0; vy[i]=0]. *)
Definition still (i : nat) (p : Particles num) : Particles num :=
  let p := set_vx p i (lit 0) in
  set_vy p i (lit 0).

End Lattice.

(** "Realistic AR Water (Debug Mode & Fixes)": rows start at [height*0.3]. *)
Module DebugInit.
Section DebugInit.
Context {num : Type} `{Number num}.
Local Open Scope num_scope.

Definition initParticles (CONFIG : Config num) (env : Env num) (random : nat -> num)
    (p : Particles num) : Particles num :=
  let cols := Nat.sqrt (particleCount CONFIG) in
  let spacing := physRadius CONFIG * lit (22 # 10) in
  let startX := (width env - ARWaterInit.of_nat cols * spacing) / lit 2 in
  for_i (particleCount CONFIG)
    (fun i p => kick random i (place cols spacing startX (height env * lit (3 # 10)) i p)) p.

End DebugInit.
End DebugInit.

(** "High Performance WebGL Fluid Simulation": [startY = height * 0.2]. *)
Module HighPerfInit.
Section HighPerfInit.
Context {num : Type} `{Number num}.
Local Open Scope num_scope.

Definition initParticles (CONFIG : Config num) (env : Env num) (random : nat -> num)
    (p : Particles num) : Particles num :=
  let cols := Nat.sqrt (particleCount CONFIG) in
  let spacing := physRadius CONFIG * lit (22 # 10) in
  let startX := (width env - ARWaterInit.of_nat cols * spacing) / lit 2 in
  let startY := height env * lit (2 # 10) in
  for_i (particleCount CONFIG)
    (fun i p => kick random i (place cols spacing startX startY i p)) p.

End HighPerfInit.
End HighPerfInit.

(** "Realistic AR Water V5": the lattice is centred on
    [width / window.devicePixelRatio], rows start at [height*0.1], and the
    particles start at rest; no random number is drawn. *)
Module V5Init.
Section V5Init.
Context {num : Type} `{Number num}.
Local Open Scope num_scope.

Definition initParticles (CONFIG : Config num) (env : Env num) (devicePixelRatio : num)
    (p : Particles num) : Particles num :=
  let cols := Nat.sqrt (particleCount CONFIG) in
  let spacing := physRadius CONFIG * lit (22 # 10) in
  let startX := (width env / devicePixelRatio - ARWaterInit.of_nat cols * spacing) / lit 2 in
  for_i (particleCount CONFIG)
    (fun i p => still i (place cols spacing startX (height env * lit (1 # 10)) i p)) p.

End V5Init.
End V5Init.

Section Resets.
Context {num : Type} `{Number num}.

(** The four resets, each given the random numbers and the device pixel
    ratio it may ask for. *)
Definition initParticles_versions
  : list (Config num -> Env num -> (nat -> num) -> num -> Particles num -> Particles num) :=
  [ fun CONFIG env random _ => ARWaterInit.initParticles CONFIG env random;
    fun CONFIG env random _ => DebugInit.initParticles CONFIG env random;
    fun CONFIG env random _ => HighPerfInit.initParticles CONFIG env random;
    fun CONFIG env _ devicePixelRatio => V5Init.initParticles CONFIG env devicePixelRatio ].

End Resets.

(** ** Pointer events

    The listeners of [fluid.js], the same in its four versions. *)

Section Pointer.
Context {num : Type} `{Number num}.

Definition point (x y : num) (down : bool) (env : Env num) : Env num :=
  {| gravity_x := gravity_x env; gravity_y := gravity_y env;
     pointer_x := x; pointer_y := y; pointer_down := down;
     width := width env; height := height env; innerWidth := innerWidth env |}.

(** [pointer.x=e.clientX; pointer.y=e.clientY; pointer.down=true]: no
    button needs to be pressed. *)
Definition mousemove (clientX clientY : num) (env : Env num) : Env num :=
  point clientX clientY true env.

(** [()=>pointer.down=false]. *)
Definition mouseup (env : Env num) : Env num :=
  point (pointer_x env) (pointer_y env) false env.

(** [pointer.x=e.touches[0].clientX; ...]: with an empty [touches] the
    read of [e.touches[0].clientX] throws before anything is stored. *)
Definition touchmove (touches : list (num * num)) (env : Env num) : option (Env num) :=
  match touches with
  | (clientX, clientY) :: _ => Some (point clientX clientY true env)
  | [] => None
  end.

Definition touchend (env : Env num) : Env num :=
  point (pointer_x env) (pointer_y env) false env.

End Pointer.

(** ** The motion sensor *)

Module Sensors.

(** [e.accelerationIncludingGravity]: an object whose [x] and [y] are
    numbers or [null]. *)
Record Acceleration := { acc_x : option float; acc_y : option float }.

(** [v || 0]: the falsy numbers are [0], [-0] and NaN, and [null] is falsy. *)
Definition or_zero (v : option float) : float :=
  match v with
  | Some a => if is_nan a || is_zero a then 0%float else a
  | None => 0%float
  end.

(** [handleMotion] of [fluid.js]: [if (acc) { gravity.x = -(acc.x||0) * 0.5;
    gravity.y = (acc.y||0) * 0.5; }]. *)
Definition handleMotion (acc : option Acceleration) (env : Env float) : Env float :=
  match acc with
  | Some a =>
      {| gravity_x := (- or_zero (acc_x a) * 0.5)%float;
         gravity_y := (or_zero (acc_y a) * 0.5)%float;
         pointer_x := pointer_x env; pointer_y := pointer_y env;
         pointer_down := pointer_down env;
         width := width env; height := height env; innerWidth := innerWidth env |}
  | None => env
  end.

End Sensors.

(** ** Vertex data

    [render] copies the positions into one [Float32Array], [x] and [y] of a
    particle side by side, and hands it to [gl.bufferSubData]. *)

Section Render.
Context {num : Type} `{Number num}.
Local Open Scope num_scope.

Definition positionData (CONFIG : Config num) (p : Particles num) : list num :=
  for_i (particleCount CONFIG)
    (fun i pos =>
       let pos := set pos (i * 2) (get (particles_x p) i) in
       set pos (i * 2 + 1) (get (particles_y p) i))
    (replicate (particleCount CONFIG * 2) (lit 0)).

End Render.

(** * [water.js]: the canvas version

    Particles are objects in an array; nothing is rounded to binary32.
    [draw] only reads a particle and is left out. *)

Module WaterSim.
Section WaterSim.
Context {num : Type} `{Number num}.
Local Open Scope num_scope.

(** [Math.atan2], [Math.cos] and [Math.sin]: the language leaves their
    values to the implementation, so the model takes them as given. *)
Variable Math_atan2 : num -> num -> num.
Variable Math_cos : num -> num.
Variable Math_sin : num -> num.

(** The numbers of [CONFIG]; its [color] is used by [draw] only. *)
Record Config := {
  particleCount : nat;
  particleRadius : num;
  gravityScale : num;
  damping : num;
  interactionRadius : num;
  repulsionStrength : num
}.

Definition CONFIG : Config := {|
  particleCount := 200; particleRadius := lit 15; gravityScale := lit (1 # 2);
  damping := lit (96 # 100); interactionRadius := lit 100; repulsionStrength := lit 2 |}.

(** The globals [gravity], [pointer], [width] and [height]. *)
Record World := {
  gravity_x : num;
  gravity_y : num;
  pointer_x : num;
  pointer_y : num;
  pointer_active : bool;
  width : num;
  height : num
}.

Definition move_to (x y : num) (this : Water.Particle num) : Water.Particle num :=
  {| Water.x := x; Water.y := y; Water.vx := Water.vx this; Water.vy := Water.vy this;
     Water.radius := Water.radius this |}.

Definition speed (vx vy : num) (this : Water.Particle num) : Water.Particle num :=
  {| Water.x := Water.x this; Water.y := Water.y this; Water.vx := vx; Water.vy := vy;
     Water.radius := Water.radius this |}.

(** [new Particle()]: five calls of [Math.random], numbered from [5k] for
    the particle number [k] of an [init]. *)
Definition newParticle (CONFIG : Config) (w : World) (random : nat -> num) (k : nat)
    : Water.Particle num :=
  {| Water.x := random (5 * k)%nat * width w;
     Water.y := random (5 * k + 1)%nat * height w;
     Water.vx := (random (5 * k + 2)%nat - lit (1 # 2)) * lit 10;
     Water.vy := (random (5 * k + 3)%nat - lit (1 # 2)) * lit 10;
     Water.radius :=
       particleRadius CONFIG * (lit (8 # 10) + random (5 * k + 4)%nat * lit (4 # 10)) |}.

(** The loop of [init]: [particles = []] and [CONFIG.particleCount] pushes
    of a [new Particle()]. *)
Definition createParticles (CONFIG : Config) (w : World) (random : nat -> num)
    : list (Water.Particle num) :=
  newParticle CONFIG w random <$> seq 0 (particleCount CONFIG).

(** The body of [if (distSq < minDist)] in [update]. *)
Definition repulsion (CONFIG : Config) (w : World) (this : Water.Particle num)
    : Water.Particle num :=
  let dx := Water.x this - pointer_x w in
  let dy := Water.y this - pointer_y w in
  let distSq := dx * dx + dy * dy in
  let minDist := interactionRadius CONFIG * interactionRadius CONFIG in
  if distSq <? minDist then
    let dist := nsqrt distSq in
    let force := (interactionRadius CONFIG - dist) / interactionRadius CONFIG in
    let angle := Math_atan2 dy dx in
    speed (Water.vx this + Math_cos angle * force * repulsionStrength CONFIG * lit 5)
          (Water.vy this + Math_sin angle * force * repulsionStrength CONFIG * lit 5)
          this
  else this.

(** [Particle.update]. *)
Definition update (CONFIG : Config) (w : World) (this : Water.Particle num)
    : Water.Particle num :=
  let this := speed (Water.vx this + gravity_x w * gravityScale CONFIG)
                    (Water.vy this + gravity_y w * gravityScale CONFIG) this in
  let this := if pointer_active w then repulsion CONFIG w this else this in
  let this := move_to (Water.x this + Water.vx this) (Water.y this + Water.vy this) this in
  let this := speed (Water.vx this * damping CONFIG) (Water.vy this * damping CONFIG) this in
  Water.screenBoundaries (width w) (height w) this.

(** The body of the inner loop of [animate] for [p1] and [p2]. *)
Definition collide (p1 p2 : Water.Particle num) : Water.Particle num * Water.Particle num :=
  let dx := Water.x p2 - Water.x p1 in
  let dy := Water.y p2 - Water.y p1 in
  let distSq := dx * dx + dy * dy in
  let minDist := Water.radius p1 + Water.radius p2 in
  if distSq <? minDist * minDist then
    let dist := nsqrt distSq in
    let overlap := minDist - dist in
    let nx := dx / dist in
    let ny := dy / dist in
    let separateCoeff := lit (1 # 2) in
    (move_to (Water.x p1 - nx * overlap * separateCoeff)
             (Water.y p1 - ny * overlap * separateCoeff) p1,
     move_to (Water.x p2 + nx * overlap * separateCoeff)
             (Water.y p2 + ny * overlap * separateCoeff) p2)
  else (p1, p2).

(** The same on the array: [p1] is [particles[i]], [p2] is [particles[j]],
    two different objects since [j > i]. *)
Definition collide_at (i j : nat) (particles : list (Water.Particle num))
    : list (Water.Particle num) :=
  match particles !! i, particles !! j with
  | Some p1, Some p2 =>
      let '(p1, p2) := collide p1 p2 in
      <[j := p2]> (<[i := p1]> particles)
  | _, _ => particles
  end.

(** One turn of the outer loop: [for (let j = i + 1; ...)], then
    [p1.update()]. *)
Definition turn (CONFIG : Config) (w : World) (i : nat) (particles : list (Water.Particle num))
    : list (Water.Particle num) :=
  let particles :=
    fold_left (fun l j => collide_at i j l)
              (seq (i + 1) (length particles - (i + 1))) particles in
  match particles !! i with
  | Some p1 => <[i := update CONFIG w p1]> particles
  | None => particles
  end.

(** What one call of [animate] does to [particles]. *)
Definition animate (CONFIG : Config) (w : World) (particles : list (Water.Particle num))
    : list (Water.Particle num) :=
  for_i (length particles) (turn CONFIG w) particles.

(** The pointer listeners: what they store in [pointer]. *)
Definition point (x y : num) (active : bool) (w : World) : World :=
  {| gravity_x := gravity_x w; gravity_y := gravity_y w;
     pointer_x := x; pointer_y := y; pointer_active := active;
     width := width w; height := height w |}.

Definition mousemove (clientX clientY : num) (w : World) : World :=
  point clientX clientY true w.

Definition mousedown (w : World) : World := point (pointer_x w) (pointer_y w) true w.

Definition mouseup (w : World) : World := point (pointer_x w) (pointer_y w) false w.

(** [e.touches[0].clientX] throws when there is no touch. *)
Definition touchmove (touches : list (num * num)) (w : World) : option World :=
  match touches with
  | (clientX, clientY) :: _ => Some (point clientX clientY true w)
  | [] => None
  end.

Definition touchend (w : World) : World := point (pointer_x w) (pointer_y w) false w.

(** [onResize]: [width = canvas.width = window.innerWidth;
    height = canvas.height = window.innerHeight].  The value of an
    assignment is its right-hand side, so [width] and [height] are the
    window's numbers, whatever the canvas keeps of them. *)
Definition onResize (innerWidth innerHeight : num) (w : World) : World :=
  {| gravity_x := gravity_x w; gravity_y := gravity_y w;
     pointer_x := pointer_x w; pointer_y := pointer_y w; pointer_active := pointer_active w;
     width := innerWidth; height := innerHeight |}.

(** All the globals of the script: with those of [World], the array
    [particles] and [animationId], which is [undefined] until [animate]
    has run. *)
Record Globals := {
  world : World;
  particles : list (Water.Particle num);
  animationId : option positive
}.

(** One call of [animate]: the frame, then
    [animationId = requestAnimationFrame(animate)], where [handle] is what
    the browser returns, an integer greater than zero.  [ctx.clearRect]
    and [draw] paint and change no global. *)
Definition animate_call (CONFIG : Config) (handle : positive) (s : Globals) : Globals :=
  {| world := world s; particles := animate CONFIG (world s) (particles s);
     animationId := Some handle |}.

(** [init]: [onResize()], the loop that creates the particles, and
    [if (!animationId) animate()]. *)
Definition init (CONFIG : Config) (innerWidth innerHeight : num) (random : nat -> num)
    (handle : positive) (s : Globals) : Globals :=
  let w := onResize innerWidth innerHeight (world s) in
  let s := {| world := w; particles := createParticles CONFIG w random;
              animationId := animationId s |} in
  match animationId s with
  | None => animate_call CONFIG handle s
  | Some _ => s
  end.

End WaterSim.

Arguments Config num : clear implicits.
Arguments World num : clear implicits.
Arguments Globals num : clear implicits.

(** [handleMotion] of [water.js]: [if (!acc) return; gravity.x = -(acc.x || 0);
    gravity.y = (acc.y || 0)]. *)
Definition handleMotion (acc : option Sensors.Acceleration) (w : World float) : World float :=
  match acc with
  | Some a =>
      {| gravity_x := (- Sensors.or_zero (Sensors.acc_x a))%float;
         gravity_y := Sensors.or_zero (Sensors.acc_y a);
         pointer_x := pointer_x w; pointer_y := pointer_y w;
         pointer_active := pointer_active w;
         width := width w; height := height w |}
  | None => w
  end.

End WaterSim.

(** [Math.atan2(y, x)], [Math.cos] and [Math.sin] in exact arithmetic. *)
Module Trig.

Definition atan2 (y x : R) : R :=
  (if Rlt_dec 0 x then atan (y / x)
   else if Rlt_dec x 0 then
     (if Rle_dec 0 y then atan (y / x) + PI else atan (y / x) - PI)
   else if Rlt_dec 0 y then PI / 2
   else if Rlt_dec y 0 then - (PI / 2)
   else 0)%R.

End Trig.

(** * The documentation's formulas, in exact arithmetic and as computed *)

Section Distance.
Local Open Scope R_scope.

(** Squared distance between particles [i] and [j]. *)
Definition dist2 (p : Particles R) (i j : nat) : R :=
  (get (particles_x p) j - get (particles_x p) i) * (get (particles_x p) j - get (particles_x p) i)
  + (get (particles_y p) j - get (particles_y p) i) * (get (particles_y p) j - get (particles_y p) i).

End Distance.

(** Double density relaxation for particle [i], written from the
    documentation: everything is computed from the positions the turn
    starts with, and the result is given for all particles at once. *)
Module Reference.
Section Reference.
Local Open Scope R_scope.
Variable CONFIG : Config R.
Variable p : Particles R.
Variable i : nat.

Definition cellSize : R := 2 * physRadius CONFIG.
Definition epsilon : R := 1 / 1000.

(** Squared distance from [i] to [j], and the distance. *)
Definition d2 (j : nat) : R := dist2 p i j.
Definition dist (j : nat) : R := R_sqrt.sqrt (d2 j).

(** True neighbours: the candidates with [d2 < cellSize^2] and
    [d2 > epsilon]. *)
Definition is_true_neighbor (j : nat) : bool :=
  Exact.ltb (d2 j) (cellSize ^ 2) && Exact.ltb epsilon (d2 j).

Definition true_neighbors (cands : list nat) : list nat :=
  List.filter is_true_neighbor cands.

(** Closeness [q = 1 - d / cellSize]. *)
Definition q (j : nat) : R := 1 - dist j / cellSize.

Definition sum (l : list R) : R := fold_right Rplus 0 l.

(** [rho = sum of q^2], [rho_near = sum of q^3]. *)
Definition rho (N : list nat) : R := sum (map (fun j => q j ^ 2) N).
Definition rho_near (N : list nat) : R := sum (map (fun j => q j ^ 3) N).

Definition P (N : list nat) : R := stiffness CONFIG * (rho N - restDensity CONFIG).
Definition P_near (N : list nat) : R := stiffnessNear CONFIG * rho_near N.

(** [Delta = 0.5 * (P q + P_near q^2) * unit (position j - position i)]. *)
Definition D (N : list nat) (j : nat) : R := 0.5 * (P N * q j + P_near N * q j ^ 2).
Definition delta_x (N : list nat) (j : nat) : R :=
  D N j * ((get (particles_x p) j - get (particles_x p) i) / dist j).
Definition delta_y (N : list nat) (j : nat) : R :=
  D N j * ((get (particles_y p) j - get (particles_y p) i) / dist j).

(** One coordinate array after the turn: each true neighbour gets its
    [Delta], particle [i] the negated sum of them all. *)
Definition moved (N : list nat) (delta : nat -> R) (coordinate : list R) : list R :=
  imap (fun k c =>
          if bool_decide (k ∈ N) then c + delta k
          else if bool_decide (k = i) then c - sum (map delta N)
          else c)
       coordinate.

Definition relaxParticle (cands : list nat) : Particles R :=
  let N := true_neighbors cands in
  {| particles_x := moved N (delta_x N) (particles_x p);
     particles_y := moved N (delta_y N) (particles_y p);
     particles_vx := particles_vx p; particles_vy := particles_vy p;
     particles_prevX := particles_prevX p; particles_prevY := particles_prevY p |}.

End Reference.
End Reference.

(** The same definition evaluated in the arithmetic at hand: every sum,
    product and quotient is made once, each new position is stored as a
    [Float32Array] keeps it, the sums start from [0] and take the
    neighbours in the order of the candidates, and a particle is not its
    own neighbour.  It is what the reference is in binary64. *)
Module Evaluated.
Section Evaluated.
Context {num : Type} `{Number num}.
Local Open Scope num_scope.
Variable CONFIG : Config num.
Variable p : Particles num.
Variable i : nat.

Definition cellSize : num := GRID_SIZE CONFIG.
Definition epsilon : num := lit (1 # 1000).

Definition d2 (j : nat) : num :=
  let dx := get (particles_x p) j - get (particles_x p) i in
  let dy := get (particles_y p) j - get (particles_y p) i in
  dx * dx + dy * dy.
Definition dist (j : nat) : num := nsqrt (d2 j).

(** True neighbours: the candidates other than [i] with
    [d2 < cellSize^2] and [d2 > epsilon]. *)
Definition is_true_neighbor (j : nat) : bool :=
  negb (Nat.eqb i j) && ((d2 j <? cellSize * cellSize) && (d2 j >? epsilon)).

Definition true_neighbors (cands : list nat) : list nat :=
  List.filter is_true_neighbor cands.

Definition q (j : nat) : num := lit 1 - dist j / cellSize.

Definition sum (l : list num) : num := fold_left nadd l (lit 0).

Definition rho (N : list nat) : num := sum (map (fun j => q j * q j) N).
Definition rho_near (N : list nat) : num := sum (map (fun j => q j * q j * q j) N).

Definition P (N : list nat) : num := stiffness CONFIG * (rho N - restDensity CONFIG).
Definition P_near (N : list nat) : num := stiffnessNear CONFIG * rho_near N.

Definition D (N : list nat) (j : nat) : num :=
  lit (1 # 2) * (P N * q j + P_near N * q j * q j).
Definition delta_x (N : list nat) (j : nat) : num :=
  (get (particles_x p) j - get (particles_x p) i) / dist j * D N j.
Definition delta_y (N : list nat) (j : nat) : num :=
  (get (particles_y p) j - get (particles_y p) i) / dist j * D N j.

(** The share of [i]: each [Delta] taken away in turn, from [0]. *)
Definition own (N : list nat) (delta : nat -> num) : num :=
  fold_left nsub (map delta N) (lit 0).

Definition moved (N : list nat) (delta : nat -> num) (coordinate : list num) : list num :=
  imap (fun k c =>
          if bool_decide (k ∈ N) then fround (c + delta k)
          else if bool_decide (k = i) then fround (c + own N delta)
          else c)
       coordinate.

Definition relaxParticle (cands : list nat) : Particles num :=
  let N := true_neighbors cands in
  {| particles_x := moved N (delta_x N) (particles_x p);
     particles_y := moved N (delta_y N) (particles_y p);
     particles_vx := particles_vx p; particles_vy := particles_vy p;
     particles_prevX := particles_prevX p; particles_prevY := particles_prevY p |}.

End Evaluated.
End Evaluated.

Section Claimed.
Local Open Scope R_scope.

(** What C3 says a coordinate becomes: the margin is [physRadius]. *)
Definition claimed_clamp (CONFIG : Config R) (bound c : R) : R :=
  Rmin (Rmax c (physRadius CONFIG)) (bound - physRadius CONFIG).

End Claimed.

(** * Properties *)

(** ** Loops and typed arrays *)

Section Facts.
Context {num : Type} `{Number num}.
Local Open Scope num_scope.

Lemma for_i_0 {A} (body : nat -> A -> A) s : for_i 0 body s = s.
Proof. reflexivity. Qed.

Lemma for_i_S {A} n (body : nat -> A -> A) s :
  for_i (S n) body s = body n (for_i n body s).
Proof. unfold for_i. rewrite seq_S, fold_left_app. reflexivity. Qed.

(** The first turn of a loop, for reasoning from the front. *)
Lemma for_i_S_front {A} n (body : nat -> A -> A) s :
  for_i (S n) body s = for_i n (fun i => body (S i)) (body 0 s).
Proof.
  unfold for_i. simpl. rewrite <- seq_shift.
  generalize (body 0 s) as s1. generalize (seq 0 n) as l.
  induction l as [|i l IH]; intros s1; simpl; [reflexivity | apply IH].
Qed.

Lemma for_i_invariant {A} (Q : A -> Prop) n (body : nat -> A -> A) :
  (forall i s, i < n -> Q s -> Q (body i s)) ->
  forall s, Q s -> Q (for_i n body s).
Proof.
  induction n as [|n IH]; intros Hb s Hs; [exact Hs|].
  rewrite for_i_S. apply Hb; [lia|]. apply IH; [|exact Hs].
  intros i s' Hi. apply Hb. lia.
Qed.

(** A loop whose turn [i] establishes [R] from [Q], while every other turn
    keeps whichever of the two holds. *)
Lemma for_i_establish {A} (Q R : A -> Prop) i n (body : nat -> A -> A) :
  i < n ->
  (forall j s, j < i -> Q s -> Q (body j s)) ->
  (forall s, Q s -> R (body i s)) ->
  (forall j s, i < j -> j < n -> R s -> R (body j s)) ->
  forall s, Q s -> R (for_i n body s).
Proof.
  intros Hi HQ HQR HR s Hs. revert Hi HR.
  induction n as [|n IH]; intros Hi HR; [lia|].
  rewrite for_i_S. destruct (decide (i = n)) as [->|Hne].
  - apply HQR. apply for_i_invariant; [|exact Hs].
    intros j s' Hj. apply HQ. exact Hj.
  - apply HR; [lia | lia |]. apply IH; [lia|].
    intros j s' Hij Hjn. apply HR; lia.
Qed.

Lemma length_set (a : list num) i v : length (set a i v) = length a.
Proof. apply length_insert. Qed.

Lemma get_set_eq (a : list num) i v : i < length a -> get (set a i v) i = fround v.
Proof. intros Hi. unfold get, set. rewrite list_lookup_insert_eq by exact Hi. reflexivity. Qed.

Lemma get_set_ne (a : list num) i j v : i <> j -> get (set a j v) i = get a i.
Proof. intros Hij. unfold get, set. rewrite list_lookup_insert_ne by congruence. reflexivity. Qed.

(** All six arrays have [n] elements, as [new Float32Array(n)] made them. *)
Definition wf (n : nat) (p : Particles num) : Prop :=
  length (particles_x p) = n /\ length (particles_y p) = n /\
  length (particles_vx p) = n /\ length (particles_vy p) = n /\
  length (particles_prevX p) = n /\ length (particles_prevY p) = n.

End Facts.

(** ** What each block of the step touches *)

Section Frames.
Context {num : Type} `{Number num}.
Local Open Scope num_scope.

(** The six values of particle [i]. *)
Definition at_index (p : Particles num) (i : nat) : num * num * num * num * num * num :=
  (get (particles_x p) i, get (particles_y p) i,
   get (particles_vx p) i, get (particles_vy p) i,
   get (particles_prevX p) i, get (particles_prevY p) i).

Definition lengths (p : Particles num) : nat * nat * nat * nat * nat * nat :=
  (length (particles_x p), length (particles_y p),
   length (particles_vx p), length (particles_vy p),
   length (particles_prevX p), length (particles_prevY p)).

Lemma wf_lengths n p : wf n p <-> lengths p = (n, n, n, n, n, n).
Proof.
  unfold wf, lengths. split.
  - intros (-> & -> & -> & -> & -> & ->). reflexivity.
  - intros [= -> -> -> -> -> ->]. repeat split.
Qed.

(** A block that only writes particle [j]. *)
Definition local_at (j : nat) (f : Particles num -> Particles num) : Prop :=
  forall p, lengths (f p) = lengths p /\
            forall i, i <> j -> at_index (f p) i = at_index p i.

Ltac local_block :=
  intros p; split; [|intros i Hij];
  repeat (first [progress cbv beta zeta delta
                   [repel apply_gravity advance clampParticle clampParticle_else
                    updateVelocity]
                | case_match]);
  unfold at_index, lengths; simpl;
  rewrite ?length_set, ?get_set_ne by assumption; reflexivity.

Lemma repel_local iR force ptx pty j : local_at j (repel iR force ptx pty j).
Proof. local_block. Qed.

Lemma apply_gravity_local CONFIG env j : local_at j (apply_gravity CONFIG env j).
Proof. local_block. Qed.

Lemma advance_local j : local_at j (advance j).
Proof. local_block. Qed.

Lemma clampParticle_local m bw bh j : local_at j (clampParticle m bw bh j).
Proof. local_block. Qed.

Lemma clampParticle_else_local m bw bh j : local_at j (clampParticle_else m bw bh j).
Proof. local_block. Qed.

Lemma updateVelocity_local CONFIG j : local_at j (updateVelocity CONFIG j).
Proof. local_block. Qed.

Lemma local_at_compose j f g : local_at j f -> local_at j g -> local_at j (fun p => g (f p)).
Proof.
  intros Hf Hg p. destruct (Hf p) as [Lf Af], (Hg (f p)) as [Lg Ag]. split.
  - congruence.
  - intros i Hij. rewrite Ag, Af by exact Hij. reflexivity.
Qed.

Lemma local_at_if j (b : bool) f g : local_at j f -> local_at j g ->
  local_at j (fun p => if b then f p else g p).
Proof. destruct b; auto. Qed.

Lemma local_at_id j : local_at j (fun p => p).
Proof. intros p. split; reflexivity. Qed.

(** A loop of local blocks keeps the lengths, and leaves particle [i]
    alone in every turn but its own. *)
Lemma for_i_lengths n (body : nat -> Particles num -> Particles num) p :
  (forall j, local_at j (body j)) -> lengths (for_i n body p) = lengths p.
Proof.
  intros Hb. apply (for_i_invariant (fun q => lengths q = lengths p)); [|reflexivity].
  intros j q _ Hq. rewrite <- Hq. apply Hb.
Qed.

Lemma for_i_wf n k (body : nat -> Particles num -> Particles num) p :
  (forall j, local_at j (body j)) -> wf k p -> wf k (for_i n body p).
Proof. intros Hb. rewrite !wf_lengths, for_i_lengths by exact Hb. auto. Qed.

End Frames.

Section Locality.
Context {num : Type} `{Number num}.
Local Open Scope num_scope.

(** In a loop of local blocks particle [i] is as the caller left it when
    its turn comes, and as its turn left it when the loop ends. *)
Lemma for_i_before n (body : nat -> Particles num -> Particles num) p i :
  (forall j, local_at j (body j)) -> n <= i ->
  at_index (for_i n body p) i = at_index p i.
Proof.
  intros Hb. induction n as [|n IH]; intros Hn; [reflexivity|].
  rewrite for_i_S. destruct (Hb n (for_i n body p)) as [_ Hat].
  rewrite Hat by lia. apply IH. lia.
Qed.

Lemma for_i_after n (body : nat -> Particles num -> Particles num) p i :
  (forall j, local_at j (body j)) -> i < n ->
  at_index (for_i n body p) i = at_index (body i (for_i i body p)) i.
Proof.
  intros Hb. induction n as [|n IH]; intros Hn; [lia|].
  rewrite for_i_S. destruct (decide (i = n)) as [->|Hne]; [reflexivity|].
  destruct (Hb n (for_i n body p)) as [_ Hat].
  rewrite Hat by exact Hne. apply IH. lia.
Qed.

(** *** Blocks that only move particles *)

Definition moves_only (p q : Particles num) : Prop :=
  particles_vx q = particles_vx p /\ particles_vy q = particles_vy p /\
  particles_prevX q = particles_prevX p /\ particles_prevY q = particles_prevY p /\
  lengths q = lengths p.

Lemma moves_only_refl p : moves_only p p.
Proof. repeat split. Qed.

Lemma moves_only_trans p q r : moves_only p q -> moves_only q r -> moves_only p r.
Proof.
  intros (? & ? & ? & ? & ?) (? & ? & ? & ? & ?). repeat split; congruence.
Qed.

Lemma moves_only_set_x p i v : moves_only p (set_x p i v).
Proof. repeat split. unfold lengths; simpl. rewrite length_set. reflexivity. Qed.

Lemma moves_only_set_y p i v : moves_only p (set_y p i v).
Proof. repeat split. unfold lengths; simpl. rewrite length_set. reflexivity. Qed.

Lemma moves_only_for_i n (body : nat -> Particles num -> Particles num) p :
  (forall j q, moves_only q (body j q)) -> moves_only p (for_i n body p).
Proof.
  intros Hb. apply (for_i_invariant (moves_only p)); [|apply moves_only_refl].
  intros j q _ Hq. eapply moves_only_trans; [exact Hq | apply Hb].
Qed.

Lemma push_neighbor_moves_only CONFIG P PNear (neighbors : list (Neighbor num)) p dx dy :
  moves_only p (fold_left (push_neighbor CONFIG P PNear) neighbors (p, dx, dy)).1.1.
Proof.
  revert p dx dy. induction neighbors as [|n ns IH]; intros p dx dy; simpl.
  - apply moves_only_refl.
  - eapply moves_only_trans; [|apply IH].
    eapply moves_only_trans; [apply moves_only_set_x | apply moves_only_set_y].
Qed.

Lemma relax_with_moves_only CONFIG neighbors i p :
  moves_only p (relax_with CONFIG neighbors i p).
Proof.
  unfold relax_with. destruct (densities CONFIG neighbors) as [rho rhoNear].
  pose proof (push_neighbor_moves_only CONFIG (pressure CONFIG rho)
                (nearPressure CONFIG rhoNear) neighbors p (lit 0) (lit 0)) as Hm.
  destruct (fold_left _ neighbors _) as [[q dx] dy]. simpl in Hm.
  eapply moves_only_trans; [exact Hm|].
  eapply moves_only_trans; [apply moves_only_set_x | apply moves_only_set_y].
Qed.

Lemma relax_moves_only CONFIG keys_of g p : moves_only p (relax CONFIG keys_of g p).
Proof. apply moves_only_for_i. intros j q. apply relax_with_moves_only. Qed.

Ltac moves :=
  cbv zeta; repeat case_match;
  repeat first
    [ apply moves_only_refl | apply moves_only_set_x | apply moves_only_set_y
    | eapply moves_only_trans; [|apply moves_only_set_y]
    | eapply moves_only_trans; [|apply moves_only_set_x] ].

Lemma clampParticle_moves_only m bw bh i p : moves_only p (clampParticle m bw bh i p).
Proof. unfold clampParticle. moves. Qed.

Lemma clampParticle_else_moves_only m bw bh i p :
  moves_only p (clampParticle_else m bw bh i p).
Proof. unfold clampParticle_else. moves. Qed.

Lemma enforceBoundaries_moves_only CONFIG bw bh p :
  moves_only p (enforceBoundaries CONFIG bw bh p).
Proof. apply moves_only_for_i. intros j q. apply clampParticle_moves_only. Qed.

Lemma substep_moves_only CONFIG bw bh st :
  moves_only (particles st) (particles (substep CONFIG bw bh st)).
Proof.
  unfold substep; simpl.
  eapply moves_only_trans; [apply relax_moves_only | apply enforceBoundaries_moves_only].
Qed.

Lemma substeps_moves_only CONFIG bw bh st :
  moves_only (particles st) (particles (substeps CONFIG bw bh st)).
Proof.
  unfold substeps.
  apply (for_i_invariant (fun s => moves_only (particles st) (particles s)));
    [|apply moves_only_refl].
  intros j s _ Hs. eapply moves_only_trans; [exact Hs | apply substep_moves_only].
Qed.

End Locality.

(** ** PREDICT saves the position, RECONCILE derives the velocity *)

Section Reconcile.
Context {num : Type} `{Number num}.
Local Open Scope num_scope.

Lemma wf_moves_only n (p q : Particles num) : moves_only p q -> wf n p -> wf n q.
Proof. intros (_ & _ & _ & _ & HL). rewrite !wf_lengths. congruence. Qed.

Lemma wf_local n j f (p : Particles num) : local_at j f -> wf n p -> wf n (f p).
Proof. intros Hf. destruct (Hf p) as [HL _]. rewrite !wf_lengths. congruence. Qed.

(** The velocity blocks of PREDICT leave positions and saved positions. *)
Lemma apply_gravity_positions CONFIG env i (p : Particles num) :
  particles_x (apply_gravity CONFIG env i p) = particles_x p /\
  particles_y (apply_gravity CONFIG env i p) = particles_y p /\
  particles_prevX (apply_gravity CONFIG env i p) = particles_prevX p /\
  particles_prevY (apply_gravity CONFIG env i p) = particles_prevY p.
Proof. repeat split. Qed.

Lemma repel_positions iR force ptx pty i (p : Particles num) :
  particles_x (repel iR force ptx pty i p) = particles_x p /\
  particles_y (repel iR force ptx pty i p) = particles_y p /\
  particles_prevX (repel iR force ptx pty i p) = particles_prevX p /\
  particles_prevY (repel iR force ptx pty i p) = particles_prevY p.
Proof. unfold repel. case_match; repeat split. Qed.

Lemma advance_prev i (p : Particles num) :
  i < length (particles_prevX p) -> i < length (particles_prevY p) ->
  get (particles_prevX (advance i p)) i = fround (get (particles_x p) i) /\
  get (particles_prevY (advance i p)) i = fround (get (particles_y p) i).
Proof. intros Hx Hy. unfold advance; simpl. rewrite !get_set_eq by assumption. split; reflexivity. Qed.

(** What a version's PREDICT turn must do for the saved position. *)
Definition saves_position (n : nat) (body : nat -> Particles num -> Particles num) : Prop :=
  (forall j, local_at j (body j)) /\
  forall i p, wf n p -> i < n ->
    get (particles_prevX (body i p)) i = fround (get (particles_x p) i) /\
    get (particles_prevY (body i p)) i = fround (get (particles_y p) i).

Lemma saves_position_loop n body (p : Particles num) i :
  saves_position n body -> wf n p -> i < n ->
  get (particles_prevX (for_i n body p)) i = fround (get (particles_x p) i) /\
  get (particles_prevY (for_i n body p)) i = fround (get (particles_y p) i).
Proof.
  intros [Hloc Hsave] Hwf Hi.
  pose proof (for_i_after n body p i Hloc Hi) as Hafter.
  pose proof (for_i_before i body p i Hloc (Nat.le_refl i)) as Hbefore.
  assert (Hwf' : wf n (for_i i body p)) by (apply for_i_wf; assumption).
  destruct (Hsave i (for_i i body p) Hwf' Hi) as [Hx Hy].
  unfold at_index in Hafter, Hbefore.
  injection Hafter as _ _ _ _ HpX HpY. injection Hbefore as Hbx Hby _ _ _ _.
  rewrite HpX, HpY, Hx, Hy, Hbx, Hby. split; reflexivity.
Qed.

Lemma predictParticle_saves (CONFIG : Config num) (pre post : nat -> Particles num -> Particles num) :
  (forall j, local_at j (pre j)) ->
  (forall j p, particles_x (pre j p) = particles_x p /\ particles_y (pre j p) = particles_y p) ->
  (forall j, local_at j (post j)) ->
  (forall j p, particles_prevX (post j p) = particles_prevX p /\
               particles_prevY (post j p) = particles_prevY p) ->
  saves_position (particleCount CONFIG) (fun j p => post j (advance j (pre j p))).
Proof.
  intros Hpre Hprex Hpost Hpostp. split.
  - intros j. apply (local_at_compose j (fun p => advance j (pre j p)) (post j)); [|apply Hpost].
    apply (local_at_compose j (pre j) (advance j)); [apply Hpre | apply advance_local].
  - intros i p Hwf Hi.
    destruct (Hpostp i (advance i (pre i p))) as [-> ->].
    assert (Hwf' : wf (particleCount CONFIG) (pre i p)) by (eapply wf_local; eauto).
    destruct Hwf' as (_ & _ & _ & _ & HlX & HlY).
    destruct (advance_prev i (pre i p)) as [-> ->]; [lia | lia |].
    destruct (Hprex i p) as [-> ->]. split; reflexivity.
Qed.

(** RECONCILE. *)
Lemma updateVelocities_positions CONFIG (p : Particles num) :
  particles_x (updateVelocities CONFIG p) = particles_x p /\
  particles_y (updateVelocities CONFIG p) = particles_y p /\
  particles_prevX (updateVelocities CONFIG p) = particles_prevX p /\
  particles_prevY (updateVelocities CONFIG p) = particles_prevY p.
Proof.
  unfold updateVelocities.
  apply (for_i_invariant (fun q =>
    particles_x q = particles_x p /\ particles_y q = particles_y p /\
    particles_prevX q = particles_prevX p /\ particles_prevY q = particles_prevY p));
    [|repeat split].
  intros j q _ Hq. exact Hq.
Qed.

Lemma updateVelocities_spec CONFIG (p : Particles num) i :
  wf (particleCount CONFIG) p -> i < particleCount CONFIG ->
  get (particles_vx (updateVelocities CONFIG p)) i =
    fround ((get (particles_x p) i - get (particles_prevX p) i) * damping CONFIG) /\
  get (particles_vy (updateVelocities CONFIG p)) i =
    fround ((get (particles_y p) i - get (particles_prevY p) i) * damping CONFIG).
Proof.
  intros Hwf Hi. unfold updateVelocities.
  pose proof (for_i_after _ _ p i (updateVelocity_local CONFIG) Hi) as Hafter.
  pose proof (for_i_before i _ p i (updateVelocity_local CONFIG) (Nat.le_refl i)) as Hbefore.
  assert (Hwf' : wf (particleCount CONFIG) (for_i i (updateVelocity CONFIG) p))
    by (apply for_i_wf; [apply updateVelocity_local | assumption]).
  destruct Hwf' as (_ & _ & HlX & HlY & _ & _).
  unfold at_index in Hafter, Hbefore.
  injection Hafter as _ _ Hvx Hvy _ _. injection Hbefore as Hbx Hby _ _ HbX HbY.
  rewrite Hvx, Hvy. rewrite !get_set_eq by lia.
  rewrite Hbx, Hby, HbX, HbY. split; reflexivity.
Qed.

End Reconcile.

Section FrameShape.
Context {num : Type} `{Number num}.
Local Open Scope num_scope.

Lemma pointer_block_local (b : bool) iR force ptx pty CONFIG env j :
  local_at j (fun p : Particles num =>
    let p := apply_gravity CONFIG env j p in
    if b then repel iR force ptx pty j p else p).
Proof.
  apply (local_at_compose j (apply_gravity CONFIG env j)
           (fun p => if b then repel iR force ptx pty j p else p)).
  - apply apply_gravity_local.
  - apply local_at_if; [apply repel_local | apply local_at_id].
Qed.

Lemma pointer_block_positions (b : bool) iR force ptx pty CONFIG env j (p : Particles num) :
  let q := (let p := apply_gravity CONFIG env j p in
            if b then repel iR force ptx pty j p else p) in
  particles_x q = particles_x p /\ particles_y q = particles_y p.
Proof.
  cbv zeta. destruct b.
  - destruct (repel_positions iR force ptx pty j (apply_gravity CONFIG env j p))
      as (-> & -> & _). split; reflexivity.
  - split; reflexivity.
Qed.

Lemma ARWater_saves CONFIG env :
  saves_position (particleCount CONFIG) (ARWater.predictParticle CONFIG env).
Proof.
  apply (predictParticle_saves CONFIG
           (fun j p => let p := apply_gravity CONFIG env j p in
                       if pointer_down env
                       then repel (interactionRadius CONFIG) (lit 3)
                              (pointer_x env) (pointer_y env) j p
                       else p)
           (fun _ p => p)).
  - intros j. apply pointer_block_local.
  - intros j p. apply pointer_block_positions.
  - intros j. apply local_at_id.
  - intros j p. split; reflexivity.
Qed.

Lemma Debug_saves CONFIG env :
  saves_position (particleCount CONFIG) (Debug.predictParticle CONFIG env).
Proof.
  apply (predictParticle_saves CONFIG
           (fun j p => let p := apply_gravity CONFIG env j p in
                       if pointer_down env
                       then repel (interactionRadius CONFIG) (lit 4)
                              (pointer_x env) (pointer_y env) j p
                       else p)
           (fun _ p => p)).
  - intros j. apply pointer_block_local.
  - intros j p. apply pointer_block_positions.
  - intros j. apply local_at_id.
  - intros j p. split; reflexivity.
Qed.

Lemma V5_saves CONFIG env dpr :
  saves_position (particleCount CONFIG) (V5.predictParticle CONFIG env dpr).
Proof.
  apply (predictParticle_saves CONFIG
           (fun j p => let p := apply_gravity CONFIG env j p in
                       if pointer_down env
                       then repel (interactionRadius CONFIG * dpr) (lit 4)
                              (pointer_x env * dpr) (pointer_y env * dpr) j p
                       else p)
           (fun _ p => p)).
  - intros j. apply pointer_block_local.
  - intros j p. apply pointer_block_positions.
  - intros j. apply local_at_id.
  - intros j p. split; reflexivity.
Qed.

Lemma HighPerf_saves CONFIG env :
  saves_position (particleCount CONFIG) (HighPerf.predictParticle CONFIG env).
Proof.
  apply (predictParticle_saves CONFIG
           (fun j p => let p := apply_gravity CONFIG env j p in
                       if pointer_down env
                       then repel (interactionRadius CONFIG) (lit 2)
                              (pointer_x env) (pointer_y env) j p
                       else p)
           (fun j p => clampParticle (radius CONFIG) (width env) (height env) j p)).
  - intros j. apply pointer_block_local.
  - intros j p. apply pointer_block_positions.
  - intros j. apply clampParticle_local.
  - intros j p.
    destruct (clampParticle_moves_only (radius CONFIG) (width env) (height env) j p)
      as (_ & _ & -> & -> & _). split; reflexivity.
Qed.

Lemma solveSteps_moves_only CONFIG env st :
  moves_only (particles st)
    (particles (for_i (subSteps CONFIG) (fun _ => HighPerf.solveStep CONFIG env) st)).
Proof.
  apply (for_i_invariant (fun s => moves_only (particles st) (particles s)));
    [|apply moves_only_refl].
  intros j s _ Hs. eapply moves_only_trans; [exact Hs|].
  unfold HighPerf.solveStep; simpl.
  eapply moves_only_trans; [apply relax_moves_only|].
  apply moves_only_for_i. intros k q. apply clampParticle_else_moves_only.
Qed.

(** Every version is PREDICT, then blocks that only move particles, then
    RECONCILE. *)
Definition frame_shape (update : Config num -> Env num -> State num -> State num) : Prop :=
  forall CONFIG env st, exists body p2,
    saves_position (particleCount CONFIG) body /\
    moves_only (for_i (particleCount CONFIG) body (particles st)) p2 /\
    particles (update CONFIG env st) = updateVelocities CONFIG p2.

Lemma versions_frame_shape update : In update versions -> frame_shape update.
Proof.
  unfold versions. simpl.
  intros [<-|[<-|[<-|[<-|[]]]]] CONFIG env st.
  - exists (ARWater.predictParticle CONFIG env). eexists.
    split; [apply ARWater_saves|]. split; [|reflexivity].
    apply (substeps_moves_only CONFIG (width env) (height env)
             {| particles := ARWater.predict CONFIG env (particles st); grid := grid st |}).
  - exists (Debug.predictParticle CONFIG env). eexists.
    split; [apply Debug_saves|]. split; [|reflexivity].
    apply (substeps_moves_only CONFIG (width env) (height env)
             {| particles := Debug.predict CONFIG env (particles st); grid := grid st |}).
  - exists (V5.predictParticle CONFIG env (width env / innerWidth env)). eexists.
    split; [apply V5_saves|]. split; [|reflexivity].
    apply (substeps_moves_only CONFIG (width env) (height env)
             {| particles := V5.predict CONFIG env (particles st); grid := grid st |}).
  - exists (HighPerf.predictParticle CONFIG env). eexists.
    split; [apply HighPerf_saves|]. split; [|reflexivity].
    apply (solveSteps_moves_only CONFIG env
             {| particles := HighPerf.predict CONFIG env (particles st);
                grid := buildGrid CONFIG (HighPerf.predict CONFIG env (particles st)) |}).
Qed.

End FrameShape.

(** ** C5: end-of-frame velocity *)

Section Velocity.
Context {num : Type} `{Number num}.
Local Open Scope num_scope.

(** C5.  In each of the four versions of [updatePhysics], for every particle
    [i] of a well-formed state, the velocity stored at the end of the frame
    is [(position - previousPosition) * damping] computed from the final
    position and the saved one (as the [Float32Array] keeps it), and the
    saved position is the particle's position at the start of the frame,
    written during PREDICT.  The predicted velocity occurs nowhere in the
    result: the store replaces it. *)
Theorem velocity_is_reconstructed update (CONFIG : Config num) env st i :
  In update versions ->
  wf (particleCount CONFIG) (particles st) ->
  i < particleCount CONFIG ->
  let p := particles st in
  let p' := particles (update CONFIG env st) in
  get (particles_vx p') i =
    fround ((get (particles_x p') i - get (particles_prevX p') i) * damping CONFIG) /\
  get (particles_vy p') i =
    fround ((get (particles_y p') i - get (particles_prevY p') i) * damping CONFIG) /\
  get (particles_prevX p') i = fround (get (particles_x p) i) /\
  get (particles_prevY p') i = fround (get (particles_y p) i).
Proof.
  intros Hin Hwf Hi p p'. subst p p'.
  destruct (versions_frame_shape update Hin CONFIG env st) as (body & p2 & Hsave & Hmove & Hres).
  set (p := particles st) in *. rewrite Hres.
  assert (Hwf1 : wf (particleCount CONFIG) (for_i (particleCount CONFIG) body p)).
  { apply for_i_wf; [apply Hsave | exact Hwf]. }
  assert (Hwf2 : wf (particleCount CONFIG) p2) by (eapply wf_moves_only; eauto).
  destruct (updateVelocities_spec CONFIG p2 i Hwf2 Hi) as [Hvx Hvy].
  destruct (updateVelocities_positions CONFIG p2) as (Hx & Hy & HpX & HpY).
  destruct (saves_position_loop _ body p i Hsave Hwf Hi) as [HsX HsY].
  destruct Hmove as (_ & _ & HmX & HmY & _).
  rewrite Hvx, Hvy, Hx, Hy, HpX, HpY, HmX, HmY, HsX, HsY.
  repeat split; reflexivity.
Qed.

End Velocity.

(** A concrete frame of the "Realistic AR Water Simulation" version in
    binary64/binary32 arithmetic: two particles, gravity pointing down. *)
Definition demo_config : Config float := {|
  particleCount := 2; radius := lit 12; physRadius := lit 10;
  gravityScale := lit (15 # 100); damping := lit (985 # 1000);
  stiffness := lit (4 # 100); stiffnessNear := lit (1 # 10);
  restDensity := lit 4; interactionRadius := lit 80; subSteps := 3 |}.

Definition demo_env : Env float := {|
  gravity_x := 0%float; gravity_y := 1%float;
  pointer_x := 100%float; pointer_y := 100%float; pointer_down := false;
  width := 800%float; height := 600%float; innerWidth := 800%float |}.

Definition demo_state : State float := {|
  particles := {| particles_x := [100; 110]%float; particles_y := [100; 105]%float;
                  particles_vx := [0; 0]%float; particles_vy := [0; 0]%float;
                  particles_prevX := [100; 110]%float; particles_prevY := [100; 105]%float |};
  grid := ∅ |}.

Lemma velocity_is_reconstructed_witness :
  let p' := particles (ARWater.updatePhysics demo_config demo_env demo_state) in
  get (particles_vx p') 0 =
    fround (nmul (nsub (get (particles_x p') 0) (get (particles_prevX p') 0))
                 (damping demo_config)) /\
  get (particles_vy p') 0 =
    fround (nmul (nsub (get (particles_y p') 0) (get (particles_prevY p') 0))
                 (damping demo_config)) /\
  get (particles_prevX p') 0 = fround 100%float /\
  get (particles_prevY p') 0 = fround 100%float.
Proof.
  apply (velocity_is_reconstructed ARWater.updatePhysics demo_config demo_env demo_state 0).
  - left. reflexivity.
  - repeat split.
  - unfold demo_config; simpl; lia.
Defined.

(** ** The grid is a function of the positions alone *)

Section GridUse.
Context {num : Type} `{Number num}.
Local Open Scope num_scope.

Lemma State_eta (st : State num) : {| particles := particles st; grid := grid st |} = st.
Proof. destruct st; reflexivity. Qed.

(** A substep reads the particles only: whatever [grid] held is dropped by
    [grid = {}]. *)
Lemma substep_ignores_grid CONFIG bw bh (st : State num) g :
  substep CONFIG bw bh {| particles := particles st; grid := g |} = substep CONFIG bw bh st.
Proof. reflexivity. Qed.

Lemma substep_grid CONFIG bw bh (st : State num) :
  grid (substep CONFIG bw bh st) = buildGrid CONFIG (particles st).
Proof. reflexivity. Qed.

Lemma substep_from_particles CONFIG bw bh (st1 st2 : State num) :
  particles st1 = particles st2 -> substep CONFIG bw bh st1 = substep CONFIG bw bh st2.
Proof. intros Hp. unfold substep. rewrite Hp. reflexivity. Qed.

Lemma substeps_from_particles CONFIG bw bh (st1 st2 : State num) :
  particles st1 = particles st2 ->
  particles (substeps CONFIG bw bh st1) = particles (substeps CONFIG bw bh st2) /\
  (0 < subSteps CONFIG -> substeps CONFIG bw bh st1 = substeps CONFIG bw bh st2).
Proof.
  intros Hp. unfold substeps. induction (subSteps CONFIG) as [|k [IHp _]].
  - split; [exact Hp | lia].
  - rewrite !for_i_S.
    assert (Heq : substep CONFIG bw bh (for_i k (fun _ => substep CONFIG bw bh) st1) =
                  substep CONFIG bw bh (for_i k (fun _ => substep CONFIG bw bh) st2)).
    { apply substep_from_particles, IHp. }
    rewrite Heq. split; reflexivity.
Qed.

Lemma solveSteps_grid CONFIG env k (st : State num) :
  grid (for_i k (fun _ => HighPerf.solveStep CONFIG env) st) = grid st.
Proof.
  apply (for_i_invariant (fun s => grid s = grid st)); [|reflexivity].
  intros j s _ Hs. exact Hs.
Qed.

(** *** The record of grid builds *)

Lemma substeps_logged_spec CONFIG bw bh (st : State num) k :
  for_i k (fun _ => substep_logged CONFIG bw bh) (st, []) =
  (for_i k (fun _ => substep CONFIG bw bh) st,
   map (fun s => particles (for_i s (fun _ => substep CONFIG bw bh) st)) (seq 0 k)).
Proof.
  induction k as [|k IH]; [reflexivity|].
  rewrite !for_i_S, IH. unfold substep_logged. cbn [fst snd].
  rewrite seq_S, map_app. reflexivity.
Qed.

Lemma substeps_erase CONFIG bw bh (st : State num) :
  (substeps_logged CONFIG bw bh st).1 = substeps CONFIG bw bh st.
Proof. unfold substeps_logged, substeps. rewrite substeps_logged_spec. reflexivity. Qed.

Lemma substeps_log CONFIG bw bh (st : State num) :
  (substeps_logged CONFIG bw bh st).2 =
  map (fun s => particles (for_i s (fun _ => substep CONFIG bw bh) st)) (seq 0 (subSteps CONFIG)).
Proof. unfold substeps_logged. rewrite substeps_logged_spec. reflexivity. Qed.

(** In the three versions that share [substeps], the frame builds the grid
    once per substep, each time from the particles as the substep finds
    them, and that grid is the one the substep's neighbour search reads. *)
Lemma grid_rebuilt_every_substep CONFIG bw bh (st : State num) :
  let log := (substeps_logged CONFIG bw bh st).2 in
  length log = subSteps CONFIG /\
  forall s, s < subSteps CONFIG ->
    let before := for_i s (fun _ => substep CONFIG bw bh) st in
    log !! s = Some (particles before) /\
    substep CONFIG bw bh before =
      {| particles := enforceBoundaries CONFIG bw bh
                        (relax CONFIG block_keys (buildGrid CONFIG (particles before))
                           (particles before));
         grid := buildGrid CONFIG (particles before) |}.
Proof.
  cbv zeta. rewrite substeps_log. split.
  - rewrite length_map, length_seq. reflexivity.
  - intros s Hs. split; [|reflexivity].
    rewrite list_lookup_fmap. rewrite lookup_seq_lt by exact Hs. reflexivity.
Qed.

Lemma updatePhysics_logged_erase (CONFIG : Config num) env st :
  (ARWater.updatePhysics_logged CONFIG env st).1 = ARWater.updatePhysics CONFIG env st /\
  (Debug.updatePhysics_logged CONFIG env st).1 = Debug.updatePhysics CONFIG env st /\
  (V5.updatePhysics_logged CONFIG env st).1 = V5.updatePhysics CONFIG env st /\
  (HighPerf.updatePhysics_logged CONFIG env st).1 = HighPerf.updatePhysics CONFIG env st.
Proof.
  unfold ARWater.updatePhysics_logged, Debug.updatePhysics_logged, V5.updatePhysics_logged,
    ARWater.updatePhysics, Debug.updatePhysics, V5.updatePhysics.
  repeat split;
    try (match goal with |- context [substeps_logged ?c ?w ?h ?s] =>
           rewrite <- (substeps_erase c w h s); destruct (substeps_logged c w h s) end;
         reflexivity).
Qed.

Lemma updatePhysics_log_three (CONFIG : Config num) env st :
  length (ARWater.updatePhysics_logged CONFIG env st).2 = subSteps CONFIG /\
  length (Debug.updatePhysics_logged CONFIG env st).2 = subSteps CONFIG /\
  length (V5.updatePhysics_logged CONFIG env st).2 = subSteps CONFIG.
Proof.
  unfold ARWater.updatePhysics_logged, Debug.updatePhysics_logged, V5.updatePhysics_logged.
  repeat split;
    match goal with |- context [substeps_logged ?c ?w ?h ?s] =>
      pose proof (grid_rebuilt_every_substep c w h s) as [Hlen _];
      destruct (substeps_logged c w h s) end; exact Hlen.
Qed.

End GridUse.

(** ** C1: when the grid is built *)

(** Four particles at rest on one line, no gravity, pointer up. *)
Definition stale_config : Config float := with_count 4 HighPerf.CONFIG.

Definition still_env : Env float := {|
  gravity_x := 0%float; gravity_y := 0%float;
  pointer_x := (-1000)%float; pointer_y := (-1000)%float; pointer_down := false;
  width := 800%float; height := 600%float; innerWidth := 800%float |}.

Definition at_rest (xs ys : list float) : State float := {|
  particles := {| particles_x := xs; particles_y := ys;
                  particles_vx := map (fun _ => 0%float) xs;
                  particles_vy := map (fun _ => 0%float) xs;
                  particles_prevX := xs; particles_prevY := ys |};
  grid := ∅ |}.

Definition stale_state : State float :=
  at_rest [40.125; 35; 60.0625; 56]%float [100; 100; 100; 100]%float.

(** C1 (the "High Performance" version does not do it).  Whatever
    [CONFIG.subSteps] is, that version builds the grid once per frame, from
    the predicted positions, and every substep searches that grid.  In the
    frame below its second substep starts with particle 0 at x = 39.95...
    and particle 2 at x = 59.81..., closer than [GRID_SIZE = 20]; the grid
    still lists particle 2 under cell 3, outside the block around cell 1,
    so particle 0 finds neighbours 1 and 3 only.  A grid rebuilt from the
    positions of that moment yields 1, 2 and 3. *)
Theorem HighPerf_builds_the_grid_once :
  (forall (num : Type) (N : Number num) (CONFIG : Config num) env st,
     (HighPerf.updatePhysics_logged CONFIG env st).1 = HighPerf.updatePhysics CONFIG env st /\
     (HighPerf.updatePhysics_logged CONFIG env st).2 =
       [HighPerf.predict CONFIG env (particles st)] /\
     grid (HighPerf.updatePhysics CONFIG env st) =
       buildGrid CONFIG (HighPerf.predict CONFIG env (particles st))) /\
  subSteps stale_config = 2 /\
  let p1 := HighPerf.predict stale_config still_env (particles stale_state) in
  let s1 := HighPerf.solveStep stale_config still_env
              {| particles := p1; grid := buildGrid stale_config p1 |} in
  let px := get (particles_x (particles s1)) 0 in
  let py := get (particles_y (particles s1)) 0 in
  let keys := HighPerf.block_keys (nfloor (ndiv px (GRID_SIZE stale_config)))
                                  (nfloor (ndiv py (GRID_SIZE stale_config))) in
  HighPerf.updatePhysics stale_config still_env stale_state =
    (let s2 := HighPerf.solveStep stale_config still_env s1 in
     {| particles := updateVelocities stale_config (particles s2); grid := grid s2 |}) /\
  map id (findNeighbors stale_config (particles s1) (grid s1) keys 0 px py) = [1; 3] /\
  map id (findNeighbors stale_config (particles s1)
            (buildGrid stale_config (particles s1)) keys 0 px py) = [1; 2; 3].
Proof.
  split; [|split; [reflexivity|]].
  - intros num N CONFIG env st. split; [apply updatePhysics_logged_erase|].
    split; [reflexivity|].
    unfold HighPerf.updatePhysics. cbn [grid]. apply solveSteps_grid.
  - cbv zeta. split; [reflexivity|]. split; vm_compute; reflexivity.
Qed.

(** ** C9 (first half) and C10 *)

Section Determinism.
Context {num : Type} `{Number num}.
Local Open Scope num_scope.

(** The frame reads the particle arrays, [CONFIG] and the environment, and
    nothing else: not what [grid] held before, and no random number. *)
Lemma frame_reads_particles_only update (CONFIG : Config num) env st1 st2 :
  In update versions ->
  particles st1 = particles st2 ->
  particles (update CONFIG env st1) = particles (update CONFIG env st2).
Proof.
  unfold versions. simpl. intros [<-|[<-|[<-|[<-|[]]]]] Hp.
  - unfold ARWater.updatePhysics. cbn [particles]. f_equal.
    apply substeps_from_particles. cbn [particles]. rewrite Hp. reflexivity.
  - unfold Debug.updatePhysics. cbn [particles]. f_equal.
    apply substeps_from_particles. cbn [particles]. rewrite Hp. reflexivity.
  - unfold V5.updatePhysics. cbn [particles]. f_equal.
    apply substeps_from_particles. cbn [particles]. rewrite Hp. reflexivity.
  - unfold HighPerf.updatePhysics. rewrite Hp. reflexivity.
Qed.

(** With no particle every loop over [i] makes no turn. *)
Lemma substep_empty CONFIG bw bh (st : State num) :
  particleCount CONFIG = 0 ->
  substep CONFIG bw bh st = {| particles := particles st; grid := ∅ |}.
Proof.
  intros Hn. unfold substep, buildGrid, relax, enforceBoundaries. rewrite Hn. reflexivity.
Qed.

Lemma substeps_empty CONFIG bw bh (st : State num) :
  particleCount CONFIG = 0 -> grid st = ∅ -> substeps CONFIG bw bh st = st.
Proof.
  intros Hn Hg. unfold substeps.
  apply (for_i_invariant (fun s => s = st)); [|reflexivity].
  intros j s _ ->. rewrite substep_empty by exact Hn. rewrite <- Hg. apply State_eta.
Qed.

Lemma solveSteps_empty CONFIG env (st : State num) :
  particleCount CONFIG = 0 ->
  for_i (subSteps CONFIG) (fun _ => HighPerf.solveStep CONFIG env) st = st.
Proof.
  intros Hn. apply (for_i_invariant (fun s => s = st)); [|reflexivity].
  intros j s _ ->. unfold HighPerf.solveStep, relax. rewrite Hn. apply State_eta.
Qed.

End Determinism.

Section EmptyFrame.
Context {num : Type} `{Number num}.
Local Open Scope num_scope.

Lemma empty_frame_fixed update (CONFIG : Config num) env st :
  In update versions -> particleCount CONFIG = 0 -> grid st = ∅ ->
  update CONFIG env st = st.
Proof.
  unfold versions. simpl. intros [<-|[<-|[<-|[<-|[]]]]] Hn Hg.
  - unfold ARWater.updatePhysics, ARWater.predict, updateVelocities. rewrite Hn, !for_i_0.
    rewrite State_eta, substeps_empty by assumption. apply State_eta.
  - unfold Debug.updatePhysics, Debug.predict, updateVelocities. rewrite Hn, !for_i_0.
    rewrite State_eta, substeps_empty by assumption. apply State_eta.
  - unfold V5.updatePhysics, V5.predict, updateVelocities. rewrite Hn, !for_i_0.
    rewrite State_eta, substeps_empty by assumption. apply State_eta.
  - unfold HighPerf.updatePhysics, HighPerf.predict, updateVelocities, buildGrid.
    rewrite Hn, !for_i_0. rewrite <- Hg, State_eta.
    rewrite solveSteps_empty by assumption. apply State_eta.
Qed.

(** C10.  With [CONFIG.particleCount = 0] a frame of any of the four
    versions is a total function that moves no array; it leaves the whole
    state, grid included, as it was whenever the grid is empty, which it is
    in every state that frames reach from the initial one. *)
Theorem empty_frame_is_a_no_op update (CONFIG : Config num) :
  In update versions -> particleCount CONFIG = 0 ->
  (forall env st, particles (update CONFIG env st) = particles st) /\
  (forall env st, grid st = ∅ -> update CONFIG env st = st) /\
  (forall envs : list (Env num),
     fold_left (fun st env => update CONFIG env st) envs (initial_state CONFIG)
     = initial_state CONFIG).
Proof.
  intros Hin Hn. split; [|split].
  - intros env st.
    rewrite (frame_reads_particles_only update CONFIG env st
               {| particles := particles st; grid := ∅ |} Hin eq_refl).
    rewrite empty_frame_fixed by (assumption || reflexivity). reflexivity.
  - intros env st Hg. apply empty_frame_fixed; assumption.
  - intros envs. induction envs as [|env envs IH]; [reflexivity|].
    simpl. rewrite empty_frame_fixed by (assumption || reflexivity). exact IH.
Qed.

End EmptyFrame.

Definition empty_config : Config float := with_count 0 ARWater.CONFIG.

Lemma empty_frame_is_a_no_op_witness :
  (forall env st, particles (ARWater.updatePhysics empty_config env st) = particles st) /\
  (forall env st, grid st = ∅ -> ARWater.updatePhysics empty_config env st = st) /\
  (forall envs : list (Env float),
     fold_left (fun st env => ARWater.updatePhysics empty_config env st) envs
       (initial_state empty_config)
     = initial_state empty_config).
Proof.
  apply (empty_frame_is_a_no_op ARWater.updatePhysics empty_config).
  - left. reflexivity.
  - reflexivity.
Defined.

(** * Binary64 facts: NaN *)

Module NaN.

Lemma Prim2SF_nan : Prim2SF nan = S754_nan.
Proof. reflexivity. Qed.

Lemma add_nan_l v : PrimFloat.add nan v = nan.
Proof. apply Prim2SF_inj. rewrite add_spec, Prim2SF_nan. reflexivity. Qed.

Lemma add_nan_r v : PrimFloat.add v nan = nan.
Proof.
  apply Prim2SF_inj. rewrite add_spec, Prim2SF_nan.
  destruct (Prim2SF v) as [[]|[]| |]; reflexivity.
Qed.

Lemma sub_nan_l v : PrimFloat.sub nan v = nan.
Proof. apply Prim2SF_inj. rewrite sub_spec, Prim2SF_nan. reflexivity. Qed.

Lemma mul_nan_l v : PrimFloat.mul nan v = nan.
Proof. apply Prim2SF_inj. rewrite mul_spec, Prim2SF_nan. reflexivity. Qed.

Lemma ltb_nan_l v : PrimFloat.ltb nan v = false.
Proof. rewrite ltb_spec, Prim2SF_nan. reflexivity. Qed.

Lemma ltb_nan_r v : PrimFloat.ltb v nan = false.
Proof.
  rewrite ltb_spec, Prim2SF_nan. unfold SFltb, SFcompare.
  destruct (Prim2SF v) as [[]|[]| |]; reflexivity.
Qed.

Lemma leb_nan_l v : PrimFloat.leb nan v = false.
Proof. rewrite leb_spec, Prim2SF_nan. reflexivity. Qed.

Lemma leb_nan_r v : PrimFloat.leb v nan = false.
Proof.
  rewrite leb_spec, Prim2SF_nan. unfold SFleb, SFcompare.
  destruct (Prim2SF v) as [[]|[]| |]; reflexivity.
Qed.

Lemma fround_nan : fround nan = nan.
Proof. reflexivity. Qed.

(** A finite number is a zero or [(-1)^s * m * 2^e]. *)
Lemma finite_cases x :
  is_finite x = true ->
  (exists s, Prim2SF x = S754_zero s) \/ (exists s m e, Prim2SF x = S754_finite s m e).
Proof.
  unfold is_finite. intros Hf.
  apply negb_true_iff, orb_false_iff in Hf. destruct Hf as [Hnan Hinf].
  unfold Prim2SF. rewrite Hnan, Hinf.
  destruct (is_zero x); [left; eauto|].
  destruct (Z.frexp x) as [r ex].
  destruct (shr_fexp prec emax _ _ _) as [sh e']. destruct (shr_m sh); eauto.
Qed.

(** [x - x] is [+0] for every finite [x]. *)
Lemma sub_diag x : is_finite x = true -> PrimFloat.sub x x = 0%float.
Proof.
  intros Hf. apply Prim2SF_inj. rewrite sub_spec.
  destruct (finite_cases x Hf) as [[s ->]|(s & m & e & ->)].
  - destruct s; reflexivity.
  - unfold SF64sub, SFsub. rewrite Z.sub_diag. reflexivity.
Qed.

(** A store of NaN reads back as NaN, in range (the element) or out of it
    ([undefined] as a number). *)
Lemma get_set_nan (a : list float) i v : fround v = nan -> get (set a i v) i = nan.
Proof.
  intros Hv. destruct (Nat.lt_ge_cases i (length a)) as [Hi|Hi].
  - rewrite get_set_eq by exact Hi. exact Hv.
  - unfold get, set. rewrite list_insert_ge by lia.
    rewrite lookup_ge_None_2 by lia. reflexivity.
Qed.

(** [a[k] += e] keeps a NaN at [i], whether [k] is [i] or not. *)
Lemma add_keeps_nan (a : list float) i k e :
  get a i = nan -> get (set a k (nadd (get a k) e)) i = nan.
Proof.
  intros Hi. destruct (decide (i = k)) as [<-|Hne].
  - apply get_set_nan. rewrite Hi. simpl. rewrite add_nan_l. reflexivity.
  - rewrite get_set_ne by exact Hne. exact Hi.
Qed.

End NaN.

(** ** C8: the pointer on top of a particle *)

Section PointerNaN.
Local Open Scope num_scope.

(** Both coordinates of particle [i] are NaN. *)
Definition nan_pos (p : Particles float) (i : nat) : Prop :=
  get (particles_x p) i = nan /\ get (particles_y p) i = nan.

(** Every version's PREDICT turn: gravity, the pointer block with the
    version's scaling and force constant, the advance, and [post] for what
    the version does next (nothing, or the boundaries). *)
Definition predict_turn (CONFIG : Config float) (env : Env float) (iR force ptx pty : float)
    (post : nat -> Particles float -> Particles float) (j : nat) (p : Particles float)
    : Particles float :=
  post j (advance j
    (let p := apply_gravity CONFIG env j p in
     if pointer_down env then repel iR force ptx pty j p else p)).

Lemma predict_turn_local CONFIG env iR force ptx pty post j :
  (forall k, local_at k (post k)) ->
  local_at j (predict_turn CONFIG env iR force ptx pty post j).
Proof.
  intros Hpost.
  apply (local_at_compose j
           (fun p => advance j (let p := apply_gravity CONFIG env j p in
                                if pointer_down env then repel iR force ptx pty j p else p))
           (post j)); [|apply Hpost].
  apply (local_at_compose j
           (fun p => let p := apply_gravity CONFIG env j p in
                     if pointer_down env then repel iR force ptx pty j p else p)
           (advance j)); [apply pointer_block_local | apply advance_local].
Qed.

(** The pointer block divides [0] by [0]. *)
Lemma repel_on_pointer iR force ptx pty i (p : Particles float) :
  is_finite ptx = true -> is_finite pty = true ->
  get (particles_x p) i = ptx -> get (particles_y p) i = pty ->
  (lit 0 <? iR * iR) = true ->
  let q := repel iR force ptx pty i p in
  get (particles_vx q) i = nan /\ get (particles_vy q) i = nan.
Proof.
  intros Hfx Hfy Hx Hy HiR. cbv zeta. unfold repel. rewrite Hx, Hy.
  change (ptx - ptx) with (PrimFloat.sub ptx ptx).
  change (pty - pty) with (PrimFloat.sub pty pty).
  rewrite !NaN.sub_diag by assumption.
  change (0%float * 0%float + 0%float * 0%float) with (lit 0 : float).
  rewrite HiR.
  change (0%float / nsqrt (lit 0 : float)) with nan.
  cbn [particles_vx particles_vy set_vx set_vy].
  split; apply NaN.get_set_nan; simpl;
    rewrite NaN.mul_nan_l, NaN.add_nan_r; reflexivity.
Qed.

Lemma predict_turn_on_pointer CONFIG env iR force ptx pty post i (p : Particles float) :
  pointer_down env = true ->
  is_finite ptx = true -> is_finite pty = true ->
  get (particles_x p) i = ptx -> get (particles_y p) i = pty ->
  (lit 0 <? iR * iR) = true ->
  (forall q, nan_pos q i -> nan_pos (post i q) i) ->
  nan_pos (predict_turn CONFIG env iR force ptx pty post i p) i.
Proof.
  intros Hdown Hfx Hfy Hx Hy HiR Hpost. unfold predict_turn. apply Hpost.
  rewrite Hdown. cbv zeta.
  destruct (repel_on_pointer iR force ptx pty i (apply_gravity CONFIG env i p)
              Hfx Hfy Hx Hy HiR) as [Hvx Hvy].
  destruct (repel_positions iR force ptx pty i (apply_gravity CONFIG env i p))
    as (Hrx & Hry & _ & _).
  set (q := repel iR force ptx pty i (apply_gravity CONFIG env i p)) in *.
  unfold nan_pos, advance.
  cbn [particles_x particles_y particles_vx particles_vy set_x set_y set_prevX set_prevY].
  rewrite Hvx, Hvy.
  split; apply NaN.get_set_nan; simpl; rewrite NaN.add_nan_r; reflexivity.
Qed.

(** *** NaN stays: [+=] absorbs it and no comparison with it holds *)

Lemma push_neighbor_keeps_nan CONFIG P PNear (neighbors : list (Neighbor float)) p dx dy i :
  nan_pos p i ->
  nan_pos (fold_left (push_neighbor CONFIG P PNear) neighbors (p, dx, dy)).1.1 i.
Proof.
  revert p dx dy. induction neighbors as [|n ns IH]; intros p dx dy [Hx Hy]; [split; assumption|].
  simpl. apply IH. unfold nan_pos. cbn [particles_x particles_y set_x set_y].
  split; apply NaN.add_keeps_nan; assumption.
Qed.

Lemma relaxParticle_keeps_nan CONFIG keys_of g j (p : Particles float) i :
  nan_pos p i -> nan_pos (relaxParticle CONFIG keys_of g j p) i.
Proof.
  intros Hp. unfold relaxParticle, relax_with.
  destruct (densities CONFIG _) as [rho rhoNear].
  match goal with |- context [fold_left (push_neighbor ?c ?P ?PN) ?ns (p, ?a, ?b)] =>
    pose proof (push_neighbor_keeps_nan c P PN ns p a b i Hp) as Hq;
    destruct (fold_left (push_neighbor c P PN) ns (p, a, b)) as [[q dx] dy] end.
  destruct Hq as [Hx Hy]. unfold nan_pos. cbn [particles_x particles_y set_x set_y].
  split; apply NaN.add_keeps_nan; assumption.
Qed.

Lemma clampParticle_keeps_nan m bw bh j (p : Particles float) i :
  nan_pos p i -> nan_pos (clampParticle m bw bh j p) i.
Proof.
  intros [Hx Hy]. destruct (decide (i = j)) as [<-|Hne].
  - unfold clampParticle. cbv zeta.
    change (get (particles_x p) i <? m) with (PrimFloat.ltb (get (particles_x p) i) m).
    rewrite Hx, NaN.ltb_nan_l.
    change (get (particles_x p) i >? bw - m)
      with (PrimFloat.ltb (bw - m) (get (particles_x p) i)).
    rewrite Hx, NaN.ltb_nan_r.
    change (get (particles_y p) i <? m) with (PrimFloat.ltb (get (particles_y p) i) m).
    rewrite Hy, NaN.ltb_nan_l.
    change (get (particles_y p) i >? bh - m)
      with (PrimFloat.ltb (bh - m) (get (particles_y p) i)).
    rewrite Hy, NaN.ltb_nan_r. split; assumption.
  - destruct (clampParticle_local m bw bh j p) as [_ Hat].
    specialize (Hat i Hne). unfold at_index in Hat. injection Hat as Hax Hay _ _ _ _.
    unfold nan_pos. rewrite Hax, Hay. split; assumption.
Qed.

Lemma clampParticle_else_keeps_nan m bw bh j (p : Particles float) i :
  nan_pos p i -> nan_pos (clampParticle_else m bw bh j p) i.
Proof.
  intros [Hx Hy]. destruct (decide (i = j)) as [<-|Hne].
  - unfold clampParticle_else. cbv zeta.
    change (get (particles_x p) i <? m) with (PrimFloat.ltb (get (particles_x p) i) m).
    change (get (particles_x p) i >? bw - m)
      with (PrimFloat.ltb (bw - m) (get (particles_x p) i)).
    rewrite Hx, NaN.ltb_nan_l, NaN.ltb_nan_r.
    change (get (particles_y p) i <? m) with (PrimFloat.ltb (get (particles_y p) i) m).
    change (get (particles_y p) i >? bh - m)
      with (PrimFloat.ltb (bh - m) (get (particles_y p) i)).
    rewrite Hy, NaN.ltb_nan_l, NaN.ltb_nan_r. split; assumption.
  - destruct (clampParticle_else_local m bw bh j p) as [_ Hat].
    specialize (Hat i Hne). unfold at_index in Hat. injection Hat as Hax Hay _ _ _ _.
    unfold nan_pos. rewrite Hax, Hay. split; assumption.
Qed.

Lemma substeps_keep_nan CONFIG bw bh (st : State float) i :
  nan_pos (particles st) i -> nan_pos (particles (substeps CONFIG bw bh st)) i.
Proof.
  intros Hp. unfold substeps.
  apply (for_i_invariant (fun s => nan_pos (particles s) i)); [|exact Hp].
  intros _ s _ Hs. unfold substep. cbn [particles].
  unfold enforceBoundaries, relax.
  apply (for_i_invariant (fun q => nan_pos q i)).
  - intros j q _. apply clampParticle_keeps_nan.
  - apply (for_i_invariant (fun q => nan_pos q i)); [|exact Hs].
    intros j q _. apply relaxParticle_keeps_nan.
Qed.

Lemma solveSteps_keep_nan CONFIG env (st : State float) i :
  nan_pos (particles st) i ->
  nan_pos (particles (for_i (subSteps CONFIG) (fun _ => HighPerf.solveStep CONFIG env) st)) i.
Proof.
  intros Hp.
  apply (for_i_invariant (fun s => nan_pos (particles s) i)); [|exact Hp].
  intros _ s _ Hs. unfold HighPerf.solveStep. cbn [particles]. unfold relax.
  apply (for_i_invariant (fun q => nan_pos q i)).
  - intros j q _. apply clampParticle_else_keeps_nan.
  - apply (for_i_invariant (fun q => nan_pos q i)); [|exact Hs].
    intros j q _. apply relaxParticle_keeps_nan.
Qed.

End PointerNaN.

Section PointerFrame.
Local Open Scope num_scope.

Lemma predict_loop_on_pointer CONFIG env iR force ptx pty post i (p : Particles float) :
  i < particleCount CONFIG ->
  (forall k, local_at k (post k)) ->
  (forall q, nan_pos q i -> nan_pos (post i q) i) ->
  pointer_down env = true ->
  is_finite ptx = true -> is_finite pty = true ->
  get (particles_x p) i = ptx -> get (particles_y p) i = pty ->
  (lit 0 <? iR * iR) = true ->
  nan_pos (for_i (particleCount CONFIG) (predict_turn CONFIG env iR force ptx pty post) p) i.
Proof.
  intros Hi Hloc Hpost Hdown Hfx Hfy Hx Hy HiR.
  set (body := predict_turn CONFIG env iR force ptx pty post).
  assert (Hbody : forall j, local_at j (body j))
    by (intros j; apply predict_turn_local, Hloc).
  pose proof (for_i_after _ body p i Hbody Hi) as Hafter.
  pose proof (for_i_before i body p i Hbody (Nat.le_refl i)) as Hbefore.
  unfold at_index in Hafter, Hbefore.
  injection Hafter as Hax Hay _ _ _ _. injection Hbefore as Hbx Hby _ _ _ _.
  unfold nan_pos. rewrite Hax, Hay.
  apply (predict_turn_on_pointer CONFIG env iR force ptx pty post i); try assumption.
  - rewrite Hbx. exact Hx.
  - rewrite Hby. exact Hy.
Qed.

Lemma updateVelocities_nan CONFIG (p : Particles float) i :
  i < particleCount CONFIG -> nan_pos p i ->
  let p' := updateVelocities CONFIG p in
  get (particles_vx p') i = nan /\ get (particles_vy p') i = nan /\ nan_pos p' i.
Proof.
  intros Hi [Hx Hy]. cbv zeta.
  destruct (updateVelocities_positions CONFIG p) as (Hpx & Hpy & _ & _).
  unfold nan_pos. rewrite Hpx, Hpy.
  unfold updateVelocities.
  pose proof (for_i_after _ _ p i (updateVelocity_local CONFIG) Hi) as Hafter.
  pose proof (for_i_before i _ p i (updateVelocity_local CONFIG) (Nat.le_refl i)) as Hbefore.
  unfold at_index in Hafter, Hbefore.
  injection Hafter as _ _ Hvx Hvy _ _. injection Hbefore as Hbx Hby _ _ _ _.
  rewrite Hvx, Hvy.
  repeat split; try assumption;
    apply NaN.get_set_nan; rewrite ?Hbx, ?Hby, ?Hx, ?Hy; simpl;
    rewrite NaN.sub_nan_l, NaN.mul_nan_l; reflexivity.
Qed.




End PointerFrame.

(** A frame of the "Realistic AR Water Simulation" version with the pointer
    down on particle 0, at (100, 100). *)
Definition touch_env : Env float := {|
  gravity_x := 0%float; gravity_y := 1%float;
  pointer_x := 100%float; pointer_y := 100%float; pointer_down := true;
  width := 800%float; height := 600%float; innerWidth := 800%float |}.


(** ** C2: a NaN position is outside every interval *)

Section Escape.
Local Open Scope num_scope.

Lemma substep_keeps_nan CONFIG bw bh (st : State float) i :
  nan_pos (particles st) i -> nan_pos (particles (substep CONFIG bw bh st)) i.
Proof.
  intros Hs. unfold substep. cbn [particles]. unfold enforceBoundaries, relax.
  apply (for_i_invariant (fun q => nan_pos q i)).
  - intros j q _. apply clampParticle_keeps_nan.
  - apply (for_i_invariant (fun q => nan_pos q i)); [|exact Hs].
    intros j q _. apply relaxParticle_keeps_nan.
Qed.

(** C2 (where the code departs from it).  In the "Realistic AR Water
    Simulation" version, after a PREDICT with the pointer down exactly on
    particle [i], the particle's coordinates are NaN after every substep,
    boundary pass included: each of [if (x < m)] and [if (x > boundW - m)]
    is false on NaN, so nothing is stored, and neither
    [physRadius <= x] nor [x <= width - physRadius] holds (nor the same
    with [radius], nor for [y]). *)
Theorem NaN_escapes_the_boundaries (CONFIG : Config float) env st i s :
  i < particleCount CONFIG ->
  pointer_down env = true ->
  is_finite (pointer_x env) = true -> is_finite (pointer_y env) = true ->
  get (particles_x (particles st)) i = pointer_x env ->
  get (particles_y (particles st)) i = pointer_y env ->
  (lit 0 <? interactionRadius CONFIG * interactionRadius CONFIG) = true ->
  let predicted := {| particles := ARWater.predict CONFIG env (particles st); grid := grid st |} in
  let after := for_i (S s) (fun _ => substep CONFIG (width env) (height env)) predicted in
  let x := get (particles_x (particles after)) i in
  let y := get (particles_y (particles after)) i in
  (physRadius CONFIG <=? x) = false /\ (x <=? width env - physRadius CONFIG) = false /\
  (physRadius CONFIG <=? y) = false /\ (y <=? height env - physRadius CONFIG) = false /\
  (radius CONFIG <=? x) = false /\ (x <=? width env - radius CONFIG) = false /\
  (radius CONFIG <=? y) = false /\ (y <=? height env - radius CONFIG) = false.
Proof.
  intros Hi Hdown Hfx Hfy Hx Hy HiR predicted after x y.
  assert (Hnan : nan_pos (particles after) i).
  { subst after.
    apply (for_i_invariant (fun st' => nan_pos (particles st') i)).
    - intros _ st' _. apply substep_keeps_nan.
    - subst predicted. cbn [particles].
      apply (predict_loop_on_pointer CONFIG env (interactionRadius CONFIG) (lit 3)
               (pointer_x env) (pointer_y env) (fun _ q => q));
        auto using local_at_id. }
  destruct Hnan as [Hnx Hny]. subst x y. rewrite Hnx, Hny.
  repeat split; first [apply NaN.leb_nan_r | apply NaN.leb_nan_l].
Qed.

End Escape.

Lemma NaN_escapes_the_boundaries_witness :
  let predicted := {| particles := ARWater.predict demo_config touch_env (particles demo_state);
                      grid := grid demo_state |} in
  let after := for_i 1 (fun _ => substep demo_config (width touch_env) (height touch_env))
                 predicted in
  let x := get (particles_x (particles after)) 0 in
  let y := get (particles_y (particles after)) 0 in
  nle (physRadius demo_config) x = false /\
  nle x (nsub (width touch_env) (physRadius demo_config)) = false /\
  nle (physRadius demo_config) y = false /\
  nle y (nsub (height touch_env) (physRadius demo_config)) = false /\
  nle (radius demo_config) x = false /\
  nle x (nsub (width touch_env) (radius demo_config)) = false /\
  nle (radius demo_config) y = false /\
  nle y (nsub (height touch_env) (radius demo_config)) = false.
Proof.
  apply (NaN_escapes_the_boundaries demo_config touch_env demo_state 0 0).
  - unfold demo_config; simpl; lia.
  - reflexivity.
  - reflexivity.
  - reflexivity.
  - reflexivity.
  - reflexivity.
  - vm_compute. reflexivity.
Defined.

(** ** What the grid holds *)

Section GridContents.
Context {num : Type} `{Number num}.
Local Open Scope num_scope.

(** The key particle [i] is filed under. *)
Definition key_of (CONFIG : Config num) (p : Particles num) (i : nat) : numstr * numstr :=
  getGridKey CONFIG (get (particles_x p) i) (get (particles_y p) i).

Lemma cell_of_grid_push (g : Grid num) k' i k :
  cell_of (grid_push g k' i) k = if decide (k = k') then cell_of g k ++ [i] else cell_of g k.
Proof.
  unfold cell_of, grid_push. destruct (decide (k = k')) as [->|Hne].
  - rewrite lookup_insert_eq. reflexivity.
  - rewrite lookup_insert_ne by congruence. reflexivity.
Qed.

(** After [buildGrid] a cell lists, in increasing order, exactly the
    particles whose key it is. *)
Lemma cell_of_buildGrid CONFIG (p : Particles num) k :
  cell_of (buildGrid CONFIG p) k =
  filter (fun i => key_of CONFIG p i = k) (seq 0 (particleCount CONFIG)).
Proof.
  unfold buildGrid. induction (particleCount CONFIG) as [|n IH].
  - reflexivity.
  - rewrite for_i_S, cell_of_grid_push, IH, seq_S, filter_app. simpl.
    fold (key_of CONFIG p n). rewrite filter_cons, filter_nil.
    destruct (decide (k = key_of CONFIG p n)) as [->|Hne].
    + rewrite decide_True by reflexivity. reflexivity.
    + rewrite decide_False by congruence. rewrite app_nil_r. reflexivity.
Qed.

Lemma elem_of_cell_buildGrid CONFIG (p : Particles num) k j :
  j ∈ cell_of (buildGrid CONFIG p) k <-> j < particleCount CONFIG /\ key_of CONFIG p j = k.
Proof.
  rewrite cell_of_buildGrid, list_elem_of_filter, elem_of_seq. simpl. split.
  - intros [Hk [_ Hj]]. split; [lia | exact Hk].
  - intros [Hj Hk]. split; [exact Hk | lia].
Qed.

Lemma elem_of_candidates (g : Grid num) keys j :
  j ∈ candidates g keys <-> exists k, k ∈ keys /\ j ∈ cell_of g k.
Proof.
  unfold candidates. rewrite list_elem_of_bind. split.
  - intros (k & Hj & Hk). eauto.
  - intros (k & Hk & Hj). eauto.
Qed.

Lemma NoDup_cell_buildGrid CONFIG (p : Particles num) k :
  NoDup (cell_of (buildGrid CONFIG p) k).
Proof. rewrite cell_of_buildGrid. apply NoDup_filter, NoDup_seq. Qed.

(** Distinct keys have disjoint cells, so a scan over distinct keys meets
    no particle twice. *)
Lemma NoDup_candidates CONFIG (p : Particles num) keys :
  NoDup keys -> NoDup (candidates (buildGrid CONFIG p) keys).
Proof.
  unfold candidates. induction 1 as [|k keys Hk Hnd IH]; [constructor|].
  simpl. apply NoDup_app. split; [apply NoDup_cell_buildGrid|]. split; [|exact IH].
  intros j Hj Hj'. apply elem_of_cell_buildGrid in Hj as [_ Hkey].
  apply list_elem_of_bind in Hj' as (k' & Hj' & Hk').
  apply elem_of_cell_buildGrid in Hj' as [_ Hkey'].
  apply Hk. congruence.
Qed.

End GridContents.

(** * Exact arithmetic: the formulas *)

Section ExactLiterals.
Local Open Scope R_scope.

Lemma lit_0 : lit 0 = 0.
Proof. simpl. unfold Q2R. simpl. lra. Qed.

Lemma lit_1 : lit 1 = 1.
Proof. simpl. unfold Q2R. simpl. lra. Qed.

Lemma lit_2 : lit 2 = 2.
Proof. simpl. unfold Q2R. simpl. lra. Qed.

Lemma lit_minus_1 : lit (-1) = -1.
Proof. simpl. unfold Q2R. simpl. lra. Qed.

Lemma lit_half : lit (1 # 2) = / 2.
Proof. simpl. unfold Q2R. simpl. lra. Qed.

Lemma lit_eps : lit (1 # 1000) = / 1000.
Proof. simpl. unfold Q2R. simpl. lra. Qed.

Lemma GRID_SIZE_exact (CONFIG : Config R) : GRID_SIZE CONFIG = physRadius CONFIG * 2.
Proof. unfold GRID_SIZE. rewrite lit_2. reflexivity. Qed.

End ExactLiterals.

(** ** C6: the 3x3 block covers the interaction circle *)

Section Block.
Local Open Scope R_scope.

Lemma nle_true (a b : R) : a <= b -> nle a b = true.
Proof. intros Hab. apply Exact.leb_spec. exact Hab. Qed.

Lemma nle_false (a b : R) : b < a -> nle a b = false.
Proof.
  intros Hab. simpl. unfold Exact.leb. destruct (Rle_dec a b); [lra | reflexivity].
Qed.

(** The loop [for (x = g-1; x <= g+1; x++)] makes three turns, with any
    fuel from 3 up: the fourth value, [g+2], fails the test. *)
Lemma count_up_three (fuel : nat) (g : R) :
  (3 <= fuel)%nat ->
  count_up fuel (nsub g (lit 1)) (nadd g (lit 1)) = [g - 1; g - 1 + 1; g - 1 + 1 + 1].
Proof.
  intros Hfuel. rewrite lit_1. cbn [nsub nadd R_Number].
  destruct fuel as [|[|[|fuel]]]; try lia.
  cbn [count_up]. rewrite lit_1. cbn [nadd R_Number].
  rewrite !nle_true by lra.
  destruct fuel as [|fuel]; [reflexivity|].
  cbn [count_up]. rewrite nle_false by lra. reflexivity.
Qed.

Lemma around_exact (g : R) : around g = [g - 1; g - 1 + 1; g - 1 + 1 + 1].
Proof. apply (count_up_three 3). lia. Qed.

Lemma to_str_around (z : Z) : map to_str (around (IZR z)) = [z - 1; z; z + 1]%Z.
Proof.
  rewrite around_exact. cbn [map to_str R_Number].
  replace (IZR z - 1) with (IZR (z - 1)) by (rewrite minus_IZR; reflexivity).
  replace (IZR (z - 1) + 1) with (IZR z) by (rewrite minus_IZR; lra).
  replace (IZR z + 1) with (IZR (z + 1)) by (rewrite plus_IZR; reflexivity).
  rewrite !ZfloorZ. reflexivity.
Qed.

(** The nine keys, in scan order. *)
Lemma block_keys_exact (a b : Z) :
  block_keys (IZR a) (IZR b) =
  [ (a - 1, b - 1); (a - 1, b); (a - 1, b + 1);
    (a, b - 1); (a, b); (a, b + 1);
    (a + 1, b - 1); (a + 1, b); (a + 1, b + 1) ]%Z.
Proof.
  unfold block_keys, key.
  pose proof (to_str_around a) as Ha. pose proof (to_str_around b) as Hb.
  rewrite !around_exact in *.
  cbn [map] in Ha, Hb. injection Ha as Ha1 Ha2 Ha3. injection Hb as Hb1 Hb2 Hb3.
  cbn [mbind list_bind app to_str R_Number].
  rewrite Ha1, Ha2, Ha3, Hb1, Hb2, Hb3. reflexivity.
Qed.

Lemma elem_of_block_keys (a b a' b' : Z) :
  (a - 1 <= a' <= a + 1)%Z -> (b - 1 <= b' <= b + 1)%Z ->
  (a', b') ∈ block_keys (IZR a) (IZR b).
Proof.
  intros Ha Hb. rewrite block_keys_exact.
  assert (Ha' : a' = (a - 1)%Z \/ a' = a \/ a' = (a + 1)%Z) by lia.
  assert (Hb' : b' = (b - 1)%Z \/ b' = b \/ b' = (b + 1)%Z) by lia.
  clear Ha Hb. destruct Ha' as [-> | [-> | ->]], Hb' as [-> | [-> | ->]]; set_solver.
Qed.

Lemma NoDup_block_keys (a b : Z) : NoDup (block_keys (IZR a) (IZR b)).
Proof.
  rewrite block_keys_exact.
  repeat (apply NoDup_cons; split;
          [rewrite ?elem_of_cons, elem_of_nil; intros Hin;
           repeat (destruct Hin as [Hin|Hin]; [injection Hin; lia|]); exact Hin|]).
  apply NoDup_nil. trivial.
Qed.

(** Two reals less than one cell apart have floors at most one apart. *)
Lemma floors_of_close (G u v : R) :
  0 < G -> Rabs (v - u) < G ->
  (Zfloor (u / G) - 1 <= Zfloor (v / G) <= Zfloor (u / G) + 1)%Z.
Proof.
  intros HG Huv.
  assert (Hq : Rabs (v / G - u / G) < 1).
  { replace (v / G - u / G) with ((v - u) / G) by (field; lra).
    unfold Rdiv. rewrite Rabs_mult, (Rabs_pos_eq (/ G)).
    - apply (Rmult_lt_reg_r G); [exact HG|]. rewrite Rmult_assoc, Rinv_l by lra. lra.
    - left. apply Rinv_0_lt_compat. exact HG. }
  apply Rabs_def2 in Hq.
  pose proof (Zfloor_bound (u / G)) as Hu. pose proof (Zfloor_bound (v / G)) as Hv.
  split.
  - assert (Hlt : IZR (Zfloor (u / G) - 1) < IZR (Zfloor (v / G) + 1)).
    { rewrite minus_IZR, plus_IZR. lra. }
    apply lt_IZR in Hlt. lia.
  - assert (Hlt : IZR (Zfloor (v / G)) < IZR (Zfloor (u / G) + 2)).
    { rewrite plus_IZR. lra. }
    apply lt_IZR in Hlt. lia.
Qed.

End Block.

Section Cover.
Local Open Scope R_scope.

Lemma coordinate_within (G dx dy : R) :
  0 < G -> R_sqrt.sqrt (dx * dx + dy * dy) < G -> Rabs dx < G /\ Rabs dy < G.
Proof.
  intros HG Hd.
  assert (Hs : 0 <= dx * dx + dy * dy) by nra.
  pose proof (sqrt_pos (dx * dx + dy * dy)) as Hpos.
  pose proof (sqrt_sqrt _ Hs) as Hsq.
  assert (Hlt : dx * dx + dy * dy < G * G) by nra.
  split.
  - destruct (Rlt_le_dec (Rabs dx) G) as [|Hge]; [assumption|exfalso].
    assert (Rabs dx * Rabs dx = dx * dx) by (unfold Rabs; destruct (Rcase_abs dx); nra).
    nra.
  - destruct (Rlt_le_dec (Rabs dy) G) as [|Hge]; [assumption|exfalso].
    assert (Rabs dy * Rabs dy = dy * dy) by (unfold Rabs; destruct (Rcase_abs dy); nra).
    nra.
Qed.

(** A particle that passes the distance test is in the block. *)
Lemma neighbor_is_a_candidate (CONFIG : Config R) (p : Particles R) i j :
  0 < physRadius CONFIG -> (j < particleCount CONFIG)%nat ->
  dist2 p i j < GRID_SIZE CONFIG * GRID_SIZE CONFIG ->
  j ∈ candidates (buildGrid CONFIG p)
        (block_keys (nfloor (ndiv (get (particles_x p) i) (GRID_SIZE CONFIG)))
                    (nfloor (ndiv (get (particles_y p) i) (GRID_SIZE CONFIG)))).
Proof.
  intros Hr Hj Hd. set (G := GRID_SIZE CONFIG) in *.
  assert (HG : 0 < G) by (subst G; rewrite GRID_SIZE_exact; lra).
  assert (Hs : R_sqrt.sqrt (dist2 p i j) < G).
  { rewrite <- (sqrt_square G) by lra. apply sqrt_lt_1_alt. split; [|exact Hd].
    unfold dist2. apply Rplus_le_le_0_compat; apply Rle_0_sqr. }
  unfold dist2 in Hs.
  destruct (coordinate_within G _ _ HG Hs) as [Hdx Hdy].
  pose proof (floors_of_close G _ _ HG Hdx) as Hfx.
  pose proof (floors_of_close G _ _ HG Hdy) as Hfy.
  apply elem_of_candidates. exists (key_of CONFIG p j). split.
  - unfold key_of, getGridKey, key. cbn [nfloor ndiv to_str R_Number]. fold G.
    rewrite !ZfloorZ. apply elem_of_block_keys; assumption.
  - apply elem_of_cell_buildGrid. split; [exact Hj | reflexivity].
Qed.

(** C6, amended.  With [cellSize = GRID_SIZE = 2 * physRadius > 0], a grid
    built from the positions [p0] and a scan that reads the positions [p]
    (those of [p0], or what earlier turns of the pass have made of them):
    if particle [j] is indexed and its Euclidean distance to the position
    of [i] is less than [cellSize], then the cell coordinates of [j] are
    within one of those of [i] on each axis; and [j] is among the indices
    the scan of the 3x3 block around the cell of [i] meets whenever [j] is
    still in the cell it was filed under, as every particle is when the
    grid has just been built. *)
Theorem block_covers_the_circle (CONFIG : Config R) (p0 p : Particles R) (i j : nat) :
  0 < physRadius CONFIG ->
  (j < particleCount CONFIG)%nat ->
  let G := GRID_SIZE CONFIG in
  let xi := get (particles_x p) i in
  let yi := get (particles_y p) i in
  let xj := get (particles_x p) j in
  let yj := get (particles_y p) j in
  R_sqrt.sqrt ((xj - xi) * (xj - xi) + (yj - yi) * (yj - yi)) < G ->
  (Zfloor (xi / G) - 1 <= Zfloor (xj / G) <= Zfloor (xi / G) + 1)%Z /\
  (Zfloor (yi / G) - 1 <= Zfloor (yj / G) <= Zfloor (yi / G) + 1)%Z /\
  (key_of CONFIG p0 j = key_of CONFIG p j ->
   j ∈ candidates (buildGrid CONFIG p0)
         (block_keys (nfloor (ndiv xi G)) (nfloor (ndiv yi G)))) /\
  j ∈ candidates (buildGrid CONFIG p)
        (block_keys (nfloor (ndiv xi G)) (nfloor (ndiv yi G))).
Proof.
  intros Hr Hj G xi yi xj yj Hd.
  assert (HG : 0 < G) by (subst G; rewrite GRID_SIZE_exact; lra).
  destruct (coordinate_within G (xj - xi) (yj - yi) HG Hd) as [Hdx Hdy].
  pose proof (floors_of_close G xi xj HG Hdx) as Hfx.
  pose proof (floors_of_close G yi yj HG Hdy) as Hfy.
  split; [exact Hfx|]. split; [exact Hfy|].
  assert (Hin : key_of CONFIG p j
                ∈ block_keys (nfloor (ndiv xi G)) (nfloor (ndiv yi G))).
  { unfold key_of, getGridKey, key. cbn [nfloor ndiv to_str R_Number].
    rewrite !ZfloorZ.
    apply (elem_of_block_keys (Zfloor (xi / G)) (Zfloor (yi / G))
             (Zfloor (xj / G)) (Zfloor (yj / G))); assumption. }
  assert (Hcover : forall q, key_of CONFIG q j = key_of CONFIG p j ->
            j ∈ candidates (buildGrid CONFIG q)
                  (block_keys (nfloor (ndiv xi G)) (nfloor (ndiv yi G)))).
  { intros q Hkey. apply elem_of_candidates. exists (key_of CONFIG p j).
    split; [exact Hin|]. apply elem_of_cell_buildGrid. split; [exact Hj | exact Hkey]. }
  split; [apply Hcover | apply Hcover; reflexivity].
Qed.

End Cover.

(** Two particles of the "V5" layout, 33 apart on a row when the grid is
    built and 31 apart when they are looked for; the cell is 30 wide. *)
Definition pair_config : Config R := with_count 2 V5.CONFIG.

Definition pair_particles : Particles R := {|
  particles_x := [100; 127]%R; particles_y := [100; 110]%R;
  particles_vx := [0; 0]%R; particles_vy := [0; 0]%R;
  particles_prevX := [100; 127]%R; particles_prevY := [100; 110]%R |}.

Definition pair_particles_later : Particles R := {|
  particles_x := [101; 126]%R; particles_y := [100; 110]%R;
  particles_vx := [0; 0]%R; particles_vy := [0; 0]%R;
  particles_prevX := [100; 127]%R; particles_prevY := [100; 110]%R |}.

Lemma block_covers_the_circle_witness :
  (Zfloor (101 / GRID_SIZE pair_config) - 1 <= Zfloor (126 / GRID_SIZE pair_config)
   <= Zfloor (101 / GRID_SIZE pair_config) + 1)%Z /\
  (Zfloor (100 / GRID_SIZE pair_config) - 1 <= Zfloor (110 / GRID_SIZE pair_config)
   <= Zfloor (100 / GRID_SIZE pair_config) + 1)%Z /\
  (key_of pair_config pair_particles 1 = key_of pair_config pair_particles_later 1 ->
   1 ∈ candidates (buildGrid pair_config pair_particles)
         (block_keys (nfloor (ndiv 101%R (GRID_SIZE pair_config)))
                     (nfloor (ndiv 100%R (GRID_SIZE pair_config))))) /\
  1 ∈ candidates (buildGrid pair_config pair_particles_later)
        (block_keys (nfloor (ndiv 101%R (GRID_SIZE pair_config)))
                    (nfloor (ndiv 100%R (GRID_SIZE pair_config)))).
Proof.
  apply (block_covers_the_circle pair_config pair_particles pair_particles_later 0 1).
  - simpl. unfold Q2R. simpl. lra.
  - simpl. lia.
  - cbv zeta. rewrite GRID_SIZE_exact.
    replace (physRadius pair_config) with 15%R by (simpl; unfold Q2R; simpl; lra).
    change (get (particles_x pair_particles_later) 1) with 126%R.
    change (get (particles_x pair_particles_later) 0) with 101%R.
    change (get (particles_y pair_particles_later) 1) with 110%R.
    change (get (particles_y pair_particles_later) 0) with 100%R.
    replace ((126 - 101) * (126 - 101) + (110 - 100) * (110 - 100))%R with 725%R by lra.
    apply Rsqr_incrst_0; [|apply sqrt_pos|lra].
    unfold Rsqr. rewrite sqrt_sqrt by lra. lra.
Defined.

(** ** C3: the margin of the boundary pass *)

Section Margin.
Local Open Scope R_scope.

(** The two [if]s on one coordinate, as a function of its value. *)
Definition clamp_if_if (m bound c : R) : R :=
  let c := if nlt c m then m else c in
  if nlt (bound - m) c then bound - m else c.

Lemma clamp_if_if_min_max m bound c : clamp_if_if m bound c = Rmin (Rmax c m) (bound - m).
Proof.
  unfold clamp_if_if. cbn [nlt R_Number]. unfold Exact.ltb, Rmin, Rmax.
  repeat (destruct (Rlt_dec _ _) || destruct (Rle_dec _ _)); lra.
Qed.

(** Decide the innermost test, then let the stores and reads settle. *)
Ltac decide_tests :=
  repeat match goal with
  | |- context [if ?b then _ else _] =>
      lazymatch b with
      | context [if _ then _ else _] => fail
      | _ => destruct b eqn:?
      end;
      cbn [particles_x particles_y set_x set_y];
      rewrite ?get_set_eq by (rewrite ?length_set; assumption);
      cbn [fround nsub nlt R_Number]
  end.

Lemma clampParticle_exact m bw bh i (p : Particles R) :
  (i < length (particles_x p))%nat -> (i < length (particles_y p))%nat ->
  get (particles_x (clampParticle m bw bh i p)) i = clamp_if_if m bw (get (particles_x p) i) /\
  get (particles_y (clampParticle m bw bh i p)) i = clamp_if_if m bh (get (particles_y p) i).
Proof.
  intros Hx Hy. unfold clampParticle, clamp_if_if. cbv zeta.
  cbn [nsub nlt R_Number]. decide_tests; split; reflexivity.
Qed.

Lemma enforceBoundaries_exact CONFIG bw bh (p : Particles R) i :
  wf (particleCount CONFIG) p -> (i < particleCount CONFIG)%nat ->
  get (particles_x (enforceBoundaries CONFIG bw bh p)) i =
    clamp_if_if (radius CONFIG) bw (get (particles_x p) i) /\
  get (particles_y (enforceBoundaries CONFIG bw bh p)) i =
    clamp_if_if (radius CONFIG) bh (get (particles_y p) i).
Proof.
  intros Hwf Hi. unfold enforceBoundaries.
  set (body := clampParticle (radius CONFIG) bw bh).
  assert (Hloc : forall j, local_at j (body j)) by (intros j; apply clampParticle_local).
  pose proof (for_i_after _ body p i Hloc Hi) as Hafter.
  pose proof (for_i_before i body p i Hloc (Nat.le_refl i)) as Hbefore.
  assert (Hwf' : wf (particleCount CONFIG) (for_i i body p)) by (apply for_i_wf; assumption).
  destruct Hwf' as (Hlx & Hly & _).
  unfold at_index in Hafter, Hbefore.
  injection Hafter as Hax Hay _ _ _ _. injection Hbefore as Hbx Hby _ _ _ _.
  rewrite Hax, Hay. unfold body at 1 3.
  destruct (clampParticle_exact (radius CONFIG) bw bh i (for_i i body p)) as [-> ->];
    [lia | lia |].
  rewrite Hbx, Hby. split; reflexivity.
Qed.

End Margin.

Section MarginClaim.
Local Open Scope R_scope.

(** One particle of the "V5" version, 17 from the left edge: inside
    [physRadius = 15], outside [radius = 20]. *)
Definition margin_config : Config R := with_count 1 V5.CONFIG.

Definition margin_particles : Particles R := {|
  particles_x := [17]; particles_y := [100];
  particles_vx := [0]; particles_vy := [0];
  particles_prevX := [17]; particles_prevY := [100] |}.

(** C3 as stated fails: the pass moves the coordinate 17 to 20, where a
    margin of [physRadius] gives [min (max 17 15) (800 - 15) = 17]. *)
Lemma margin_is_not_physRadius :
  get (particles_x (enforceBoundaries margin_config 800 600 margin_particles)) 0 = 20 /\
  claimed_clamp margin_config 800 (get (particles_x margin_particles) 0) = 17 /\
  get (particles_x (enforceBoundaries margin_config 800 600 margin_particles)) 0
    <> claimed_clamp margin_config 800 (get (particles_x margin_particles) 0).
Proof.
  assert (Hr : radius margin_config = 20) by (simpl; unfold Q2R; simpl; lra).
  assert (Hp : physRadius margin_config = 15) by (simpl; unfold Q2R; simpl; lra).
  assert (Hcode : get (particles_x (enforceBoundaries margin_config 800 600 margin_particles)) 0
                  = 20).
  { destruct (enforceBoundaries_exact margin_config 800 600 margin_particles 0) as [-> _].
    - repeat split.
    - simpl. lia.
    - rewrite clamp_if_if_min_max, Hr.
      change (get (particles_x margin_particles) 0) with 17.
      unfold Rmin, Rmax. repeat (destruct (Rle_dec _ _)); lra. }
  assert (Hclaim : claimed_clamp margin_config 800 (get (particles_x margin_particles) 0) = 17).
  { unfold claimed_clamp. rewrite Hp.
    change (get (particles_x margin_particles) 0) with 17.
    unfold Rmin, Rmax. repeat (destruct (Rle_dec _ _)); lra. }
  split; [exact Hcode|]. split; [exact Hclaim|]. rewrite Hcode, Hclaim. lra.
Qed.

(** C3, amended.  The boundary pass that ends a substep sets each
    coordinate to exactly [min (max c radius) (bound - radius)], where [c]
    is the coordinate the relaxation left and [radius] is [CONFIG.radius],
    the radius the particles are drawn with; a coordinate already in
    [[radius, bound - radius]] is left as it is. *)
Theorem boundary_pass_clamps_with_radius (CONFIG : Config R) (bw bh : R) (st : State R) i :
  wf (particleCount CONFIG) (particles st) -> (i < particleCount CONFIG)%nat ->
  let relaxed := relax CONFIG block_keys (buildGrid CONFIG (particles st)) (particles st) in
  let p' := particles (substep CONFIG bw bh st) in
  let m := radius CONFIG in
  get (particles_x p') i = Rmin (Rmax (get (particles_x relaxed) i) m) (bw - m) /\
  get (particles_y p') i = Rmin (Rmax (get (particles_y relaxed) i) m) (bh - m) /\
  (m <= get (particles_x relaxed) i <= bw - m ->
   get (particles_x p') i = get (particles_x relaxed) i) /\
  (m <= get (particles_y relaxed) i <= bh - m ->
   get (particles_y p') i = get (particles_y relaxed) i).
Proof.
  intros Hwf Hi relaxed p' m. subst p'. unfold substep. cbn [particles]. fold relaxed.
  assert (Hwf' : wf (particleCount CONFIG) relaxed).
  { eapply wf_moves_only; [apply relax_moves_only | exact Hwf]. }
  destruct (enforceBoundaries_exact CONFIG bw bh relaxed i Hwf' Hi) as [-> ->].
  rewrite !clamp_if_if_min_max. fold m.
  split; [reflexivity|]. split; [reflexivity|].
  split; intros [Hlo Hhi]; unfold Rmin, Rmax; repeat (destruct (Rle_dec _ _)); lra.
Qed.

End MarginClaim.

Lemma boundary_pass_clamps_with_radius_witness :
  let st := {| particles := margin_particles; grid := ∅ |} in
  let relaxed := relax margin_config block_keys (buildGrid margin_config (particles st))
                   (particles st) in
  let p' := particles (substep margin_config 800%R 600%R st) in
  let m := radius margin_config in
  get (particles_x p') 0 = Rmin (Rmax (get (particles_x relaxed) 0) m) (800 - m)%R /\
  get (particles_y p') 0 = Rmin (Rmax (get (particles_y relaxed) 0) m) (600 - m)%R /\
  ((m <= get (particles_x relaxed) 0 <= 800 - m)%R ->
   get (particles_x p') 0 = get (particles_x relaxed) 0) /\
  ((m <= get (particles_y relaxed) 0 <= 600 - m)%R ->
   get (particles_y p') 0 = get (particles_y relaxed) 0).
Proof.
  apply (boundary_pass_clamps_with_radius margin_config 800%R 600%R
           {| particles := margin_particles; grid := ∅ |} 0).
  - repeat split.
  - simpl. lia.
Defined.

(** ** The neighbour search as a filter *)

Section Neighbours.
Context {num : Type} `{Number num}.
Local Open Scope num_scope.

(** The entry the scan makes for particle [j]. *)
Definition entry (p : Particles num) (px py : num) (j : nat) : Neighbor num :=
  let dx := get (particles_x p) j - px in
  let dy := get (particles_y p) j - py in
  {| id := j; d := nsqrt (dx * dx + dy * dy); n_dx := dx; n_dy := dy |}.

(** The scan's two tests on [j]: not the particle itself, and the distance
    test. *)
Definition is_neighbor (CONFIG : Config num) (p : Particles num) (i : nat) (px py : num)
    (j : nat) : bool :=
  negb (Nat.eqb i j) &&
  (let dx := get (particles_x p) j - px in
   let dy := get (particles_y p) j - py in
   let d2 := dx * dx + dy * dy in
   (d2 <? GRID_SIZE CONFIG * GRID_SIZE CONFIG) && (d2 >? lit (1 # 1000))).

Lemma scan_fold CONFIG (p : Particles num) i px py cands acc :
  fold_left (scan CONFIG p i px py) cands acc =
  acc ++ map (entry p px py) (List.filter (is_neighbor CONFIG p i px py) cands).
Proof.
  revert acc. induction cands as [|j cands IH]; intros acc; simpl.
  - rewrite app_nil_r. reflexivity.
  - rewrite IH. unfold scan, is_neighbor at 2, entry at 2. cbv zeta.
    destruct (Nat.eqb i j); simpl; [reflexivity|].
    destruct (_ && _); simpl; [rewrite <- app_assoc|]; reflexivity.
Qed.

Lemma findNeighbors_filter CONFIG (p : Particles num) g keys i px py :
  findNeighbors CONFIG p g keys i px py =
  map (entry p px py) (List.filter (is_neighbor CONFIG p i px py) (candidates g keys)).
Proof. unfold findNeighbors. rewrite scan_fold. reflexivity. Qed.

(** A push loop writes only the particles it pushes. *)
Lemma push_neighbor_untouched CONFIG P PNear (neighbors : list (Neighbor num)) p dx dy i :
  i ∉ map id neighbors ->
  let q := (fold_left (push_neighbor CONFIG P PNear) neighbors (p, dx, dy)).1.1 in
  get (particles_x q) i = get (particles_x p) i /\
  get (particles_y q) i = get (particles_y p) i.
Proof.
  revert p dx dy. induction neighbors as [|n ns IH]; intros p dx dy Hi; [split; reflexivity|].
  cbn [map] in Hi. apply not_elem_of_cons in Hi as [Hne Hi].
  cbv zeta. cbn [fold_left].
  destruct (push_neighbor CONFIG P PNear (p, dx, dy) n) as [[p1 dx1] dy1] eqn:E.
  destruct (IH p1 dx1 dy1 Hi) as [Hx Hy]. rewrite Hx, Hy.
  unfold push_neighbor in E. cbv zeta in E. injection E as <- _ _.
  cbn [particles_x particles_y set_x set_y].
  rewrite !get_set_ne by exact Hne. split; reflexivity.
Qed.

End Neighbours.

(** ** C6: a neighbour that has left its cell *)

(** Three particles of the "Realistic AR Water Simulation" version on a
    row; the cell is 20 wide, and particle 1 sits on the border between
    the cells 2 and 3. *)
Definition row_config : Config float := with_count 3 ARWater.CONFIG.

Definition row_particles : Particles float := {|
  particles_x := [52; 60; 39.9375]%float; particles_y := [100; 100; 100]%float;
  particles_vx := [0; 0; 0]%float; particles_vy := [0; 0; 0]%float;
  particles_prevX := [52; 60; 39.9375]%float; particles_prevY := [100; 100; 100]%float |}.

(** C6 as stated fails in the solver.  The grid of a substep is built once
    and the relaxation loop then moves particles in place.  After the
    turns of particles 0 and 1, particle 1 has been pulled from 60 to
    59.92..., out of cell 3 into cell 2, but the grid still files it
    under cell 3.  In the turn of particle 2 (in cell 1, at 39.96...)
    particle 1 is 19.96... away, less than the cell size 20: it passes
    the distance test of the code and its cell is next to that of
    particle 2, yet the scan of the 3x3 block does not meet it, and the
    turn finds particle 0 only.  A grid built from the positions of that
    moment would give it. *)
Lemma moved_neighbor_is_missed :
  let CONFIG := row_config in
  let g := buildGrid CONFIG row_particles in
  let p := for_i 2 (relaxParticle CONFIG block_keys g) row_particles in
  let px := get (particles_x p) 2 in
  let py := get (particles_y p) 2 in
  let gx := nfloor (ndiv px (GRID_SIZE CONFIG)) in
  let gy := nfloor (ndiv py (GRID_SIZE CONFIG)) in
  relax CONFIG block_keys g row_particles = relaxParticle CONFIG block_keys g 2 p /\
  nlt (lit (1996 # 100)) (d (entry p px py 1)) = true /\
  nlt (d (entry p px py 1)) (GRID_SIZE CONFIG) = true /\
  is_neighbor CONFIG p 2 px py 1 = true /\
  nfloor (ndiv (get (particles_x p) 1) (GRID_SIZE CONFIG)) = nadd gx (lit 1) /\
  nfloor (ndiv (get (particles_y p) 1) (GRID_SIZE CONFIG)) = gy /\
  candidates g (block_keys gx gy) = [2; 0] /\
  (1 ∉ candidates g (block_keys gx gy)) /\
  map id (findNeighbors CONFIG p g (block_keys gx gy) 2 px py) = [0] /\
  candidates (buildGrid CONFIG p) (block_keys gx gy) = [2; 0; 1].
Proof.
  intros CONFIG g p px py gx gy.
  assert (Hc : candidates g (block_keys gx gy) = [2; 0]) by (vm_compute; reflexivity).
  split.
  { unfold relax. change (particleCount CONFIG) with 3. apply for_i_S. }
  split; [vm_compute; reflexivity|]. split; [vm_compute; reflexivity|].
  split; [vm_compute; reflexivity|]. split; [vm_compute; reflexivity|].
  split; [vm_compute; reflexivity|]. split; [exact Hc|].
  split.
  { intros Hin. pose proof (eq_ind _ (fun l => 1 ∈ l) Hin _ Hc) as Hin'. cbv beta in Hin'.
    apply elem_of_cons in Hin' as [Heq|Hin']; [discriminate|].
    apply elem_of_cons in Hin' as [Heq|Hin']; [discriminate|]. inversion Hin'. }
  split; vm_compute; reflexivity.
Qed.

(** ** C9 (second half): a particle with nobody within the cutoff *)

Section Isolation.
Local Open Scope R_scope.

Lemma dist2_sym p i j : dist2 p i j = dist2 p j i.
Proof. unfold dist2. ring. Qed.

Lemma is_neighbor_exact CONFIG (p : Particles R) i j :
  is_neighbor CONFIG p i (get (particles_x p) i) (get (particles_y p) i) j = true <->
  i <> j /\ dist2 p i j < GRID_SIZE CONFIG * GRID_SIZE CONFIG /\ / 1000 < dist2 p i j.
Proof.
  unfold is_neighbor. cbv zeta. rewrite !andb_true_iff, negb_true_iff, Nat.eqb_neq.
  rewrite lit_eps. cbn [nlt nsub nadd nmul R_Number]. rewrite !Exact.ltb_spec.
  unfold dist2. tauto.
Qed.

(** No other indexed particle is within the cutoff of [i]. *)
Definition alone (CONFIG : Config R) (p : Particles R) (i : nat) : Prop :=
  forall j, (j < particleCount CONFIG)%nat -> j <> i ->
    GRID_SIZE CONFIG * GRID_SIZE CONFIG <= dist2 p i j.

Lemma set_get_same (a : list R) i : (i < length a)%nat -> set a i (get a i) = a.
Proof.
  intros Hi. unfold set, get. cbn [fround R_Number].
  destruct (lookup_lt_is_Some_2 a i Hi) as [v Hv]. rewrite Hv. simpl.
  apply list_insert_id. exact Hv.
Qed.

Lemma relax_with_nil CONFIG i (p : Particles R) :
  (i < length (particles_x p))%nat -> (i < length (particles_y p))%nat ->
  relax_with CONFIG [] i p = p.
Proof.
  intros Hx Hy. unfold relax_with. cbn [densities fold_left].
  unfold set_y, set_x. cbn [particles_x particles_y particles_vx particles_vy
                             particles_prevX particles_prevY].
  rewrite lit_0. cbn [nadd R_Number]. rewrite !Rplus_0_r, !set_get_same by assumption.
  destruct p; reflexivity.
Qed.

Lemma filter_nobody {A} (f : A -> bool) (l : list A) :
  (forall a, a ∈ l -> f a = false) -> List.filter f l = [].
Proof.
  induction l as [|a l IH]; intros Hf; [reflexivity|].
  simpl. rewrite (Hf a) by (left). apply IH. intros b Hb. apply Hf. right. exact Hb.
Qed.

Lemma candidates_indexed CONFIG (p0 : Particles R) keys j :
  j ∈ candidates (buildGrid CONFIG p0) keys -> (j < particleCount CONFIG)%nat.
Proof.
  intros Hj. apply elem_of_candidates in Hj as (k & _ & Hj).
  apply elem_of_cell_buildGrid in Hj as [Hj _]. exact Hj.
Qed.

(** Alone, a particle finds no neighbour, whatever grid was built. *)
Lemma alone_finds_nobody CONFIG (p p0 : Particles R) keys i :
  alone CONFIG p i ->
  findNeighbors CONFIG p (buildGrid CONFIG p0) keys i
    (get (particles_x p) i) (get (particles_y p) i) = [].
Proof.
  intros Halone. rewrite findNeighbors_filter, filter_nobody; [reflexivity|].
  intros j Hj. apply candidates_indexed in Hj.
  apply not_true_is_false. rewrite is_neighbor_exact. intros (Hne & Hlt & _).
  specialize (Halone j Hj (not_eq_sym Hne)). lra.
Qed.

(** Nobody finds a particle that is alone. *)
Lemma alone_is_found_by_nobody CONFIG (p p0 : Particles R) keys i k :
  alone CONFIG p i -> (k < particleCount CONFIG)%nat -> k <> i ->
  i ∉ map id (findNeighbors CONFIG p (buildGrid CONFIG p0) keys k
                (get (particles_x p) k) (get (particles_y p) k)).
Proof.
  intros Halone Hk Hki Hin. rewrite findNeighbors_filter in Hin.
  rewrite <- list_fmap_compose in Hin. apply list_elem_of_fmap in Hin as (j & Hij & Hj).
  cbn in Hij. subst j. apply list_elem_of_In, filter_In in Hj as [_ Hn].
  apply is_neighbor_exact in Hn as (_ & Hlt & _).
  rewrite dist2_sym in Hlt. specialize (Halone k Hk Hki). lra.
Qed.

End Isolation.

(** ** C9: the frame step is a function of what it is given *)

Section Reproducible.
Local Open Scope R_scope.

Lemma alone_untouched (CONFIG : Config R) (p p0 : Particles R) keys i k :
  wf (particleCount CONFIG) p ->
  (i < particleCount CONFIG)%nat -> (k < particleCount CONFIG)%nat ->
  alone CONFIG p i ->
  let q := relaxParticle CONFIG keys (buildGrid CONFIG p0) k p in
  get (particles_x q) i = get (particles_x p) i /\
  get (particles_y q) i = get (particles_y p) i.
Proof.
  intros (Hlx & Hly & _) Hi Hk Halone. cbv zeta. unfold relaxParticle. cbv zeta.
  destruct (decide (k = i)) as [->|Hki].
  - rewrite alone_finds_nobody by exact Halone.
    rewrite relax_with_nil by lia. split; reflexivity.
  - pose proof (alone_is_found_by_nobody CONFIG p p0
                  (keys (nfloor (ndiv (get (particles_x p) k) (GRID_SIZE CONFIG)))
                        (nfloor (ndiv (get (particles_y p) k) (GRID_SIZE CONFIG))))
                  i k Halone Hk Hki) as Hnot.
    set (ns := findNeighbors _ _ _ _ _ _ _) in *.
    unfold relax_with. destruct (densities CONFIG ns) as [rho rhoNear].
    pose proof (push_neighbor_untouched CONFIG (pressure CONFIG rho)
                  (nearPressure CONFIG rhoNear) ns p (lit 0) (lit 0) i Hnot) as Hq.
    cbv zeta in Hq.
    destruct (fold_left _ ns _) as [[q dx] dy]. cbn [fst] in Hq. destruct Hq as [Hqx Hqy].
    cbn [particles_x particles_y set_x set_y].
    rewrite !get_set_ne by congruence. split; assumption.
Qed.

Lemma single_particle_relax (CONFIG : Config R) keys (p p0 : Particles R) :
  particleCount CONFIG = 1%nat -> wf 1 p ->
  relax CONFIG keys (buildGrid CONFIG p0) p = p.
Proof.
  intros Hn (Hlx & Hly & _). unfold relax. rewrite Hn, for_i_S, for_i_0.
  unfold relaxParticle. cbv zeta. rewrite alone_finds_nobody.
  - apply relax_with_nil; lia.
  - intros j Hj Hne. lia.
Qed.

(** C9.  First, in every arithmetic and every version, the arrays a frame
    leaves are determined by the arrays it starts from, [CONFIG] and the
    environment (gravity, pointer, bounds): the step takes no random
    number and does not read what [grid] held.  Second, in exact
    arithmetic, a particle with no other indexed particle within the
    cutoff is not displaced by any turn of the relaxation loop, its own
    included; and when it is the only particle a substep is the boundary
    pass alone, so what moves it is PREDICT (gravity, pointer) and what
    RECONCILE makes of that (damping). *)
Theorem frame_is_reproducible :
  (forall (num : Type) (N : Number num) update (CONFIG : Config num) env st1 st2,
     In update versions ->
     particles st1 = particles st2 ->
     particles (update CONFIG env st1) = particles (update CONFIG env st2)) /\
  (forall (CONFIG : Config R) (p p0 : Particles R) keys i k,
     wf (particleCount CONFIG) p ->
     (i < particleCount CONFIG)%nat -> (k < particleCount CONFIG)%nat ->
     alone CONFIG p i ->
     let q := relaxParticle CONFIG keys (buildGrid CONFIG p0) k p in
     get (particles_x q) i = get (particles_x p) i /\
     get (particles_y q) i = get (particles_y p) i) /\
  (forall (CONFIG : Config R) bw bh (st : State R),
     particleCount CONFIG = 1%nat -> wf 1 (particles st) ->
     particles (substep CONFIG bw bh st) = enforceBoundaries CONFIG bw bh (particles st)).
Proof.
  split; [|split].
  - intros num N update CONFIG env st1 st2 Hin Hp.
    apply frame_reads_particles_only; assumption.
  - intros CONFIG p p0 keys i k Hwf Hi Hk Halone. apply alone_untouched; assumption.
  - intros CONFIG bw bh st Hn Hwf. unfold substep. cbn [particles].
    rewrite single_particle_relax by assumption. reflexivity.
Qed.

End Reproducible.

(** Two runs of one frame from the same arrays, the second with a grid left
    over from elsewhere. *)
Lemma frame_is_reproducible_witness :
  particles (ARWater.updatePhysics demo_config demo_env demo_state) =
  particles (ARWater.updatePhysics demo_config demo_env
               {| particles := particles demo_state;
                  grid := buildGrid demo_config (particles demo_state) |}).
Proof.
  apply (proj1 frame_is_reproducible float float_Number ARWater.updatePhysics
           demo_config demo_env demo_state).
  - left. reflexivity.
  - reflexivity.
Defined.

(** ** C4: one turn of the relaxation against its reference definition *)

Section Refinement.
Local Open Scope R_scope.
Variable CONFIG : Config R.
Variable p : Particles R.
Variable i : nat.

Let xi : R := get (particles_x p) i.
Let yi : R := get (particles_y p) i.

Lemma cellSize_GRID_SIZE : Reference.cellSize CONFIG = GRID_SIZE CONFIG.
Proof. unfold Reference.cellSize. rewrite GRID_SIZE_exact. ring. Qed.

(** The scan's filter, with its test [i === j], keeps the candidates the
    reference calls true neighbours: [i] itself is at distance 0. *)
Lemma is_neighbor_reference j :
  is_neighbor CONFIG p i xi yi j = Reference.is_true_neighbor CONFIG p i j.
Proof.
  unfold is_neighbor, Reference.is_true_neighbor, Reference.d2, Reference.epsilon.
  cbv zeta. rewrite cellSize_GRID_SIZE, lit_eps.
  cbn [nlt nsub nadd nmul R_Number]. fold (dist2 p i j).
  replace (GRID_SIZE CONFIG ^ 2) with (GRID_SIZE CONFIG * GRID_SIZE CONFIG) by ring.
  replace (1 / 1000) with (/ 1000) by lra.
  destruct (Nat.eqb_spec i j) as [<-|Hne]; [|reflexivity].
  replace (dist2 p i i) with 0 by (unfold dist2; ring).
  rewrite (proj2 (Exact.ltb_false (/ 1000) 0)) by lra.
  rewrite andb_false_r. reflexivity.
Qed.

Lemma neighbors_reference cands :
  List.filter (is_neighbor CONFIG p i xi yi) cands = Reference.true_neighbors CONFIG p i cands.
Proof. apply List.filter_ext. intros j. apply is_neighbor_reference. Qed.

Lemma closeness_reference j :
  closeness CONFIG (entry p xi yi j) = Reference.q CONFIG p i j.
Proof.
  unfold closeness, entry, Reference.q, Reference.dist, Reference.d2, dist2.
  cbv zeta. cbn [d]. rewrite cellSize_GRID_SIZE, lit_1.
  cbn [nsub nadd nmul ndiv nsqrt R_Number]. reflexivity.
Qed.

Lemma sum_cons (a : R) (l : list R) : Reference.sum (a :: l) = a + Reference.sum l.
Proof. reflexivity. Qed.

Lemma densities_fold (N : list nat) (a b : R) :
  fold_left
    (fun '(rho, rhoNear) n =>
       let q := closeness CONFIG n in (nadd rho (nmul q q), nadd rhoNear (nmul (nmul q q) q)))
    (map (entry p xi yi) N) (a, b)
  = (a + Reference.rho CONFIG p i N, b + Reference.rho_near CONFIG p i N).
Proof.
  revert a b. induction N as [|j N IH]; intros a b.
  - unfold Reference.rho, Reference.rho_near. simpl. rewrite !Rplus_0_r. reflexivity.
  - cbn [map fold_left]. cbv zeta. rewrite closeness_reference, IH.
    unfold Reference.rho, Reference.rho_near. cbn [map]. rewrite !sum_cons.
    cbn [nadd nmul R_Number]. f_equal; ring.
Qed.

Lemma densities_reference (N : list nat) :
  densities CONFIG (map (entry p xi yi) N)
  = (Reference.rho CONFIG p i N, Reference.rho_near CONFIG p i N).
Proof.
  unfold densities. rewrite densities_fold, lit_0, !Rplus_0_l. reflexivity.
Qed.

(** *** The push loop, all at once *)

Lemma get_lookup (a : list R) k c : a !! k = Some c -> get a k = c.
Proof. intros Hk. unfold get. rewrite Hk. reflexivity. Qed.

Lemma shift_step (N : list nat) j (delta : nat -> R) (a : list R) :
  j ∉ N ->
  imap (fun k c => if bool_decide (k ∈ N) then c + delta k else c)
       (set a j (nadd (get a j) (delta j)))
  = imap (fun k c => if bool_decide (k ∈ j :: N) then c + delta k else c) a.
Proof.
  intros Hj. apply list_eq. intros k. rewrite !list_lookup_imap.
  unfold set. cbn [fround nadd R_Number].
  destruct (decide (k = j)) as [->|Hne].
  - destruct (a !! j) as [c|] eqn:Hc.
    + rewrite list_lookup_insert_eq by (eapply lookup_lt_Some; eauto).
      rewrite (get_lookup a j c Hc). cbn [fmap option_fmap option_map].
      rewrite bool_decide_eq_false_2 by exact Hj.
      rewrite bool_decide_eq_true_2 by (left). reflexivity.
    + rewrite list_insert_ge by (apply lookup_ge_None; exact Hc). rewrite Hc. reflexivity.
  - rewrite list_lookup_insert_ne by congruence.
    destruct (a !! k) as [c|]; [|reflexivity]. cbn [fmap option_fmap option_map].
    destruct (decide (k ∈ N)) as [Hin|Hnin].
    + rewrite !bool_decide_eq_true_2; [reflexivity | right; exact Hin | exact Hin].
    + rewrite !bool_decide_eq_false_2; [reflexivity | | exact Hnin].
      intros [?|?]%elem_of_cons; [congruence | contradiction].
Qed.

Lemma shift_nil (delta : nat -> R) (a : list R) :
  imap (fun k c => if bool_decide (k ∈ @nil nat) then c + delta k else c) a = a.
Proof.
  apply list_eq. intros k. rewrite list_lookup_imap.
  destruct (a !! k) as [c|]; [|reflexivity]. cbn [fmap option_fmap option_map].
  rewrite bool_decide_eq_false_2 by apply not_elem_of_nil. reflexivity.
Qed.

Variable P PNear : R.

(** What the loop adds to neighbour [j]. *)
Let ux (j : nat) : R :=
  nmul (ndiv (n_dx (entry p xi yi j)) (d (entry p xi yi j)))
       (displacement P PNear (closeness CONFIG (entry p xi yi j))).
Let uy (j : nat) : R :=
  nmul (ndiv (n_dy (entry p xi yi j)) (d (entry p xi yi j)))
       (displacement P PNear (closeness CONFIG (entry p xi yi j))).

Lemma push_fold (N : list nat) :
  NoDup N ->
  forall (q : Particles R) (dx dy : R),
    fold_left (push_neighbor CONFIG P PNear) (map (entry p xi yi) N) (q, dx, dy)
    = ({| particles_x :=
            imap (fun k c => if bool_decide (k ∈ N) then c + ux k else c) (particles_x q);
          particles_y :=
            imap (fun k c => if bool_decide (k ∈ N) then c + uy k else c) (particles_y q);
          particles_vx := particles_vx q; particles_vy := particles_vy q;
          particles_prevX := particles_prevX q; particles_prevY := particles_prevY q |},
       dx - Reference.sum (map ux N), dy - Reference.sum (map uy N)).
Proof.
  induction 1 as [|j N Hj Hnd IH]; intros q dx dy.
  - cbn [map fold_left Reference.sum fold_right]. rewrite !Rminus_0_r, !shift_nil.
    destruct q. reflexivity.
  - cbn [map fold_left]. unfold push_neighbor at 2. cbv zeta.
    cbn [id]. fold (ux j). fold (uy j). rewrite IH.
    cbn [particles_x particles_y particles_vx particles_vy particles_prevX particles_prevY
         set_x set_y].
    rewrite !shift_step by exact Hj. rewrite !sum_cons.
    cbn [nsub R_Number]. f_equal; [f_equal|]; ring.
Qed.

End Refinement.

Section Turn.
Local Open Scope R_scope.

Lemma own_share i (N : list nat) (delta : nat -> R) (a : list R) :
  i ∉ N ->
  let shifted := imap (fun k c => if bool_decide (k ∈ N) then c + delta k else c) a in
  set shifted i (nadd (get shifted i) (lit 0 - Reference.sum (map delta N)))
  = Reference.moved i N delta a.
Proof.
  intros Hi. cbv zeta. unfold Reference.moved, set. cbn [fround nadd R_Number].
  rewrite lit_0. apply list_eq. intros k. rewrite list_lookup_imap.
  destruct (decide (k = i)) as [->|Hne].
  - destruct (a !! i) as [c|] eqn:Hc.
    + rewrite list_lookup_insert_eq
        by (rewrite length_imap; eapply lookup_lt_Some; eauto).
      rewrite (get_lookup _ i c)
        by (rewrite list_lookup_imap, Hc; cbn [fmap option_fmap option_map];
            rewrite bool_decide_eq_false_2 by exact Hi; reflexivity).
      cbn [fmap option_fmap option_map].
      rewrite bool_decide_eq_false_2 by exact Hi.
      rewrite bool_decide_eq_true_2 by reflexivity. f_equal. ring.
    + rewrite list_insert_ge
        by (rewrite length_imap; apply lookup_ge_None; exact Hc).
      rewrite list_lookup_imap, Hc. reflexivity.
  - rewrite list_lookup_insert_ne by congruence. rewrite list_lookup_imap.
    destruct (a !! k) as [c|]; [|reflexivity]. cbn [fmap option_fmap option_map].
    destruct (bool_decide (k ∈ N)); [reflexivity|].
    rewrite bool_decide_eq_false_2 by exact Hne. reflexivity.
Qed.

Lemma moved_ext i (N : list nat) (delta delta' : nat -> R) (a : list R) :
  (forall j, delta j = delta' j) ->
  Reference.moved i N delta a = Reference.moved i N delta' a.
Proof.
  intros Hd. unfold Reference.moved. apply imap_ext. intros k c _. cbv beta.
  rewrite (map_ext delta delta' Hd N), Hd. reflexivity.
Qed.

Lemma not_own_neighbor CONFIG (p : Particles R) i cands :
  i ∉ Reference.true_neighbors CONFIG p i cands.
Proof.
  unfold Reference.true_neighbors.
  intros Hin%list_elem_of_In%filter_In. destruct Hin as [_ Hn].
  unfold Reference.is_true_neighbor, Reference.d2, Reference.epsilon in Hn.
  replace (dist2 p i i) with 0 in Hn by (unfold dist2; ring).
  apply andb_true_iff in Hn as [_ Hn]. apply Exact.ltb_spec in Hn. lra.
Qed.

(** The displacement the code gives neighbour [j] is the reference's
    [Delta]: the factors in another order. *)
Lemma ux_reference CONFIG (p : Particles R) i N j :
  let e := entry p (get (particles_x p) i) (get (particles_y p) i) j in
  nmul (ndiv (n_dx e) (d e))
       (displacement (Reference.P CONFIG p i N) (Reference.P_near CONFIG p i N)
          (closeness CONFIG e))
  = Reference.delta_x CONFIG p i N j /\
  nmul (ndiv (n_dy e) (d e))
       (displacement (Reference.P CONFIG p i N) (Reference.P_near CONFIG p i N)
          (closeness CONFIG e))
  = Reference.delta_y CONFIG p i N j.
Proof.
  cbv zeta. rewrite closeness_reference.
  unfold Reference.delta_x, Reference.delta_y, Reference.D, displacement, entry.
  cbv zeta. cbn [n_dx n_dy d]. rewrite lit_half.
  unfold Reference.dist, Reference.d2, dist2.
  cbn [nsub nadd nmul ndiv nsqrt R_Number].
  replace 0.5 with (/ 2) by lra.
  split; unfold Rdiv; ring.
Qed.

(** One turn in exact arithmetic is the reference of the documentation. *)
Lemma turn_reference (CONFIG : Config R) (p p0 : Particles R) (i : nat) :
  let g := buildGrid CONFIG p0 in
  let gx := nfloor (ndiv (get (particles_x p) i) (GRID_SIZE CONFIG)) in
  let gy := nfloor (ndiv (get (particles_y p) i) (GRID_SIZE CONFIG)) in
  relaxParticle CONFIG block_keys g i p
    = Reference.relaxParticle CONFIG p i (candidates g (block_keys gx gy)).
Proof.
  intros g gx gy.
  unfold relaxParticle. cbv zeta. fold gx gy.
  rewrite findNeighbors_filter, neighbors_reference.
  set (cands := candidates g (block_keys gx gy)).
  set (N := Reference.true_neighbors CONFIG p i cands).
  assert (HN : NoDup N).
  { subst N. unfold Reference.true_neighbors. apply NoDup_ListNoDup.
    apply List.NoDup_filter, NoDup_ListNoDup. subst cands g gx gy.
    cbn [nfloor R_Number]. apply NoDup_candidates, NoDup_block_keys. }
  unfold relax_with. rewrite densities_reference. fold N.
  change (pressure CONFIG (Reference.rho CONFIG p i N)) with (Reference.P CONFIG p i N).
  change (nearPressure CONFIG (Reference.rho_near CONFIG p i N))
    with (Reference.P_near CONFIG p i N).
  rewrite push_fold by exact HN. unfold set_y, set_x.
  cbn [particles_x particles_y particles_vx particles_vy particles_prevX particles_prevY].
  unfold Reference.relaxParticle. fold cands N.
  pose proof (not_own_neighbor CONFIG p i cands) as Hown. fold N in Hown.
  rewrite !own_share by exact Hown.
  f_equal; apply moved_ext; intros j; apply ux_reference.
Qed.

(** Where the reference leaves a true neighbour. *)
Lemma moved_neighbor i (N : list nat) (delta : nat -> R) (a : list R) j :
  j ∈ N -> (j < length a)%nat -> get (Reference.moved i N delta a) j = get a j + delta j.
Proof.
  intros Hj Hlen. destruct (lookup_lt_is_Some_2 a j Hlen) as [c Hc].
  unfold Reference.moved, get. rewrite list_lookup_imap, Hc.
  cbn [fmap option_fmap option_map default]. rewrite bool_decide_eq_true_2 by exact Hj.
  reflexivity.
Qed.

(** A true neighbour is nearer than the cell size, and not at distance 0. *)
Lemma true_neighbor_closeness (CONFIG : Config R) (p : Particles R) i j cands :
  0 < physRadius CONFIG ->
  j ∈ Reference.true_neighbors CONFIG p i cands ->
  j ∈ cands /\ 0 < Reference.dist p i j < Reference.cellSize CONFIG /\
  0 < Reference.q CONFIG p i j < 1.
Proof.
  intros Hr Hj. unfold Reference.true_neighbors in Hj.
  apply list_elem_of_In, filter_In in Hj as [Hc Hn]. apply list_elem_of_In in Hc.
  unfold Reference.is_true_neighbor in Hn.
  apply andb_true_iff in Hn as [Hlt Hgt].
  apply Exact.ltb_spec in Hlt. apply Exact.ltb_spec in Hgt.
  unfold Reference.epsilon in Hgt.
  assert (Hcs : 0 < Reference.cellSize CONFIG) by (unfold Reference.cellSize; lra).
  assert (Hd : 0 < Reference.dist p i j < Reference.cellSize CONFIG).
  { unfold Reference.dist. split; [apply sqrt_lt_R0; lra|].
    rewrite <- (sqrt_square (Reference.cellSize CONFIG)) by lra.
    apply sqrt_lt_1_alt. split; [lra|].
    replace (Reference.cellSize CONFIG * Reference.cellSize CONFIG)
      with (Reference.cellSize CONFIG ^ 2) by ring. exact Hlt. }
  split; [exact Hc|]. split; [exact Hd|].
  unfold Reference.q.
  assert (Hq : 0 < Reference.dist p i j / Reference.cellSize CONFIG < 1).
  { split; [apply Rdiv_lt_0_compat; lra|].
    apply (Rmult_lt_reg_r (Reference.cellSize CONFIG)); [exact Hcs|].
    unfold Rdiv. rewrite Rmult_assoc, Rinv_l by lra. lra. }
  lra.
Qed.

(** The density of a particle is at most the number of its neighbours. *)
Lemma rho_le_length (CONFIG : Config R) (p : Particles R) i (N : list nat) :
  Forall (fun j => 0 < Reference.q CONFIG p i j < 1) N ->
  Reference.rho CONFIG p i N <= INR (length N).
Proof.
  unfold Reference.rho. induction 1 as [|j N Hj _ IH].
  - simpl. lra.
  - cbn [map Reference.sum fold_right length]. rewrite S_INR.
    change (fold_right Rplus 0 (map (fun j => Reference.q CONFIG p i j ^ 2) N))
      with (Reference.sum (map (fun j => Reference.q CONFIG p i j ^ 2) N)).
    assert (Reference.q CONFIG p i j ^ 2 <= 1) by nra. lra.
Qed.

(** So it is at most the number of particles. *)
Lemma rho_le_count (CONFIG : Config R) (p p0 : Particles R) i gx gy :
  0 < physRadius CONFIG ->
  Reference.rho CONFIG p i
    (Reference.true_neighbors CONFIG p i
       (candidates (buildGrid CONFIG p0) (block_keys (IZR gx) (IZR gy))))
  <= INR (particleCount CONFIG).
Proof.
  intros Hr. set (cands := candidates _ _). set (N := Reference.true_neighbors _ _ _ _).
  assert (HN : Forall (fun j => 0 < Reference.q CONFIG p i j < 1) N).
  { apply Forall_forall. intros j Hj.
    apply (true_neighbor_closeness CONFIG p i j cands Hr Hj). }
  pose proof (rho_le_length CONFIG p i N HN) as Hrho.
  assert (Hlen : (length N <= particleCount CONFIG)%nat).
  { transitivity (length cands).
    - subst N. unfold Reference.true_neighbors. apply List.filter_length_le.
    - replace (particleCount CONFIG) with (length (seq 0%nat (particleCount CONFIG)))
        by apply length_seq.
      apply submseteq_length.
      apply NoDup_submseteq.
      + subst cands. apply NoDup_candidates, NoDup_block_keys.
      + intros j Hj. apply candidates_indexed in Hj. apply elem_of_seq. lia. }
  apply le_INR in Hlen. lra.
Qed.

End Turn.

(** *** The turn in the arithmetic of the code *)

Section TurnEvaluated.
Context {num : Type} `{Number num}.
Local Open Scope num_scope.
Variable CONFIG : Config num.
Variable p : Particles num.
Variable i : nat.

Let xi : num := get (particles_x p) i.
Let yi : num := get (particles_y p) i.

Lemma neighbors_evaluated cands :
  List.filter (is_neighbor CONFIG p i xi yi) cands = Evaluated.true_neighbors CONFIG p i cands.
Proof. reflexivity. Qed.

Lemma densities_evaluated_fold (N : list nat) (a b : num) :
  fold_left
    (fun '(rho, rhoNear) n =>
       let q := closeness CONFIG n in (rho + q * q, rhoNear + q * q * q))
    (map (entry p xi yi) N) (a, b)
  = (fold_left nadd (map (fun j => Evaluated.q CONFIG p i j * Evaluated.q CONFIG p i j) N) a,
     fold_left nadd
       (map (fun j => Evaluated.q CONFIG p i j * Evaluated.q CONFIG p i j
                      * Evaluated.q CONFIG p i j) N) b).
Proof.
  revert a b. induction N as [|j N IH]; intros a b; [reflexivity|].
  cbn [map fold_left]. rewrite IH. reflexivity.
Qed.

Lemma densities_evaluated (N : list nat) :
  densities CONFIG (map (entry p xi yi) N)
  = (Evaluated.rho CONFIG p i N, Evaluated.rho_near CONFIG p i N).
Proof. unfold densities. rewrite densities_evaluated_fold. reflexivity. Qed.

Lemma get_lookup_num (a : list num) k c : a !! k = Some c -> get a k = c.
Proof. intros Hk. unfold get. rewrite Hk. reflexivity. Qed.

Lemma store_step (N : list nat) j (delta : nat -> num) (a : list num) :
  j ∉ N ->
  imap (fun k c => if bool_decide (k ∈ N) then fround (c + delta k) else c)
       (set a j (get a j + delta j))
  = imap (fun k c => if bool_decide (k ∈ j :: N) then fround (c + delta k) else c) a.
Proof.
  intros Hj. apply list_eq. intros k. rewrite !list_lookup_imap. unfold set.
  destruct (decide (k = j)) as [->|Hne].
  - destruct (a !! j) as [c|] eqn:Hc.
    + rewrite list_lookup_insert_eq by (eapply lookup_lt_Some; eauto).
      rewrite (get_lookup_num a j c Hc). cbn [fmap option_fmap option_map].
      rewrite bool_decide_eq_false_2 by exact Hj.
      rewrite bool_decide_eq_true_2 by (left). reflexivity.
    + rewrite list_insert_ge by (apply lookup_ge_None; exact Hc). rewrite Hc. reflexivity.
  - rewrite list_lookup_insert_ne by congruence.
    destruct (a !! k) as [c|]; [|reflexivity]. cbn [fmap option_fmap option_map].
    destruct (decide (k ∈ N)) as [Hin|Hnin].
    + rewrite !bool_decide_eq_true_2; [reflexivity | right; exact Hin | exact Hin].
    + rewrite !bool_decide_eq_false_2; [reflexivity | | exact Hnin].
      intros [?|?]%elem_of_cons; [congruence | contradiction].
Qed.

Lemma store_nil (delta : nat -> num) (a : list num) :
  imap (fun k c => if bool_decide (k ∈ @nil nat) then fround (c + delta k) else c) a = a.
Proof.
  apply list_eq. intros k. rewrite list_lookup_imap.
  destruct (a !! k) as [c|]; [|reflexivity]. cbn [fmap option_fmap option_map].
  rewrite bool_decide_eq_false_2 by apply not_elem_of_nil. reflexivity.
Qed.

Variable P PNear : num.

Let ux (j : nat) : num :=
  n_dx (entry p xi yi j) / d (entry p xi yi j)
  * displacement P PNear (closeness CONFIG (entry p xi yi j)).
Let uy (j : nat) : num :=
  n_dy (entry p xi yi j) / d (entry p xi yi j)
  * displacement P PNear (closeness CONFIG (entry p xi yi j)).

Lemma push_evaluated (N : list nat) :
  NoDup N ->
  forall (r : Particles num) (dx dy : num),
    fold_left (push_neighbor CONFIG P PNear) (map (entry p xi yi) N) (r, dx, dy)
    = ({| particles_x :=
            imap (fun k c => if bool_decide (k ∈ N) then fround (c + ux k) else c)
                 (particles_x r);
          particles_y :=
            imap (fun k c => if bool_decide (k ∈ N) then fround (c + uy k) else c)
                 (particles_y r);
          particles_vx := particles_vx r; particles_vy := particles_vy r;
          particles_prevX := particles_prevX r; particles_prevY := particles_prevY r |},
       fold_left nsub (map ux N) dx, fold_left nsub (map uy N) dy).
Proof.
  induction 1 as [|j N Hj Hnd IH]; intros r dx dy.
  - cbn [map fold_left]. rewrite !store_nil. destruct r. reflexivity.
  - cbn [map fold_left]. unfold push_neighbor at 2. cbv zeta.
    cbn [id]. fold (ux j). fold (uy j). rewrite IH.
    cbn [particles_x particles_y particles_vx particles_vy particles_prevX particles_prevY
         set_x set_y].
    rewrite !store_step by exact Hj. reflexivity.
Qed.

End TurnEvaluated.

Section TurnStored.
Context {num : Type} `{Number num}.
Local Open Scope num_scope.

Lemma own_store i (N : list nat) (delta : nat -> num) (a : list num) :
  i ∉ N ->
  let stored := imap (fun k c => if bool_decide (k ∈ N) then fround (c + delta k) else c) a in
  set stored i (get stored i + fold_left nsub (map delta N) (lit 0))
  = Evaluated.moved i N delta a.
Proof.
  intros Hi. cbv zeta. unfold Evaluated.moved, Evaluated.own, set.
  apply list_eq. intros k. rewrite list_lookup_imap.
  destruct (decide (k = i)) as [->|Hne].
  - destruct (a !! i) as [c|] eqn:Hc.
    + rewrite list_lookup_insert_eq
        by (rewrite length_imap; eapply lookup_lt_Some; eauto).
      rewrite (get_lookup_num _ i c)
        by (rewrite list_lookup_imap, Hc; cbn [fmap option_fmap option_map];
            rewrite bool_decide_eq_false_2 by exact Hi; reflexivity).
      cbn [fmap option_fmap option_map].
      rewrite bool_decide_eq_false_2 by exact Hi.
      rewrite bool_decide_eq_true_2 by reflexivity. reflexivity.
    + rewrite list_insert_ge
        by (rewrite length_imap; apply lookup_ge_None; exact Hc).
      rewrite list_lookup_imap, Hc. reflexivity.
  - rewrite list_lookup_insert_ne by congruence. rewrite list_lookup_imap.
    destruct (a !! k) as [c|]; [|reflexivity]. cbn [fmap option_fmap option_map].
    destruct (bool_decide (k ∈ N)); [reflexivity|].
    rewrite bool_decide_eq_false_2 by exact Hne. reflexivity.
Qed.

Lemma not_own_neighbor_evaluated CONFIG (p : Particles num) i cands :
  i ∉ Evaluated.true_neighbors CONFIG p i cands.
Proof.
  unfold Evaluated.true_neighbors.
  intros Hin%list_elem_of_In%filter_In. destruct Hin as [_ Hn].
  unfold Evaluated.is_true_neighbor in Hn. rewrite Nat.eqb_refl in Hn. discriminate.
Qed.

(** One turn, in any arithmetic, for any enumeration of distinct keys. *)
Lemma turn_evaluated (CONFIG : Config num) keys_of (p p0 : Particles num) (i : nat) :
  let g := buildGrid CONFIG p0 in
  let gx := nfloor (get (particles_x p) i / GRID_SIZE CONFIG) in
  let gy := nfloor (get (particles_y p) i / GRID_SIZE CONFIG) in
  NoDup (keys_of gx gy) ->
  relaxParticle CONFIG keys_of g i p
    = Evaluated.relaxParticle CONFIG p i (candidates g (keys_of gx gy)).
Proof.
  intros g gx gy Hkeys. unfold relaxParticle. cbv zeta. fold gx gy.
  rewrite findNeighbors_filter, neighbors_evaluated.
  set (cands := candidates g (keys_of gx gy)).
  set (N := Evaluated.true_neighbors CONFIG p i cands).
  assert (HN : NoDup N).
  { subst N. unfold Evaluated.true_neighbors. apply NoDup_ListNoDup.
    apply List.NoDup_filter, NoDup_ListNoDup. subst cands g.
    apply NoDup_candidates, Hkeys. }
  unfold relax_with. rewrite densities_evaluated. fold N.
  rewrite push_evaluated by exact HN. unfold set_y, set_x.
  cbn [particles_x particles_y particles_vx particles_vy particles_prevX particles_prevY].
  unfold Evaluated.relaxParticle. fold cands N.
  pose proof (not_own_neighbor_evaluated CONFIG p i cands) as Hown. fold N in Hown.
  rewrite !own_store by exact Hown. reflexivity.
Qed.

Lemma moved_neighbor_evaluated i (N : list nat) (delta : nat -> num) (a : list num) j :
  j ∈ N -> j < length a ->
  get (Evaluated.moved i N delta a) j = fround (get a j + delta j).
Proof.
  intros Hj Hlen. destruct (lookup_lt_is_Some_2 a j Hlen) as [c Hc].
  unfold Evaluated.moved, get. rewrite list_lookup_imap, Hc.
  cbn [fmap option_fmap option_map default]. rewrite bool_decide_eq_true_2 by exact Hj.
  reflexivity.
Qed.

End TurnStored.

(** C4, amended.  One turn of the relaxation loop, for particle [i] and with
    the grid [buildGrid] made (from the current or from earlier
    positions), is the reference double density relaxation applied to the
    candidates of the 3x3 block around the cell of [i], as the arithmetic
    of the code evaluates it.  In every arithmetic, binary64 with binary32
    stores included, and for any enumeration of the block by distinct
    keys: true neighbours are the candidates other than [i] whose computed
    [d2] passes [d2 < cellSize^2] and [d2 > 0.001]; [rho], [rho_near],
    [P], [P_near] and each [Delta] are computed from the positions the
    turn starts with; every true neighbour ends at the stored value of its
    position plus its [Delta], and [i] at the stored value of its position
    plus the negated [Delta]s.  In exact arithmetic, with the counting
    loops of the scan, that is the reference of the documentation, where
    every true neighbour ends displaced by its [Delta] and [i] by the
    negated sum. *)
Theorem relaxation_turn_is_reference :
  (forall (num : Type) (Nm : Number num) (CONFIG : Config num)
          (keys_of : num -> num -> list (numstr * numstr)) (p p0 : Particles num) (i : nat),
     let g := buildGrid CONFIG p0 in
     let gx := nfloor (ndiv (get (particles_x p) i) (GRID_SIZE CONFIG)) in
     let gy := nfloor (ndiv (get (particles_y p) i) (GRID_SIZE CONFIG)) in
     NoDup (keys_of gx gy) ->
     relaxParticle CONFIG keys_of g i p
       = Evaluated.relaxParticle CONFIG p i (candidates g (keys_of gx gy))) /\
  (forall (CONFIG : Config R) (p p0 : Particles R) (i : nat),
     let g := buildGrid CONFIG p0 in
     let gx := nfloor (ndiv (get (particles_x p) i) (GRID_SIZE CONFIG)) in
     let gy := nfloor (ndiv (get (particles_y p) i) (GRID_SIZE CONFIG)) in
     relaxParticle CONFIG block_keys g i p
       = Reference.relaxParticle CONFIG p i (candidates g (block_keys gx gy)) /\
     Evaluated.relaxParticle CONFIG p i (candidates g (block_keys gx gy))
       = Reference.relaxParticle CONFIG p i (candidates g (block_keys gx gy))).
Proof.
  split.
  - intros num Nm CONFIG keys_of p p0 i. apply turn_evaluated.
  - intros CONFIG p p0 i g gx gy.
    pose proof (turn_reference CONFIG p p0 i) as Href. cbv zeta in Href. fold g gx gy in Href.
    split; [exact Href|]. rewrite <- Href. symmetry.
    apply (turn_evaluated CONFIG block_keys p p0 i).
    cbn [nfloor R_Number]. apply NoDup_block_keys.
Qed.

Lemma relaxation_turn_is_reference_witness :
  let CONFIG := demo_config in
  let p := particles demo_state in
  let g := buildGrid CONFIG p in
  let gx := nfloor (ndiv (get (particles_x p) 0) (GRID_SIZE CONFIG)) in
  let gy := nfloor (ndiv (get (particles_y p) 0) (GRID_SIZE CONFIG)) in
  relaxParticle CONFIG block_keys g 0 p
    = Evaluated.relaxParticle CONFIG p 0 (candidates g (block_keys gx gy)).
Proof.
  apply (proj1 relaxation_turn_is_reference float float_Number demo_config block_keys
           (particles demo_state) (particles demo_state) 0).
  apply (bool_decide_unpack _). vm_compute. reflexivity.
Defined.

(** Two particles of the "Realistic AR Water Simulation" version near the
    origin, a hair more than [sqrt 0.001] apart; every coordinate is a
    binary32 value, given here as a fraction. *)
Definition grazing_config {num : Type} `{Number num} : Config num :=
  with_count 2 ARWater.CONFIG.

Definition grazing_x : list Q := [0; 4244335 # 134217728]%Q.
Definition grazing_y : list Q := [10184607 # 9223372036854775808; 4453783 # 137438953472]%Q.

Definition grazing_particles {num : Type} `{Number num} : Particles num := {|
  particles_x := lit <$> grazing_x; particles_y := lit <$> grazing_y;
  particles_vx := [lit 0; lit 0]; particles_vy := [lit 0; lit 0];
  particles_prevX := lit <$> grazing_x; particles_prevY := lit <$> grazing_y |}.

Section Grazing.
Local Open Scope R_scope.

Lemma grazing_exact :
  let CONFIG := grazing_config (num := R) in
  let p := grazing_particles (num := R) in
  Reference.epsilon < Reference.d2 p 0 1 < Reference.cellSize CONFIG ^ 2 /\
  Reference.true_neighbors CONFIG p 0 [0%nat; 1%nat] = [1%nat] /\
  get (particles_x (Reference.relaxParticle CONFIG p 0 [0%nat; 1%nat])) 1 < get (particles_x p) 1.
Proof.
  intros CONFIG p.
  assert (Hcs : Reference.cellSize CONFIG = 20).
  { unfold Reference.cellSize. simpl. unfold Q2R. simpl. lra. }
  assert (Hx0 : get (particles_x p) 0 = 0).
  { unfold p, grazing_particles, grazing_x. cbn. unfold Q2R. cbn. lra. }
  assert (Hx1 : get (particles_x p) 1 = 4244335 / 134217728).
  { unfold p, grazing_particles, grazing_x. cbn. unfold Q2R. cbn. lra. }
  assert (Hy0 : get (particles_y p) 0 = 10184607 / 9223372036854775808).
  { unfold p, grazing_particles, grazing_y. cbn. unfold Q2R. cbn. lra. }
  assert (Hy1 : get (particles_y p) 1 = 4453783 / 137438953472).
  { unfold p, grazing_particles, grazing_y. cbn. unfold Q2R. cbn. lra. }
  assert (Hd : / 1000 < Reference.d2 p 0 1 < 1).
  { unfold Reference.d2, dist2. rewrite Hx0, Hx1, Hy0, Hy1. lra. }
  assert (Hd0 : Reference.d2 p 0 0 = 0).
  { unfold Reference.d2, dist2. ring. }
  assert (Heps : Reference.epsilon = / 1000) by (unfold Reference.epsilon; lra).
  split; [rewrite Hcs, Heps; lra|].
  assert (HN : Reference.true_neighbors CONFIG p 0 [0%nat; 1%nat] = [1%nat]).
  { unfold Reference.true_neighbors. cbn [List.filter]. unfold Reference.is_true_neighbor.
    rewrite Hd0, Hcs, Heps.
    rewrite (proj2 (Exact.ltb_false (/ 1000) 0)) by lra.
    rewrite andb_false_r.
    rewrite (proj2 (Exact.ltb_spec (Reference.d2 p 0 1) (20 ^ 2))) by lra.
    rewrite (proj2 (Exact.ltb_spec (/ 1000) (Reference.d2 p 0 1))) by lra.
    reflexivity. }
  split; [exact HN|].
  unfold Reference.relaxParticle. cbv zeta. rewrite HN. cbn [particles_x].
  rewrite moved_neighbor by (left || (simpl; lia)).
  unfold Reference.delta_x, Reference.D, Reference.P, Reference.P_near,
    Reference.rho, Reference.rho_near, Reference.sum, Reference.q, Reference.dist.
  cbn [map fold_right]. rewrite Hcs, Hx0, Hx1.
  set (s := R_sqrt.sqrt (Reference.d2 p 0 1)).
  assert (Hs : 0 < s) by (apply sqrt_lt_R0; lra).
  assert (Hss : s * s = Reference.d2 p 0 1) by (apply sqrt_sqrt; lra).
  assert (Hs1 : s < 1) by nra.
  replace (stiffness CONFIG) with (4 / 100) by (simpl; unfold Q2R; simpl; lra).
  replace (stiffnessNear CONFIG) with (1 / 10) by (simpl; unfold Q2R; simpl; lra).
  replace (restDensity CONFIG) with 4 by (simpl; unfold Q2R; simpl; lra).
  set (q := 1 - s / 20).
  assert (Hq : 0 < q < 1) by (subst q; lra).
  assert (Hq2 : 0 < q * q < 1) by nra.
  assert (Hq4 : 0 < (q * q) * (q * q) < 1) by nra.
  replace 0.5 with (/ 2) by lra.
  assert (HD : / 2 * (4 / 100 * (q ^ 2 + 0 - 4) * q + 1 / 10 * (q ^ 3 + 0) * q ^ 2) < 0).
  { replace (/ 2 * (4 / 100 * (q ^ 2 + 0 - 4) * q + 1 / 10 * (q ^ 3 + 0) * q ^ 2))
      with (/ 2 * q * (4 / 100 * (q * q) - 16 / 100 + 1 / 10 * ((q * q) * (q * q))))
      by (unfold Rdiv; ring).
    assert (Hb : 4 / 100 * (q * q) - 16 / 100 + 1 / 10 * (q * q * (q * q)) < 0) by lra.
    nra. }
  assert (Hu : 0 < (4244335 / 134217728 - 0) / s).
  { apply Rdiv_lt_0_compat; lra. }
  nra.
Qed.

End Grazing.

(** C4 as stated fails in binary64.  At these positions the squared
    distance of the two particles is above [0.001] by less than [1e-24]
    and far below [cellSize^2 = 400]: particle 1 is a true neighbour of
    particle 0 and the reference displaces it.  In binary64 the sum
    [dx*dx + dy*dy] rounds to the double that the literal [0.001] denotes,
    the test [d2 > 0.001] fails, the turn of particle 0 finds no neighbour
    among its candidates 0 and 1, and it leaves every array as it was. *)
Lemma rounded_test_drops_a_neighbor :
  (let CONFIG := grazing_config (num := float) in
   let p := grazing_particles (num := float) in
   let g := buildGrid CONFIG p in
   let px := get (particles_x p) 0 in
   let py := get (particles_y p) 0 in
   let gx := nfloor (ndiv px (GRID_SIZE CONFIG)) in
   let gy := nfloor (ndiv py (GRID_SIZE CONFIG)) in
   Forall (fun c => fround c = c) (particles_x p ++ particles_y p) /\
   Float64.to_Q <$> particles_x p = Some <$> grazing_x /\
   Float64.to_Q <$> particles_y p = Some <$> grazing_y /\
   candidates g (block_keys gx gy) = [0; 1] /\
   Evaluated.d2 p 0 1 = Evaluated.epsilon /\
   Evaluated.true_neighbors CONFIG p 0 [0; 1] = [] /\
   findNeighbors CONFIG p g (block_keys gx gy) 0 px py = [] /\
   relaxParticle CONFIG block_keys g 0 p = p) /\
  (let CONFIG := grazing_config (num := R) in
   let p := grazing_particles (num := R) in
   (Reference.epsilon < Reference.d2 p 0 1 < Reference.cellSize CONFIG ^ 2)%R /\
   Reference.true_neighbors CONFIG p 0 [0; 1] = [1] /\
   (get (particles_x (Reference.relaxParticle CONFIG p 0 [0%nat; 1%nat])) 1
    < get (particles_x p) 1)%R).
Proof.
  split; [|exact grazing_exact].
  intros CONFIG p g px py gx gy.
  split; [repeat constructor; vm_compute; reflexivity|].
  repeat split; vm_compute; reflexivity.
Qed.

(** ** C7: the pressure is not clamped *)

(** C7.  The pressure a turn applies is [stiffness * (rho - restDensity)],
    with [rho] the density accumulated over the true neighbours, and it
    is not clamped.  In every arithmetic, a true neighbour [j] of [i]
    ends the turn of [i] at the stored value of its position plus
    [unit * D], where [D = 0.5 * (P*q + P_near*q*q)] has that [P].  In
    exact arithmetic, when [rho < restDensity] and [stiffness > 0]:
    [P < 0]; [q > 0]; the neighbour is displaced by
    [(0.5*P*q + 0.5*P_near*q^2) * unit], where [unit] points from [i] to
    [j]; and the share [0.5*P*q] of the pressure is strictly negative, so
    what it adds to the position of [j] points from [j] back to [i]: its
    scalar product with [position j - position i] is negative, not
    zero. *)
Theorem pressure_is_negative_below_rest :
  (forall (num : Type) (Nm : Number num) (CONFIG : Config num)
          (keys_of : num -> num -> list (numstr * numstr)) (p p0 : Particles num) (i j : nat),
     let g := buildGrid CONFIG p0 in
     let gx := nfloor (ndiv (get (particles_x p) i) (GRID_SIZE CONFIG)) in
     let gy := nfloor (ndiv (get (particles_y p) i) (GRID_SIZE CONFIG)) in
     let Nb := Evaluated.true_neighbors CONFIG p i (candidates g (keys_of gx gy)) in
     NoDup (keys_of gx gy) ->
     j ∈ Nb -> j < length (particles_x p) -> j < length (particles_y p) ->
     let P := nmul (stiffness CONFIG) (nsub (Evaluated.rho CONFIG p i Nb) (restDensity CONFIG)) in
     let q := Evaluated.q CONFIG p i j in
     let D := nmul (lit (1 # 2))
                (nadd (nmul P q) (nmul (nmul (Evaluated.P_near CONFIG p i Nb) q) q)) in
     let p' := relaxParticle CONFIG keys_of g i p in
     get (particles_x p') j
       = fround (nadd (get (particles_x p) j)
                   (nmul (ndiv (nsub (get (particles_x p) j) (get (particles_x p) i))
                               (Evaluated.dist p i j)) D)) /\
     get (particles_y p') j
       = fround (nadd (get (particles_y p) j)
                   (nmul (ndiv (nsub (get (particles_y p) j) (get (particles_y p) i))
                               (Evaluated.dist p i j)) D))) /\
  (forall (CONFIG : Config R) (p p0 : Particles R) (i j : nat),
     (0 < stiffness CONFIG)%R -> (0 < physRadius CONFIG)%R ->
     let g := buildGrid CONFIG p0 in
     let gx := nfloor (ndiv (get (particles_x p) i) (GRID_SIZE CONFIG)) in
     let gy := nfloor (ndiv (get (particles_y p) i) (GRID_SIZE CONFIG)) in
     let Nb := Reference.true_neighbors CONFIG p i (candidates g (block_keys gx gy)) in
     let rho := Reference.rho CONFIG p i Nb in
     (rho < restDensity CONFIG)%R ->
     j ∈ Nb -> j < length (particles_x p) -> j < length (particles_y p) ->
     let P := (stiffness CONFIG * (rho - restDensity CONFIG))%R in
     let q := Reference.q CONFIG p i j in
     let near := (/ 2 * (Reference.P_near CONFIG p i Nb * q ^ 2))%R in
     let dx := (get (particles_x p) j - get (particles_x p) i)%R in
     let dy := (get (particles_y p) j - get (particles_y p) i)%R in
     let dist := Reference.dist p i j in
     let p' := relaxParticle CONFIG block_keys g i p in
     (P < 0 /\ 0 < q /\ 0 < dist /\
      get (particles_x p') j = get (particles_x p) j + (/ 2 * (P * q) + near) * (dx / dist) /\
      get (particles_y p') j = get (particles_y p) j + (/ 2 * (P * q) + near) * (dy / dist) /\
      / 2 * (P * q) < 0 /\
      / 2 * (P * q) * (dx / dist) * dx + / 2 * (P * q) * (dy / dist) * dy < 0)%R).
Proof.
  split.
  - intros num Nm CONFIG keys_of p p0 i j g gx gy Nb Hkeys Hj Hx Hy P q D p'.
    subst p'. unfold g, gx, gy. rewrite turn_evaluated by exact Hkeys.
    fold g gx gy. unfold Evaluated.relaxParticle. fold Nb. cbn [particles_x particles_y].
    rewrite !moved_neighbor_evaluated by assumption. split; reflexivity.
  - intros CONFIG p p0 i j Hs Hr g gx gy Nb rho Hrho Hj Hx Hy P q near dx dy dist p'.
    destruct (true_neighbor_closeness CONFIG p i j _ Hr Hj) as (_ & [Hd0 Hd1] & [Hq0 Hq1]).
    fold q in Hq0, Hq1. fold dist in Hd0, Hd1.
    assert (HP : (P < 0)%R).
    { unfold P. apply Ropp_lt_cancel. rewrite Ropp_0.
      replace (- (stiffness CONFIG * (rho - restDensity CONFIG)))%R
        with (stiffness CONFIG * (restDensity CONFIG - rho))%R by ring.
      apply Rmult_lt_0_compat; lra. }
    assert (Hterm : (/ 2 * (P * q) < 0)%R).
    { apply Ropp_lt_cancel. rewrite Ropp_0.
      replace (- (/ 2 * (P * q)))%R with (/ 2 * (- P * q))%R by ring.
      apply Rmult_lt_0_compat; [lra|]. apply Rmult_lt_0_compat; lra. }
    split; [exact HP|]. split; [exact Hq0|]. split; [exact Hd0|].
    subst p'. unfold g, gx, gy. rewrite turn_reference. fold g gx gy.
    unfold Reference.relaxParticle. fold Nb. cbn [particles_x particles_y].
    rewrite !moved_neighbor by assumption.
    unfold Reference.delta_x, Reference.delta_y, Reference.D.
    change (Reference.P CONFIG p i Nb) with P. fold q. fold dist. fold dx dy.
    split; [subst near; replace 0.5%R with (/ 2)%R by lra; unfold Rdiv; ring|].
    split; [subst near; replace 0.5%R with (/ 2)%R by lra; unfold Rdiv; ring|].
    split; [exact Hterm|].
    assert (Hdd : (dx * dx + dy * dy = dist * dist)%R).
    { subst dist dx dy. unfold Reference.dist. rewrite sqrt_sqrt; [reflexivity|].
      unfold Reference.d2, dist2. apply Rplus_le_le_0_compat; apply Rle_0_sqr. }
    replace (/ 2 * (P * q) * (dx / dist) * dx + / 2 * (P * q) * (dy / dist) * dy)%R
      with (/ 2 * (P * q) * dist)%R.
    + apply Ropp_lt_cancel. rewrite Ropp_0.
      replace (- (/ 2 * (P * q) * dist))%R with (- (/ 2 * (P * q)) * dist)%R by ring.
      apply Rmult_lt_0_compat; lra.
    + replace (/ 2 * (P * q) * (dx / dist) * dx + / 2 * (P * q) * (dy / dist) * dy)%R
        with (/ 2 * (P * q) * ((dx * dx + dy * dy) / dist))%R by (field; lra).
      rewrite Hdd. field. lra.
Qed.

(** The pair of the "V5" layout: one neighbour each, so a density below
    [restDensity = 3]. *)
Lemma pressure_is_negative_below_rest_witness :
  let CONFIG := pair_config in
  let p := pair_particles in
  let i := 0 in
  let j := 1 in
  let g := buildGrid CONFIG p in
  let gx := nfloor (ndiv (get (particles_x p) i) (GRID_SIZE CONFIG)) in
  let gy := nfloor (ndiv (get (particles_y p) i) (GRID_SIZE CONFIG)) in
  let Nb := Reference.true_neighbors CONFIG p i (candidates g (block_keys gx gy)) in
  let rho := Reference.rho CONFIG p i Nb in
  let P := (stiffness CONFIG * (rho - restDensity CONFIG))%R in
  let q := Reference.q CONFIG p i j in
  let near := (/ 2 * (Reference.P_near CONFIG p i Nb * q ^ 2))%R in
  let dx := (get (particles_x p) j - get (particles_x p) i)%R in
  let dy := (get (particles_y p) j - get (particles_y p) i)%R in
  let dist := Reference.dist p i j in
  let p' := relaxParticle CONFIG block_keys g i p in
  (P < 0 /\ 0 < q /\ 0 < dist /\
   get (particles_x p') j = get (particles_x p) j + (/ 2 * (P * q) + near) * (dx / dist) /\
   get (particles_y p') j = get (particles_y p) j + (/ 2 * (P * q) + near) * (dy / dist) /\
   / 2 * (P * q) < 0 /\
   / 2 * (P * q) * (dx / dist) * dx + / 2 * (P * q) * (dy / dist) * dy < 0)%R.
Proof.
  assert (Hr : (0 < physRadius pair_config)%R) by (simpl; unfold Q2R; simpl; lra).
  apply (proj2 pressure_is_negative_below_rest pair_config pair_particles pair_particles 0 1).
  - simpl. unfold Q2R. simpl. lra.
  - exact Hr.
  - eapply Rle_lt_trans; [apply (rho_le_count pair_config pair_particles pair_particles 0 _ _ Hr)|].
    simpl. unfold Q2R. simpl. lra.
  - unfold Reference.true_neighbors. apply list_elem_of_In, filter_In. split.
    + apply list_elem_of_In.
      apply (neighbor_is_a_candidate pair_config pair_particles 0 1 Hr); [simpl; lia|].
      rewrite GRID_SIZE_exact. unfold dist2, get. simpl. unfold Q2R. simpl. lra.
    + unfold Reference.is_true_neighbor, Reference.d2, Reference.cellSize, Reference.epsilon,
        dist2.
      apply andb_true_iff.
      split; apply Exact.ltb_spec; simpl; unfold get; simpl; unfold Q2R; simpl; lra.
  - simpl. lia.
  - simpl. lia.
Defined.

(** The same in binary64, on the pair of [demo_state]: the density of
    particle 0 is below [restDensity], [P] and [D] are negative, and the
    turn of particle 0 moves the two particles towards each other. *)
Example pressure_pulls_in_binary64 :
  let CONFIG := demo_config in
  let p := particles demo_state in
  let g := buildGrid CONFIG p in
  let p' := relaxParticle CONFIG block_keys g 0 p in
  Evaluated.true_neighbors CONFIG p 0 [0; 1] = [1] /\
  nlt (Evaluated.rho CONFIG p 0 [1]) (restDensity CONFIG) = true /\
  nlt (Evaluated.P CONFIG p 0 [1]) (lit 0) = true /\
  nlt (Evaluated.D CONFIG p 0 [1] 1) (lit 0) = true /\
  nlt (get (particles_x p') 1) (get (particles_x p) 1) = true /\
  nlt (get (particles_x p) 0) (get (particles_x p') 0) = true.
Proof. vm_compute. repeat split. Qed.

(** * Boundaries hold for every coordinate that is a number *)

Module Order.

(** Not NaN. *)
Definition number (x : float) : Prop := is_nan x = false.

Lemma SFcompare_antisym a b c :
  SFcompare a b = Some c -> SFcompare b a = Some (CompOpp c).
Proof.
  destruct a as [sa|sa| |sa ma ea], b as [sb|sb| |sb mb eb]; simpl;
    try discriminate; try (intros [= <-]; destruct sa, sb; reflexivity);
    try (intros [= <-]; destruct sa; reflexivity);
    try (intros [= <-]; destruct sb; reflexivity).
  intros [= <-]. f_equal.
  rewrite (Z.compare_antisym ea eb).
  replace (Pos.compare_cont Eq mb ma) with (CompOpp (Pos.compare_cont Eq ma mb))
    by apply Pos.compare_cont_antisym.
  destruct sa, sb; simpl; try reflexivity;
    destruct (ea ?= eb)%Z; simpl; try reflexivity;
    destruct (Pos.compare_cont Eq ma mb); reflexivity.
Qed.

Lemma SFcompare_refl a : a <> S754_nan -> SFcompare a a = Some Eq.
Proof.
  destruct a as [s|s| |s m e]; simpl; intros Ha; try congruence.
  - destruct s; reflexivity.
  - f_equal. rewrite Z.compare_refl, (Pos.compare_cont_refl m Eq). destruct s; reflexivity.
Qed.

Lemma number_spec x : number x <-> Prim2SF x <> S754_nan.
Proof.
  unfold number, is_nan. rewrite negb_false_iff, FloatAxioms.eqb_spec. unfold SFeqb. split.
  - intros Hx Hn. rewrite Hn in Hx. discriminate.
  - intros Hx. rewrite SFcompare_refl by exact Hx. reflexivity.
Qed.

Lemma SFcompare_numbers a b :
  a <> S754_nan -> b <> S754_nan -> exists c, SFcompare a b = Some c.
Proof.
  destruct a as [sa|sa| |sa ma ea], b as [sb|sb| |sb mb eb]; simpl;
    intros Ha Hb; try congruence; eauto.
Qed.

Lemma leb_refl x : number x -> PrimFloat.leb x x = true.
Proof.
  intros Hx%number_spec. rewrite leb_spec. unfold SFleb.
  rewrite SFcompare_refl by exact Hx. reflexivity.
Qed.

(** [!(x < m)] gives [m <= x] when both are numbers. *)
Lemma not_ltb_leb x m :
  number x -> number m -> PrimFloat.ltb x m = false -> PrimFloat.leb m x = true.
Proof.
  intros Hx%number_spec Hm%number_spec. rewrite ltb_spec, leb_spec. unfold SFltb, SFleb.
  destruct (SFcompare_numbers _ _ Hx Hm) as [c Hc].
  rewrite Hc, (SFcompare_antisym _ _ _ Hc). destruct c; simpl; congruence.
Qed.

Lemma leb_not_ltb a b : PrimFloat.leb a b = true -> PrimFloat.ltb b a = false.
Proof.
  rewrite ltb_spec, leb_spec. unfold SFltb, SFleb.
  destruct (SFcompare (Prim2SF a) (Prim2SF b)) as [c|] eqn:Hc; [|discriminate].
  rewrite (SFcompare_antisym _ _ _ Hc). destruct c; simpl; congruence.
Qed.

Lemma leb_number a b : PrimFloat.leb a b = true -> number a /\ number b.
Proof.
  rewrite leb_spec, !number_spec. unfold SFleb.
  destruct (Prim2SF a) as [sa|sa| |sa ma ea], (Prim2SF b) as [sb|sb| |sb mb eb];
    simpl; try discriminate; intros _; split; congruence.
Qed.

End Order.

Section ClampValue.
Context {num : Type} `{Number num}.
Local Open Scope num_scope.

(** The two [if]s on one coordinate of a particle in range, stores
    included. *)
Definition clamp_value (m bound c : num) : num :=
  let c := if c <? m then fround m else c in
  if c >? bound - m then fround (bound - m) else c.

Lemma clampParticle_value m bw bh i (p : Particles num) :
  i < length (particles_x p) -> i < length (particles_y p) ->
  get (particles_x (clampParticle m bw bh i p)) i = clamp_value m bw (get (particles_x p) i) /\
  get (particles_y (clampParticle m bw bh i p)) i = clamp_value m bh (get (particles_y p) i).
Proof.
  intros Hx Hy. unfold clampParticle, clamp_value. cbv zeta.
  repeat match goal with
  | |- context [if ?b then _ else _] =>
      lazymatch b with
      | context [if _ then _ else _] => fail
      | _ => destruct b eqn:?
      end;
      cbn [particles_x particles_y set_x set_y];
      rewrite ?get_set_eq by (rewrite ?length_set; assumption)
  end; split; reflexivity.
Qed.

Lemma enforceBoundaries_value CONFIG bw bh (p : Particles num) i :
  wf (particleCount CONFIG) p -> i < particleCount CONFIG ->
  get (particles_x (enforceBoundaries CONFIG bw bh p)) i =
    clamp_value (radius CONFIG) bw (get (particles_x p) i) /\
  get (particles_y (enforceBoundaries CONFIG bw bh p)) i =
    clamp_value (radius CONFIG) bh (get (particles_y p) i).
Proof.
  intros Hwf Hi. unfold enforceBoundaries.
  set (body := clampParticle (radius CONFIG) bw bh).
  assert (Hloc : forall j, local_at j (body j)) by (intros j; apply clampParticle_local).
  pose proof (for_i_after _ body p i Hloc Hi) as Hafter.
  pose proof (for_i_before i body p i Hloc (Nat.le_refl i)) as Hbefore.
  assert (Hwf' : wf (particleCount CONFIG) (for_i i body p)) by (apply for_i_wf; assumption).
  destruct Hwf' as (Hlx & Hly & _).
  unfold at_index in Hafter, Hbefore.
  injection Hafter as Hax Hay _ _ _ _. injection Hbefore as Hbx Hby _ _ _ _.
  rewrite Hax, Hay. unfold body at 1 3.
  destruct (clampParticle_value (radius CONFIG) bw bh i (for_i i body p)) as [-> ->];
    [lia | lia |].
  rewrite Hbx, Hby. split; reflexivity.
Qed.

End ClampValue.

Section Containment.
Local Open Scope num_scope.

(** In binary64: a coordinate that is a number lands in
    [[m, bound - m]], provided the interval is not empty and its ends are
    binary32 values (as [12], [20] and an integer width minus them are). *)
Lemma clamp_value_contains (m bound c : float) :
  Order.number c ->
  fround m = m -> fround (bound - m) = bound - m ->
  (m <=? bound - m) = true ->
  (m <=? clamp_value m bound c) = true /\ (clamp_value m bound c <=? bound - m) = true.
Proof.
  intros Hc Hm Hb Hmb. unfold clamp_value. cbv zeta. rewrite Hm, Hb.
  destruct (Order.leb_number _ _ Hmb) as [Nm Nb].
  change (m <=? bound - m) with (PrimFloat.leb m (bound - m)) in Hmb.
  destruct (c <? m) eqn:E1.
  - change (bound - m <? m) with (PrimFloat.ltb (bound - m) m).
    rewrite (Order.leb_not_ltb _ _ Hmb). split; [apply Order.leb_refl; exact Nm | exact Hmb].
  - destruct (bound - m <? c) eqn:E2.
    + split; [exact Hmb | apply Order.leb_refl; exact Nb].
    + split; apply Order.not_ltb_leb; assumption.
Qed.

(** After every substep, in binary64: each coordinate that the relaxation
    left a number is within [[radius, bound - radius]]. *)
Lemma substep_contains (CONFIG : Config float) (bw bh : float) (st : State float) i :
  wf (particleCount CONFIG) (particles st) -> i < particleCount CONFIG ->
  let m := radius CONFIG in
  fround m = m -> fround (bw - m) = bw - m -> fround (bh - m) = bh - m ->
  (m <=? bw - m) = true -> (m <=? bh - m) = true ->
  let relaxed := relax CONFIG block_keys (buildGrid CONFIG (particles st)) (particles st) in
  let p' := particles (substep CONFIG bw bh st) in
  (Order.number (get (particles_x relaxed) i) ->
   (m <=? get (particles_x p') i) = true /\ (get (particles_x p') i <=? bw - m) = true) /\
  (Order.number (get (particles_y relaxed) i) ->
   (m <=? get (particles_y p') i) = true /\ (get (particles_y p') i <=? bh - m) = true).
Proof.
  intros Hwf Hi m Hm Hbw Hbh Hmw Hmh relaxed p'. subst p'.
  unfold substep. cbn [particles]. fold relaxed.
  assert (Hwf' : wf (particleCount CONFIG) relaxed).
  { eapply wf_moves_only; [apply relax_moves_only | exact Hwf]. }
  destruct (enforceBoundaries_value CONFIG bw bh relaxed i Hwf' Hi) as [-> ->].
  fold m. split; intros Hn; apply clamp_value_contains; assumption.
Qed.

End Containment.

Section ExactContainment.
Local Open Scope R_scope.

(** In exact arithmetic: after every substep every particle is within
    [[radius, bound - radius]], hence within the same interval with
    [physRadius] whenever [physRadius <= radius], as in every [CONFIG] of
    the repository. *)
Lemma substep_contains_exact (CONFIG : Config R) (bw bh : R) (st : State R) i :
  wf (particleCount CONFIG) (particles st) -> (i < particleCount CONFIG)%nat ->
  let m := radius CONFIG in
  m <= bw - m -> m <= bh - m ->
  let p' := particles (substep CONFIG bw bh st) in
  (m <= get (particles_x p') i <= bw - m) /\ (m <= get (particles_y p') i <= bh - m) /\
  (physRadius CONFIG <= m ->
   (physRadius CONFIG <= get (particles_x p') i <= bw - physRadius CONFIG) /\
   (physRadius CONFIG <= get (particles_y p') i <= bh - physRadius CONFIG)).
Proof.
  intros Hwf Hi m Hw Hh p'. subst p'. unfold substep. cbn [particles].
  set (relaxed := relax _ _ _ _).
  assert (Hwf' : wf (particleCount CONFIG) relaxed).
  { eapply wf_moves_only; [apply relax_moves_only | exact Hwf]. }
  destruct (enforceBoundaries_exact CONFIG bw bh relaxed i Hwf' Hi) as [-> ->].
  rewrite !clamp_if_if_min_max. fold m.
  unfold Rmin, Rmax. repeat (destruct (Rle_dec _ _)); repeat split; lra.
Qed.

End ExactContainment.

Section OtherMargins.
Local Open Scope R_scope.

(** The [else if] form of the "High Performance" version agrees with
    [min (max c radius) (bound - radius)] as soon as the interval is not
    empty. *)
Lemma clampParticle_else_exact m bw bh i (p : Particles R) :
  (i < length (particles_x p))%nat -> (i < length (particles_y p))%nat ->
  m <= bw - m -> m <= bh - m ->
  get (particles_x (clampParticle_else m bw bh i p)) i
    = Rmin (Rmax (get (particles_x p) i) m) (bw - m) /\
  get (particles_y (clampParticle_else m bw bh i p)) i
    = Rmin (Rmax (get (particles_y p) i) m) (bh - m).
Proof.
  intros Hx Hy Hw Hh. unfold clampParticle_else. cbv zeta.
  cbn [nsub nlt R_Number]. unfold Exact.ltb.
  repeat match goal with
  | |- context [if ?b then _ else _] =>
      lazymatch b with
      | context [if _ then _ else _] => fail
      | _ => destruct b
      end;
      cbn [particles_x particles_y set_x set_y];
      rewrite ?get_set_eq by (rewrite ?length_set; assumption);
      cbn [fround nsub nlt R_Number]
  end;
  unfold Rmin, Rmax; repeat (destruct (Rle_dec _ _)); split; lra.
Qed.

(** [water.js] clamps with the particle's own radius, and reverses and
    damps the velocity of a coordinate it had to move. *)
Lemma Water_screenBoundaries_exact (width height : R) (this : Water.Particle R) :
  Water.radius this <= width - Water.radius this ->
  Water.radius this <= height - Water.radius this ->
  let this' := Water.screenBoundaries width height this in
  Water.x this' = Rmin (Rmax (Water.x this) (Water.radius this)) (width - Water.radius this) /\
  Water.y this' = Rmin (Rmax (Water.y this) (Water.radius this)) (height - Water.radius this) /\
  Water.radius this' = Water.radius this /\
  (Water.x this' <> Water.x this -> Water.vx this' = Water.vx this * (- (7 / 10))).
Proof.
  intros Hw Hh. cbv zeta. unfold Water.screenBoundaries. cbv zeta.
  assert (Hb : lit (-7 # 10) = - (7 / 10)) by (simpl; unfold Q2R; simpl; lra).
  rewrite Hb. cbn [nsub nlt nmul R_Number]. unfold Exact.ltb.
  destruct this as [x y vx vy r]. cbn [Water.x Water.y Water.vx Water.vy Water.radius] in *.
  repeat match goal with
  | |- context [if ?b then _ else _] =>
      lazymatch b with
      | context [if _ then _ else _] => fail
      | _ => destruct b
      end;
      cbn [Water.x Water.y Water.vx Water.vy Water.radius]
  end;
  unfold Rmin, Rmax; repeat (destruct (Rle_dec _ _)); repeat split; try lra;
    intros Hne; try reflexivity; exfalso; apply Hne; lra.
Qed.

End OtherMargins.

(** The reference at work: two particles 5 apart ((3, 4) from one to the
    other), constants of the "Realistic AR Water Simulation" version.
    The density is far below [restDensity], so the pair is pulled
    together. *)
Section LoosePair.
Local Open Scope R_scope.

Definition loose_config : Config R := with_count 2 ARWater.CONFIG.

Definition loose_pair : Particles R := {|
  particles_x := [100; 103]; particles_y := [100; 104];
  particles_vx := [0; 0]; particles_vy := [0; 0];
  particles_prevX := [100; 103]; particles_prevY := [100; 104] |}.

Example reference_on_a_loose_pair :
  Reference.true_neighbors loose_config loose_pair 0 [0; 1]%nat = [1%nat] /\
  Reference.q loose_config loose_pair 0 1 = 3 / 4 /\
  Reference.P loose_config loose_pair 0 [1%nat] = - (11 / 80) /\
  Reference.delta_x loose_config loose_pair 0 [1%nat] 1 = - (2439 / 102400) /\
  Reference.delta_y loose_config loose_pair 0 [1%nat] 1 = - (813 / 25600) /\
  particles_x (Reference.relaxParticle loose_config loose_pair 0 [0; 1]%nat)
    = [100 - (0 + - (2439 / 102400)); 103 + - (2439 / 102400)].
Proof.
  assert (Hcell : Reference.cellSize loose_config = 20).
  { unfold Reference.cellSize. simpl. unfold Q2R. simpl. lra. }
  assert (H00 : Reference.d2 loose_pair 0 0 = 0).
  { unfold Reference.d2, dist2. simpl. lra. }
  assert (H01 : Reference.d2 loose_pair 0 1 = 5 * 5).
  { unfold Reference.d2, dist2, get. simpl. lra. }
  assert (Hd : Reference.dist loose_pair 0 1 = 5).
  { unfold Reference.dist. rewrite H01. apply sqrt_square. lra. }
  assert (Hq : Reference.q loose_config loose_pair 0 1 = 3 / 4).
  { unfold Reference.q. rewrite Hd, Hcell. lra. }
  assert (HN : Reference.true_neighbors loose_config loose_pair 0 [0; 1]%nat = [1%nat]).
  { unfold Reference.true_neighbors, Reference.is_true_neighbor, Reference.epsilon.
    cbn [List.filter]. rewrite H00, H01, Hcell.
    rewrite (proj2 (Exact.ltb_false (1 / 1000) 0)) by lra.
    rewrite (proj2 (Exact.ltb_spec (5 * 5) (20 ^ 2))) by lra.
    rewrite (proj2 (Exact.ltb_spec (1 / 1000) (5 * 5))) by lra.
    rewrite andb_false_r. reflexivity. }
  assert (HP : Reference.P loose_config loose_pair 0 [1%nat] = - (11 / 80)).
  { unfold Reference.P, Reference.rho. cbn [map Reference.sum fold_right]. rewrite Hq.
    simpl. unfold Q2R. simpl. lra. }
  assert (HPn : Reference.P_near loose_config loose_pair 0 [1%nat] = 27 / 640).
  { unfold Reference.P_near, Reference.rho_near. cbn [map Reference.sum fold_right].
    rewrite Hq. simpl. unfold Q2R. simpl. lra. }
  assert (HD : Reference.D loose_config loose_pair 0 [1%nat] 1 = - (813 / 20480)).
  { unfold Reference.D. rewrite HP, HPn, Hq. lra. }
  assert (Hdx : Reference.delta_x loose_config loose_pair 0 [1%nat] 1 = - (2439 / 102400)).
  { unfold Reference.delta_x, get. rewrite HD, Hd. simpl. lra. }
  assert (Hdy : Reference.delta_y loose_config loose_pair 0 [1%nat] 1 = - (813 / 25600)).
  { unfold Reference.delta_y, get. rewrite HD, Hd. simpl. lra. }
  repeat split; try assumption.
  unfold Reference.relaxParticle. cbv zeta. cbn [particles_x]. rewrite HN.
  unfold Reference.moved. cbn [imap loose_pair particles_x compose].
  rewrite (bool_decide_eq_false_2 (0%nat ∈ [1%nat]))
    by (rewrite list_elem_of_singleton; discriminate).
  rewrite (bool_decide_eq_true_2 (0%nat = 0%nat)) by reflexivity.
  rewrite (bool_decide_eq_true_2 (1%nat ∈ [1%nat]))
    by (rewrite list_elem_of_singleton; reflexivity).
  cbn [map Reference.sum fold_right]. rewrite Hdx. f_equal. lra.
Qed.

End LoosePair.

(** * Reset *)

Section ResetFacts.
Context {num : Type} `{Number num}.
Local Open Scope num_scope.

(** Two arrays of one length with the same elements are the same array. *)
Lemma list_get_ext (a b : list num) n :
  length a = n -> length b = n -> (forall i, i < n -> get a i = get b i) -> a = b.
Proof.
  intros Ha Hb Hab. apply list_eq. intros i.
  destruct (Nat.lt_ge_cases i n) as [Hi|Hi].
  - specialize (Hab i Hi). unfold get in Hab.
    destruct (lookup_lt_is_Some_2 a i) as [va Hva]; [lia|].
    destruct (lookup_lt_is_Some_2 b i) as [vb Hvb]; [lia|].
    rewrite Hva, Hvb in *. simpl in Hab. congruence.
  - rewrite !lookup_ge_None_2 by lia. reflexivity.
Qed.

Lemma particles_ext n (p q : Particles num) :
  wf n p -> wf n q -> (forall i, i < n -> at_index p i = at_index q i) -> p = q.
Proof.
  intros (Hp1 & Hp2 & Hp3 & Hp4 & Hp5 & Hp6) (Hq1 & Hq2 & Hq3 & Hq4 & Hq5 & Hq6) Hat.
  destruct p as [x y vx vy pX pY], q as [x' y' vx' vy' pX' pY']. simpl in *.
  f_equal; apply (list_get_ext _ _ n); try assumption; intros i Hi;
    specialize (Hat i Hi); unfold at_index in Hat; simpl in Hat; congruence.
Qed.

Ltac stores_at_own_index :=
  intros p; split;
  [ unfold lengths; simpl; rewrite ?length_set; reflexivity
  | intros i Hij; unfold at_index; simpl; rewrite ?get_set_ne by assumption; reflexivity ].

Lemma place_local cols spacing startX startY j :
  local_at j (place cols spacing startX startY j).
Proof. unfold place. stores_at_own_index. Qed.

Lemma kick_local random j : local_at j (kick random j).
Proof. unfold kick. stores_at_own_index. Qed.

Lemma still_local j : local_at j (still j).
Proof. unfold still. stores_at_own_index. Qed.

(** What a reset leaves for particle [i]: position, velocity, saved
    position. *)
Definition lattice_entry (cols : nat) (spacing startX startY vx vy : num) (i : nat)
    : num * num * num * num * num * num :=
  let X := fround (startX + ARWaterInit.of_nat (i mod cols) * spacing) in
  let Y := fround (startY + ARWaterInit.of_nat (i / cols) * spacing) in
  (X, Y, fround vx, fround vy, fround X, fround Y).

Lemma place_kick_entry n cols spacing startX startY random i (p : Particles num) :
  wf n p -> i < n ->
  at_index (kick random i (place cols spacing startX startY i p)) i =
  lattice_entry cols spacing startX startY
    ((random (2 * i)%nat - lit (1 # 2)) * lit 5)
    ((random (2 * i + 1)%nat - lit (1 # 2)) * lit 5) i.
Proof.
  intros (H1 & H2 & H3 & H4 & H5 & H6) Hi.
  unfold kick, place, at_index, lattice_entry. simpl.
  rewrite !get_set_eq by (rewrite ?length_set; lia). reflexivity.
Qed.

Lemma place_still_entry n cols spacing startX startY i (p : Particles num) :
  wf n p -> i < n ->
  at_index (still i (place cols spacing startX startY i p)) i =
  lattice_entry cols spacing startX startY (lit 0) (lit 0) i.
Proof.
  intros (H1 & H2 & H3 & H4 & H5 & H6) Hi.
  unfold still, place, at_index, lattice_entry. simpl.
  rewrite !get_set_eq by (rewrite ?length_set; lia). reflexivity.
Qed.

Lemma lattice_entry_position cols spacing startX startY vx vy i (q : Particles num) :
  at_index q i = lattice_entry cols spacing startX startY vx vy i ->
  get (particles_x q) i = fround (startX + ARWaterInit.of_nat (i mod cols) * spacing) /\
  get (particles_y q) i = fround (startY + ARWaterInit.of_nat (i / cols) * spacing).
Proof. unfold at_index, lattice_entry. intros [= Hx Hy _ _ _ _]. split; assumption. Qed.

(** A loop whose turn [i] leaves for particle [i] an entry that does not
    depend on what the arrays held. *)
Lemma overwriting_loop n (body : nat -> Particles num -> Particles num)
    (entry : nat -> num * num * num * num * num * num) (p : Particles num) :
  (forall j, local_at j (body j)) ->
  (forall i q, wf n q -> i < n -> at_index (body i q) i = entry i) ->
  wf n p ->
  wf n (for_i n body p) /\ forall i, i < n -> at_index (for_i n body p) i = entry i.
Proof.
  intros Hloc Hentry Hwf. split; [apply for_i_wf; assumption|].
  intros i Hi. rewrite (for_i_after n body p i Hloc Hi).
  apply Hentry; [apply for_i_wf; assumption | exact Hi].
Qed.

(** The lattice a version's reset lays out: where it starts and what
    velocity particle [i] gets. *)
Definition reset_origin (CONFIG : Config num) (centre startY : num) : nat * num * num * num :=
  let cols := Nat.sqrt (particleCount CONFIG) in
  let spacing := physRadius CONFIG * lit (22 # 10) in
  (cols, spacing, (centre - ARWaterInit.of_nat cols * spacing) / lit 2, startY).

Definition kicked (random : nat -> num) (i : nat) : num * num :=
  ((random (2 * i)%nat - lit (1 # 2)) * lit 5, (random (2 * i + 1)%nat - lit (1 # 2)) * lit 5).

(** Every reset is an overwriting loop onto a lattice. *)
Lemma reset_is_lattice init (CONFIG : Config num) env random dpr :
  In init initParticles_versions ->
  exists centre startY (v : nat -> num * num),
    forall p, wf (particleCount CONFIG) p ->
      wf (particleCount CONFIG) (init CONFIG env random dpr p) /\
      forall i, i < particleCount CONFIG ->
        at_index (init CONFIG env random dpr p) i =
        let '(cols, spacing, startX, startY) := reset_origin CONFIG centre startY in
        lattice_entry cols spacing startX startY (v i).1 (v i).2 i.
Proof.
  unfold initParticles_versions. simpl. intros [<-|[<-|[<-|[<-|[]]]]].
  - exists (width env), (height env * lit (2 # 10)), (kicked random). intros p Hwf.
    apply (overwriting_loop _ _ _ p); [| |exact Hwf].
    + intros j. apply (local_at_compose j (place _ _ _ _ j) (kick random j));
        [apply place_local | apply kick_local].
    + intros i q Hq Hi. apply (place_kick_entry (particleCount CONFIG)); assumption.
  - exists (width env), (height env * lit (3 # 10)), (kicked random). intros p Hwf.
    apply (overwriting_loop _ _ _ p); [| |exact Hwf].
    + intros j. apply (local_at_compose j (place _ _ _ _ j) (kick random j));
        [apply place_local | apply kick_local].
    + intros i q Hq Hi. apply (place_kick_entry (particleCount CONFIG)); assumption.
  - exists (width env), (height env * lit (2 # 10)), (kicked random). intros p Hwf.
    apply (overwriting_loop _ _ _ p); [| |exact Hwf].
    + intros j. apply (local_at_compose j (place _ _ _ _ j) (kick random j));
        [apply place_local | apply kick_local].
    + intros i q Hq Hi. apply (place_kick_entry (particleCount CONFIG)); assumption.
  - exists (width env / dpr), (height env * lit (1 # 10)), (fun _ => (lit 0, lit 0)). intros p Hwf.
    apply (overwriting_loop _ _ _ p); [| |exact Hwf].
    + intros j. apply (local_at_compose j (place _ _ _ _ j) (still j));
        [apply place_local | apply still_local].
    + intros i q Hq Hi. apply (place_still_entry (particleCount CONFIG)); assumption.
Qed.

(** X1.  A reset forgets: in each version, [initParticles] leaves the same six
    arrays whatever they held before (given the same canvas, the same
    random numbers and the same pixel ratio), each still of
    [CONFIG.particleCount] elements, and the saved position of every
    particle is its position as the arrays keep it. *)
Theorem reset_forgets_the_past init (CONFIG : Config num) env random dpr (p q : Particles num) :
  In init initParticles_versions ->
  wf (particleCount CONFIG) p -> wf (particleCount CONFIG) q ->
  init CONFIG env random dpr p = init CONFIG env random dpr q /\
  wf (particleCount CONFIG) (init CONFIG env random dpr p) /\
  forall i, i < particleCount CONFIG ->
    get (particles_prevX (init CONFIG env random dpr p)) i =
      fround (get (particles_x (init CONFIG env random dpr p)) i) /\
    get (particles_prevY (init CONFIG env random dpr p)) i =
      fround (get (particles_y (init CONFIG env random dpr p)) i).
Proof.
  intros Hin Hp Hq.
  destruct (reset_is_lattice init CONFIG env random dpr Hin) as (centre & startY & v & Hinit).
  destruct (Hinit p Hp) as [Hwfp Hatp]. destruct (Hinit q Hq) as [Hwfq Hatq].
  split; [|split; [exact Hwfp|]].
  - apply (particles_ext (particleCount CONFIG)); try assumption.
    intros i Hi. rewrite Hatp, Hatq by exact Hi. reflexivity.
  - intros i Hi. specialize (Hatp i Hi). unfold reset_origin, lattice_entry in Hatp.
    cbv zeta in Hatp. unfold at_index in Hatp.
    injection Hatp as Hx Hy _ _ HpX HpY. rewrite HpX, HpY, Hx, Hy. split; reflexivity.
Qed.

End ResetFacts.

Lemma reset_forgets_the_past_witness :
  let init := fun CONFIG env random (_ : float) => ARWaterInit.initParticles CONFIG env random in
  let random := fun _ : nat => 0.25%float in
  init demo_config demo_env random 1%float (particles demo_state) =
  init demo_config demo_env random 1%float (particles (initial_state demo_config)) /\
  wf (particleCount demo_config)
     (init demo_config demo_env random 1%float (particles demo_state)) /\
  forall i, i < particleCount demo_config ->
    get (particles_prevX (init demo_config demo_env random 1%float (particles demo_state))) i =
      fround (get (particles_x (init demo_config demo_env random 1%float
                                  (particles demo_state))) i) /\
    get (particles_prevY (init demo_config demo_env random 1%float (particles demo_state))) i =
      fround (get (particles_y (init demo_config demo_env random 1%float
                                  (particles demo_state))) i).
Proof.
  apply (reset_forgets_the_past
           (fun CONFIG env random (_ : float) => ARWaterInit.initParticles CONFIG env random)
           demo_config demo_env (fun _ : nat => 0.25%float) 1%float
           (particles demo_state) (particles (initial_state demo_config))).
  - left. reflexivity.
  - repeat split.
  - repeat split.
Defined.

Section ResetSeparation.
Local Open Scope R_scope.

Lemma of_nat_exact (n : nat) : ARWaterInit.of_nat n = INR n.
Proof.
  unfold ARWaterInit.of_nat. cbn [lit R_Number]. unfold Q2R. cbn [Qnum Qden inject_Z].
  rewrite INR_IZR_INZ, Rinv_1, Rmult_1_r. reflexivity.
Qed.

Lemma sq_distinct (a b : nat) : a <> b -> 1 <= (INR a - INR b) * (INR a - INR b).
Proof.
  intros Hab. rewrite !INR_IZR_INZ, <- minus_IZR, <- mult_IZR. apply IZR_le. nia.
Qed.

(** Two indices differ in their column or in their row. *)
Lemma cell_distinct (c i j : nat) :
  c <> 0%nat -> i <> j -> (i mod c <> j mod c)%nat \/ (i / c <> j / c)%nat.
Proof.
  intros Hc Hij. destruct (decide (i mod c = j mod c)%nat) as [Hm|Hm]; [right|left; exact Hm].
  intros Hd. apply Hij. rewrite (Nat.div_mod_eq i c), (Nat.div_mod_eq j c). congruence.
Qed.

Lemma lit_22_10 : lit (22 # 10) = 22 / 10.
Proof. cbn [lit R_Number]. unfold Q2R. simpl. lra. Qed.

(** X2.  The lattice is loose.  In exact arithmetic, after [initParticles] of
    any version two particles are at least one lattice step
    [2.2 * physRadius] apart, which is beyond the cutoff
    [GRID_SIZE = 2 * physRadius]: no particle has a neighbour, and a
    relaxation pass over the fresh lattice moves nothing. *)
Theorem reset_lattice_is_loose init (CONFIG : Config R) env random dpr (p : Particles R) :
  In init initParticles_versions ->
  wf (particleCount CONFIG) p ->
  let q := init CONFIG env random dpr p in
  (forall i j, (i < particleCount CONFIG)%nat -> (j < particleCount CONFIG)%nat -> i <> j ->
     (physRadius CONFIG * (22 / 10)) * (physRadius CONFIG * (22 / 10)) <= dist2 q i j) /\
  (forall i, (i < particleCount CONFIG)%nat -> alone CONFIG q i) /\
  (forall keys p0, relax CONFIG keys (buildGrid CONFIG p0) q = q).
Proof.
  intros Hin Hwf q.
  destruct (reset_is_lattice init CONFIG env random dpr Hin) as (centre & startY & v & Hinit).
  destruct (Hinit p Hwf) as [Hwfq Hat]. fold q in Hwfq, Hat.
  assert (Hfar : forall i j, (i < particleCount CONFIG)%nat -> (j < particleCount CONFIG)%nat ->
            i <> j ->
            (physRadius CONFIG * (22 / 10)) * (physRadius CONFIG * (22 / 10)) <= dist2 q i j).
  { intros i j Hi Hj Hij.
    pose proof (Hat i Hi) as Hai. pose proof (Hat j Hj) as Haj.
    unfold reset_origin in Hai, Haj. cbv zeta in Hai, Haj.
    apply lattice_entry_position in Hai as [Hxi Hyi].
    apply lattice_entry_position in Haj as [Hxj Hyj].
    unfold dist2. rewrite Hxi, Hyi, Hxj, Hyj. rewrite !of_nat_exact, lit_22_10.
    cbn [fround nadd nsub nmul ndiv R_Number].
    set (c := Nat.sqrt (particleCount CONFIG)).
    assert (Hc : c <> 0%nat).
    { subst c. pose proof (Nat.sqrt_spec (particleCount CONFIG) (Nat.le_0_l _)) as Hs.
      intros Hz. rewrite Hz in Hs. simpl in Hs. lia. }
    set (s := physRadius CONFIG * (22 / 10)).
    set (X := (centre - INR c * s) / lit 2).
    set (a := INR (j mod c)). set (b := INR (i mod c)).
    set (a' := INR (j / c)). set (b' := INR (i / c)).
    replace ((X + a * s - (X + b * s)) * (X + a * s - (X + b * s)) +
             (startY + a' * s - (startY + b' * s)) * (startY + a' * s - (startY + b' * s)))
      with ((a - b) * (a - b) * (s * s) + (a' - b') * (a' - b') * (s * s)) by ring.
    assert (HS : 0 <= s * s) by apply Rle_0_sqr.
    assert (HA : 0 <= (a - b) * (a - b)) by apply Rle_0_sqr.
    assert (HB : 0 <= (a' - b') * (a' - b')) by apply Rle_0_sqr.
    assert (Hone : 1 <= (a - b) * (a - b) \/ 1 <= (a' - b') * (a' - b')).
    { destruct (cell_distinct c i j Hc Hij) as [Hd|Hd]; [left|right];
        apply sq_distinct; congruence. }
    generalize dependent ((a - b) * (a - b)). generalize dependent ((a' - b') * (a' - b')).
    generalize dependent (s * s). intros S HS B HB A HA Hone.
    destruct Hone; nra. }
  assert (Halone : forall i, (i < particleCount CONFIG)%nat -> alone CONFIG q i).
  { intros i Hi j Hj Hji. specialize (Hfar i j Hi Hj (not_eq_sym Hji)).
    rewrite GRID_SIZE_exact. nra. }
  split; [exact Hfar|]. split; [exact Halone|].
  intros keys p0. unfold relax.
  apply (for_i_invariant (fun r => r = q)); [|reflexivity].
  intros k r Hk ->. unfold relaxParticle. cbv zeta.
  rewrite alone_finds_nobody by (apply Halone; exact Hk).
  destruct Hwfq as (Hlx & Hly & _). apply relax_with_nil; lia.
Qed.

End ResetSeparation.

Lemma reset_lattice_is_loose_witness :
  let q := V5Init.initParticles pair_config
             {| gravity_x := 0; gravity_y := 1; pointer_x := 0; pointer_y := 0;
                pointer_down := false; width := 800; height := 600; innerWidth := 400 |}%R
             2%R pair_particles in
  (forall i j : nat, i < particleCount pair_config -> j < particleCount pair_config -> i <> j ->
     (physRadius pair_config * (22 / 10) * (physRadius pair_config * (22 / 10))
      <= dist2 q i j)%R) /\
  (forall i, i < particleCount pair_config -> alone pair_config q i) /\
  (forall keys p0, relax pair_config keys (buildGrid pair_config p0) q = q).
Proof.
  apply (reset_lattice_is_loose
           (fun CONFIG env _ devicePixelRatio => V5Init.initParticles CONFIG env devicePixelRatio)
           pair_config _ (fun _ => 0%R) 2%R pair_particles).
  - right. right. right. left. reflexivity.
  - repeat split.
Defined.

(** * Events *)

Section PointerUp.
Context {num : Type} `{Number num}.
Local Open Scope num_scope.

Lemma for_i_ext {A} n (f g : nat -> A -> A) s :
  (forall i s, i < n -> f i s = g i s) -> for_i n f s = for_i n g s.
Proof.
  intros Hfg. induction n as [|n IH]; [reflexivity|].
  rewrite !for_i_S, IH by (intros; apply Hfg; lia). apply Hfg. lia.
Qed.

Lemma apply_gravity_env CONFIG (env env' : Env num) i p :
  gravity_x env = gravity_x env' -> gravity_y env = gravity_y env' ->
  apply_gravity CONFIG env i p = apply_gravity CONFIG env' i p.
Proof. intros Hx Hy. unfold apply_gravity. rewrite Hx, Hy. reflexivity. Qed.

(** With the pointer up a frame reads neither where the pointer is nor,
    in V5, [window.innerWidth]. *)
Lemma pointer_up_frame update (CONFIG : Config num) (env env' : Env num) st :
  In update versions ->
  gravity_x env = gravity_x env' -> gravity_y env = gravity_y env' ->
  width env = width env' -> height env = height env' ->
  pointer_down env = false -> pointer_down env' = false ->
  update CONFIG env st = update CONFIG env' st.
Proof.
  unfold versions. simpl. intros [<-|[<-|[<-|[<-|[]]]]] Hgx Hgy Hw Hh Hd Hd'.
  - unfold ARWater.updatePhysics, ARWater.predict. rewrite Hw, Hh.
    rewrite (for_i_ext _ (ARWater.predictParticle CONFIG env)
               (ARWater.predictParticle CONFIG env')); [reflexivity|].
    intros i p _. unfold ARWater.predictParticle. rewrite Hd, Hd'.
    rewrite (apply_gravity_env CONFIG env env') by assumption. reflexivity.
  - unfold Debug.updatePhysics, Debug.predict. rewrite Hw, Hh.
    rewrite (for_i_ext _ (Debug.predictParticle CONFIG env)
               (Debug.predictParticle CONFIG env')); [reflexivity|].
    intros i p _. unfold Debug.predictParticle. rewrite Hd, Hd'.
    rewrite (apply_gravity_env CONFIG env env') by assumption. reflexivity.
  - unfold V5.updatePhysics, V5.predict. rewrite Hw, Hh.
    rewrite (for_i_ext _ (V5.predictParticle CONFIG env (width env' / innerWidth env))
               (V5.predictParticle CONFIG env' (width env' / innerWidth env')));
      [reflexivity|].
    intros i p _. unfold V5.predictParticle. rewrite Hd, Hd'.
    rewrite (apply_gravity_env CONFIG env env') by assumption. reflexivity.
  - unfold HighPerf.updatePhysics, HighPerf.predict, HighPerf.solveStep.
    rewrite (for_i_ext _ (HighPerf.predictParticle CONFIG env)
               (HighPerf.predictParticle CONFIG env')).
    + rewrite Hw, Hh. reflexivity.
    + intros i p _. unfold HighPerf.predictParticle. rewrite Hd, Hd', Hw, Hh.
      rewrite (apply_gravity_env CONFIG env env') by assumption. reflexivity.
Qed.

(** What a listener leaves of the environment other than the pointer. *)
Definition same_world (env env' : Env num) : Prop :=
  gravity_x env' = gravity_x env /\ gravity_y env' = gravity_y env /\
  width env' = width env /\ height env' = height env /\ innerWidth env' = innerWidth env.

(** X3.  Releasing the pointer ends the interaction.  [mousemove] stores the
    position and sets [pointer.down], with no button pressed, and so does
    a [touchmove] with its first touch; a [touchmove] with no touch throws
    and stores nothing; [mouseup] and [touchend] clear [pointer.down] and
    leave the position; no listener touches gravity or the canvas size.
    In every version, a frame that follows [mouseup] or [touchend] is the
    same wherever the pointer was left and whatever moved it there: with
    the pointer up, two environments with the same gravity and canvas size
    give the same frame. *)
Theorem released_pointer_is_ignored update (CONFIG : Config num) (env : Env num) st :
  In update versions ->
  (forall cx cy,
     pointer_down (mousemove cx cy env) = true /\
     pointer_x (mousemove cx cy env) = cx /\ pointer_y (mousemove cx cy env) = cy /\
     same_world env (mousemove cx cy env) /\
     update CONFIG (mouseup (mousemove cx cy env)) st = update CONFIG (mouseup env) st) /\
  (forall cx cy touches, exists env',
     touchmove ((cx, cy) :: touches) env = Some env' /\
     pointer_down env' = true /\ pointer_x env' = cx /\ pointer_y env' = cy /\
     same_world env env' /\
     update CONFIG (touchend env') st = update CONFIG (touchend env) st) /\
  touchmove [] env = None /\
  (pointer_down (mouseup env) = false /\ pointer_down (touchend env) = false /\
   pointer_x (mouseup env) = pointer_x env /\ pointer_y (mouseup env) = pointer_y env /\
   touchend env = mouseup env /\ same_world env (mouseup env)) /\
  (forall env1 env2,
     gravity_x env1 = gravity_x env2 -> gravity_y env1 = gravity_y env2 ->
     width env1 = width env2 -> height env1 = height env2 ->
     pointer_down env1 = false -> pointer_down env2 = false ->
     update CONFIG env1 st = update CONFIG env2 st).
Proof.
  intros Hin. split; [|split; [|split; [|split]]].
  - intros cx cy. repeat split.
    apply pointer_up_frame; try assumption; reflexivity.
  - intros cx cy touches. eexists. split; [reflexivity|]. repeat split.
    apply pointer_up_frame; try assumption; reflexivity.
  - reflexivity.
  - repeat split.
  - intros env1 env2. apply pointer_up_frame. exact Hin.
Qed.

End PointerUp.

Lemma released_pointer_is_ignored_witness :
  let update := ARWater.updatePhysics in
  let env := touch_env in
  (forall cx cy,
     pointer_down (mousemove cx cy env) = true /\
     pointer_x (mousemove cx cy env) = cx /\ pointer_y (mousemove cx cy env) = cy /\
     same_world env (mousemove cx cy env) /\
     update demo_config (mouseup (mousemove cx cy env)) demo_state
       = update demo_config (mouseup env) demo_state) /\
  (forall cx cy touches, exists env',
     touchmove ((cx, cy) :: touches) env = Some env' /\
     pointer_down env' = true /\ pointer_x env' = cx /\ pointer_y env' = cy /\
     same_world env env' /\
     update demo_config (touchend env') demo_state
       = update demo_config (touchend env) demo_state) /\
  touchmove [] env = None /\
  (pointer_down (mouseup env) = false /\ pointer_down (touchend env) = false /\
   pointer_x (mouseup env) = pointer_x env /\ pointer_y (mouseup env) = pointer_y env /\
   touchend env = mouseup env /\ same_world env (mouseup env)) /\
  (forall env1 env2,
     gravity_x env1 = gravity_x env2 -> gravity_y env1 = gravity_y env2 ->
     width env1 = width env2 -> height env1 = height env2 ->
     pointer_down env1 = false -> pointer_down env2 = false ->
     update demo_config env1 demo_state = update demo_config env2 demo_state).
Proof.
  apply (released_pointer_is_ignored ARWater.updatePhysics demo_config touch_env demo_state).
  left. reflexivity.
Defined.

(** ** The sensor never makes gravity NaN *)

Module Rounding.

Lemma shr_1_nonneg mrs : (0 <= shr_m mrs)%Z -> (0 <= shr_m (shr_1 mrs))%Z.
Proof. destruct mrs as [m r s]. destruct m as [|[p|p|]|p]; simpl; lia. Qed.

Lemma iter_shr_1_nonneg p mrs :
  (0 <= shr_m mrs)%Z -> (0 <= shr_m (SpecFloat.iter_pos shr_1 p mrs))%Z.
Proof.
  revert mrs. induction p as [p IH|p IH|]; intros mrs Hm; simpl.
  - apply IH, IH, shr_1_nonneg, Hm.
  - apply IH, IH, Hm.
  - apply shr_1_nonneg, Hm.
Qed.

Lemma shr_fexp_nonneg m e l :
  (0 <= m)%Z -> (0 <= shr_m (shr_fexp prec emax m e l).1)%Z.
Proof.
  intros Hm. unfold shr_fexp, shr.
  assert (H0 : (0 <= shr_m (shr_record_of_loc m l))%Z) by (destruct l as [|[]]; exact Hm).
  destruct (fexp prec emax (Zdigits2 m + e) - e)%Z; simpl; try exact H0.
  apply iter_shr_1_nonneg, H0.
Qed.

Lemma round_nearest_even_nonneg m l : (0 <= m)%Z -> (0 <= round_nearest_even m l)%Z.
Proof. intros Hm. destruct l as [|[]]; simpl; try destruct (Z.even m); lia. Qed.

(** Rounding a positive mantissa gives a zero, a finite number or an
    infinity. *)
Lemma binary_round_aux_number s m e l :
  binary_round_aux prec emax s (Zpos m) e l <> S754_nan.
Proof.
  unfold binary_round_aux.
  pose proof (shr_fexp_nonneg (Zpos m) e l ltac:(lia)) as H1.
  destruct (shr_fexp prec emax (Zpos m) e l) as [mrs1 e1]. simpl in H1.
  pose proof (shr_fexp_nonneg
                (round_nearest_even (shr_m mrs1) (loc_of_shr_record mrs1)) e1 loc_Exact
                (round_nearest_even_nonneg _ _ H1)) as H2.
  destruct (shr_fexp prec emax _ e1 loc_Exact) as [mrs2 e2]. simpl in H2.
  destruct (shr_m mrs2); try lia; try discriminate.
  destruct (e2 <=? emax - prec)%Z; discriminate.
Qed.

(** A product is NaN only if a factor is, or if it is [0 * infinity]. *)
Lemma mul_finite_number a b :
  Order.number a -> is_finite b = true -> is_zero b = false -> Order.number (a * b)%float.
Proof.
  rewrite !Order.number_spec, mul_spec. intros Ha Hb Hz.
  destruct (NaN.finite_cases b Hb) as [[s Hs]|(s & m & e & Hs)].
  - exfalso. unfold is_zero in Hz.
    rewrite FloatAxioms.eqb_spec, Hs in Hz. destruct s; discriminate.
  - rewrite Hs. unfold SF64mul, SFmul.
    destruct (Prim2SF a) as [sa|sa| |sa ma ea]; try discriminate; try congruence.
    apply binary_round_aux_number.
Qed.

Lemma opp_number a : Order.number a -> Order.number (- a)%float.
Proof.
  rewrite !Order.number_spec, opp_spec. destruct (Prim2SF a); simpl; congruence.
Qed.

End Rounding.

Section Motion.

Lemma or_zero_number v : Order.number (Sensors.or_zero v).
Proof.
  destruct v as [a|]; simpl; [|reflexivity].
  destruct (is_nan a) eqn:En; simpl; [reflexivity|].
  destruct (is_zero a); [reflexivity | exact En].
Qed.

Lemma half_number a : Order.number a -> Order.number (a * 0.5)%float.
Proof. intros Ha. apply Rounding.mul_finite_number; [exact Ha | reflexivity | reflexivity]. Qed.

(** A component without a measurement: [null], or a falsy number (a zero
    or NaN). *)
Definition unmeasured (v : option float) : Prop :=
  match v with
  | Some a => is_nan a = true \/ is_zero a = true
  | None => True
  end.

Lemma or_zero_unmeasured v : unmeasured v -> Sensors.or_zero v = 0%float.
Proof.
  destruct v as [a|]; simpl; [|reflexivity].
  intros [-> | Hz]; [reflexivity|]. rewrite Hz, orb_true_r. reflexivity.
Qed.

Lemma or_zero_measured v :
  is_nan v = false -> is_zero v = false -> Sensors.or_zero (Some v) = v.
Proof. intros Hn Hz. simpl. rewrite Hn, Hz. reflexivity. Qed.

(** X4.  Whatever the sensor reports, gravity stays a number.  [handleMotion]
    (of [fluid.js] and of [water.js]) leaves everything as it is when the
    event carries no acceleration.  Otherwise a component that is [null],
    zero or NaN counts as [0]: it gives a zero gravity component; a
    measured component [v] gives [-v * 0.5] along [x] and [v * 0.5] along
    [y] ([-v] and [v] in [water.js]); both components of the new gravity
    are numbers, never NaN.  The pointer and the canvas size are not
    touched. *)
Theorem sensor_never_gives_NaN (acc : option Sensors.Acceleration) :
  (forall env : Env float,
     let env' := Sensors.handleMotion acc env in
     (acc = None -> env' = env) /\
     (forall a, acc = Some a ->
        Order.number (gravity_x env') /\ Order.number (gravity_y env') /\
        (unmeasured (Sensors.acc_x a) -> gravity_x env' = (-0)%float) /\
        (unmeasured (Sensors.acc_y a) -> gravity_y env' = 0%float) /\
        (forall v, Sensors.acc_x a = Some v -> is_nan v = false -> is_zero v = false ->
           gravity_x env' = (- v * 0.5)%float) /\
        (forall v, Sensors.acc_y a = Some v -> is_nan v = false -> is_zero v = false ->
           gravity_y env' = (v * 0.5)%float)) /\
     (Order.number (gravity_x env) -> Order.number (gravity_y env) ->
      Order.number (gravity_x env') /\ Order.number (gravity_y env')) /\
     pointer_x env' = pointer_x env /\ pointer_y env' = pointer_y env /\
     pointer_down env' = pointer_down env /\
     width env' = width env /\ height env' = height env /\
     innerWidth env' = innerWidth env) /\
  (forall w : WaterSim.World float,
     let w' := WaterSim.handleMotion acc w in
     (acc = None -> w' = w) /\
     (forall a, acc = Some a ->
        Order.number (WaterSim.gravity_x w') /\ Order.number (WaterSim.gravity_y w') /\
        (unmeasured (Sensors.acc_x a) -> WaterSim.gravity_x w' = (-0)%float) /\
        (unmeasured (Sensors.acc_y a) -> WaterSim.gravity_y w' = 0%float) /\
        (forall v, Sensors.acc_x a = Some v -> is_nan v = false -> is_zero v = false ->
           WaterSim.gravity_x w' = (- v)%float) /\
        (forall v, Sensors.acc_y a = Some v -> is_nan v = false -> is_zero v = false ->
           WaterSim.gravity_y w' = v)) /\
     (Order.number (WaterSim.gravity_x w) -> Order.number (WaterSim.gravity_y w) ->
      Order.number (WaterSim.gravity_x w') /\ Order.number (WaterSim.gravity_y w')) /\
     WaterSim.pointer_x w' = WaterSim.pointer_x w /\
     WaterSim.pointer_y w' = WaterSim.pointer_y w /\
     WaterSim.pointer_active w' = WaterSim.pointer_active w /\
     WaterSim.width w' = WaterSim.width w /\ WaterSim.height w' = WaterSim.height w).
Proof.
  split.
  - intros env env'. subst env'. destruct acc as [a|]; cbn [Sensors.handleMotion].
    + assert (Hg : Order.number (- Sensors.or_zero (Sensors.acc_x a) * 0.5)%float /\
                   Order.number (Sensors.or_zero (Sensors.acc_y a) * 0.5)%float).
      { split; apply half_number; [apply Rounding.opp_number|]; apply or_zero_number. }
      cbn [gravity_x gravity_y pointer_x pointer_y pointer_down width height innerWidth].
      split; [discriminate|]. split; [|split; [intros; exact Hg | repeat split]].
      intros a' [= <-]. split; [apply Hg|]. split; [apply Hg|].
      split; [|split; [|split]].
      * intros Hu. rewrite (or_zero_unmeasured _ Hu). reflexivity.
      * intros Hu. rewrite (or_zero_unmeasured _ Hu). reflexivity.
      * intros v -> Hn Hz. rewrite (or_zero_measured v Hn Hz). reflexivity.
      * intros v -> Hn Hz. rewrite (or_zero_measured v Hn Hz). reflexivity.
    + split; [reflexivity|]. split; [discriminate|]. split; [tauto|]. repeat split.
  - intros w w'. subst w'. destruct acc as [a|]; cbn [WaterSim.handleMotion].
    + assert (Hg : Order.number (- Sensors.or_zero (Sensors.acc_x a))%float /\
                   Order.number (Sensors.or_zero (Sensors.acc_y a))).
      { split; [apply Rounding.opp_number|]; apply or_zero_number. }
      cbn [WaterSim.gravity_x WaterSim.gravity_y WaterSim.pointer_x WaterSim.pointer_y
           WaterSim.pointer_active WaterSim.width WaterSim.height].
      split; [discriminate|]. split; [|split; [intros; exact Hg | repeat split]].
      intros a' [= <-]. split; [apply Hg|]. split; [apply Hg|].
      split; [|split; [|split]].
      * intros Hu. rewrite (or_zero_unmeasured _ Hu). reflexivity.
      * intros Hu. rewrite (or_zero_unmeasured _ Hu). reflexivity.
      * intros v -> Hn Hz. rewrite (or_zero_measured v Hn Hz). reflexivity.
      * intros v -> Hn Hz. rewrite (or_zero_measured v Hn Hz). reflexivity.
    + split; [reflexivity|]. split; [discriminate|]. split; [tauto|]. repeat split.
Qed.

End Motion.

(** * Vertex data *)

Section VertexData.
Context {num : Type} `{Number num}.
Local Open Scope num_scope.

Lemma positionData_turns (CONFIG : Config num) (p : Particles num) k :
  k <= particleCount CONFIG ->
  let pos := for_i k
    (fun i pos =>
       let pos := set pos (i * 2) (get (particles_x p) i) in
       set pos (i * 2 + 1) (get (particles_y p) i))
    (replicate (particleCount CONFIG * 2) (lit 0)) in
  length pos = (particleCount CONFIG * 2)%nat /\
  forall i, i < k ->
    get pos (i * 2) = fround (get (particles_x p) i) /\
    get pos (i * 2 + 1) = fround (get (particles_y p) i).
Proof.
  induction k as [|k IH]; intros Hk; cbv zeta.
  - split; [apply length_replicate | intros i Hi; lia].
  - rewrite for_i_S. cbv zeta in IH. destruct (IH ltac:(lia)) as [Hlen Hget].
    split; [rewrite !length_set; exact Hlen|].
    intros i Hi. destruct (decide (i = k)) as [->|Hne].
    + split.
      * rewrite get_set_ne by lia. apply get_set_eq. lia.
      * apply get_set_eq. rewrite length_set. lia.
    + rewrite !get_set_ne by lia. apply Hget. lia.
Qed.

(** X5.  The buffer [render] uploads holds every particle once: it has
    [2 * particleCount] elements, and elements [2i] and [2i+1] are the
    current [x] and [y] of particle [i] as a [Float32Array] keeps them,
    so unchanged when they come out of one. *)
Theorem positionData_interleaves (CONFIG : Config num) (p : Particles num) i :
  i < particleCount CONFIG ->
  let pos := positionData CONFIG p in
  length pos = (particleCount CONFIG * 2)%nat /\
  get pos (i * 2) = fround (get (particles_x p) i) /\
  get pos (i * 2 + 1) = fround (get (particles_y p) i) /\
  (fround (get (particles_x p) i) = get (particles_x p) i ->
   get pos (i * 2) = get (particles_x p) i) /\
  (fround (get (particles_y p) i) = get (particles_y p) i ->
   get pos (i * 2 + 1) = get (particles_y p) i).
Proof.
  intros Hi. cbv zeta.
  destruct (positionData_turns CONFIG p (particleCount CONFIG) (Nat.le_refl _)) as [Hlen Hget].
  destruct (Hget i Hi) as [Hx Hy]. unfold positionData.
  repeat split; try assumption; intros <-; assumption.
Qed.

End VertexData.

Lemma positionData_interleaves_witness :
  let pos := positionData demo_config (particles demo_state) in
  length pos = (particleCount demo_config * 2)%nat /\
  get pos (1 * 2) = fround (get (particles_x (particles demo_state)) 1) /\
  get pos (1 * 2 + 1) = fround (get (particles_y (particles demo_state)) 1) /\
  (fround (get (particles_x (particles demo_state)) 1) = get (particles_x (particles demo_state)) 1 ->
   get pos (1 * 2) = get (particles_x (particles demo_state)) 1) /\
  (fround (get (particles_y (particles demo_state)) 1) = get (particles_y (particles demo_state)) 1 ->
   get pos (1 * 2 + 1) = get (particles_y (particles demo_state)) 1).
Proof.
  apply (positionData_interleaves demo_config (particles demo_state) 1).
  unfold demo_config; simpl; lia.
Defined.

(** * [water.js] *)

Section Collisions.
Local Open Scope R_scope.

(** Squared distance between the centres of two particles. *)
Definition gap2 (p1 p2 : Water.Particle R) : R :=
  (Water.x p2 - Water.x p1) * (Water.x p2 - Water.x p1) +
  (Water.y p2 - Water.y p1) * (Water.y p2 - Water.y p1).

(** X6.  Two overlapping particles are pushed apart until they touch.  In
    exact arithmetic, when the centres of [p1] and [p2] are distinct and
    closer than [minDist = p1.radius + p2.radius], the collision step of
    [animate] leaves them exactly [minDist] apart, moves each by the same
    amount in opposite directions (their midpoint stays), and changes no
    velocity and no radius. *)
Theorem collision_separates_to_touching (p1 p2 : Water.Particle R) :
  let minDist := Water.radius p1 + Water.radius p2 in
  0 < gap2 p1 p2 -> gap2 p1 p2 < minDist * minDist ->
  let q1 := (WaterSim.collide p1 p2).1 in
  let q2 := (WaterSim.collide p1 p2).2 in
  gap2 q1 q2 = minDist * minDist /\
  Water.x q1 + Water.x q2 = Water.x p1 + Water.x p2 /\
  Water.y q1 + Water.y q2 = Water.y p1 + Water.y p2 /\
  Water.vx q1 = Water.vx p1 /\ Water.vy q1 = Water.vy p1 /\
  Water.vx q2 = Water.vx p2 /\ Water.vy q2 = Water.vy p2 /\
  Water.radius q1 = Water.radius p1 /\ Water.radius q2 = Water.radius p2.
Proof.
  intros minDist Hpos Hlt q1 q2. subst q1 q2. unfold WaterSim.collide. cbv zeta.
  cbn [nsub nadd nmul ndiv nsqrt nlt R_Number]. fold (gap2 p1 p2). fold minDist.
  rewrite (proj2 (Exact.ltb_spec _ _) Hlt). cbn [fst snd].
  rewrite lit_half. unfold gap2. unfold WaterSim.move_to.
  cbn [Water.x Water.y Water.vx Water.vy Water.radius].
  repeat split; try ring.
  fold (gap2 p1 p2).
  pose proof (sqrt_sqrt (gap2 p1 p2) (Rlt_le _ _ Hpos)) as Hsq.
  pose proof (sqrt_lt_R0 (gap2 p1 p2) Hpos) as HD.
  set (D := R_sqrt.sqrt (gap2 p1 p2)) in *.
  unfold gap2 in Hsq.
  set (dx := Water.x p2 - Water.x p1) in *. set (dy := Water.y p2 - Water.y p1) in *.
  replace (Water.x p2 + dx / D * (minDist - D) * / 2 -
           (Water.x p1 - dx / D * (minDist - D) * / 2))
    with (dx * (minDist / D)) by (subst dx; field; lra).
  replace (Water.y p2 + dy / D * (minDist - D) * / 2 -
           (Water.y p1 - dy / D * (minDist - D) * / 2))
    with (dy * (minDist / D)) by (subst dy; field; lra).
  replace (dx * (minDist / D) * (dx * (minDist / D)) + dy * (minDist / D) * (dy * (minDist / D)))
    with ((dx * dx + dy * dy) * (minDist * minDist) / (D * D)) by (field; lra).
  rewrite <- Hsq. field. lra.
Qed.

End Collisions.

Definition left_ball : Water.Particle R :=
  {| Water.x := 100; Water.y := 100; Water.vx := 1; Water.vy := 0; Water.radius := 15 |}%R.

Definition right_ball : Water.Particle R :=
  {| Water.x := 112; Water.y := 116; Water.vx := 0; Water.vy := 2; Water.radius := 15 |}%R.

Lemma collision_separates_to_touching_witness :
  let minDist := (Water.radius left_ball + Water.radius right_ball)%R in
  let q1 := (WaterSim.collide left_ball right_ball).1 in
  let q2 := (WaterSim.collide left_ball right_ball).2 in
  gap2 q1 q2 = (minDist * minDist)%R /\
  (Water.x q1 + Water.x q2 = Water.x left_ball + Water.x right_ball)%R /\
  (Water.y q1 + Water.y q2 = Water.y left_ball + Water.y right_ball)%R /\
  Water.vx q1 = Water.vx left_ball /\ Water.vy q1 = Water.vy left_ball /\
  Water.vx q2 = Water.vx right_ball /\ Water.vy q2 = Water.vy right_ball /\
  Water.radius q1 = Water.radius left_ball /\ Water.radius q2 = Water.radius right_ball.
Proof.
  apply (collision_separates_to_touching left_ball right_ball).
  - unfold gap2. simpl. lra.
  - unfold gap2. simpl. lra.
Defined.

Section Box.
Local Open Scope R_scope.
Variable Math_atan2 : R -> R -> R.
Variable Math_cos : R -> R.
Variable Math_sin : R -> R.

(** A particle of radius [r] has room between the walls. *)
Definition fits (w : WaterSim.World R) (r : R) : Prop :=
  r <= WaterSim.width w - r /\ r <= WaterSim.height w - r.

(** A particle is between the walls, its own radius away from each. *)
Definition inside (w : WaterSim.World R) (p : Water.Particle R) : Prop :=
  Water.radius p <= Water.x p <= WaterSim.width w - Water.radius p /\
  Water.radius p <= Water.y p <= WaterSim.height w - Water.radius p.

Lemma update_ends_at_the_walls CONFIG w (this : Water.Particle R) :
  exists moved,
    WaterSim.update Math_atan2 Math_cos Math_sin CONFIG w this =
      Water.screenBoundaries (WaterSim.width w) (WaterSim.height w) moved /\
    Water.radius moved = Water.radius this.
Proof.
  unfold WaterSim.update. cbv zeta. eexists. split; [reflexivity|].
  unfold WaterSim.move_to, WaterSim.speed. cbn [Water.radius].
  destruct (WaterSim.pointer_active w); [|reflexivity].
  unfold WaterSim.repulsion. cbv zeta. case_match; reflexivity.
Qed.

Lemma update_inside CONFIG w (this : Water.Particle R) :
  fits w (Water.radius this) ->
  inside w (WaterSim.update Math_atan2 Math_cos Math_sin CONFIG w this) /\
  Water.radius (WaterSim.update Math_atan2 Math_cos Math_sin CONFIG w this) = Water.radius this.
Proof.
  intros [Hw Hh].
  destruct (update_ends_at_the_walls CONFIG w this) as (moved & -> & Hr).
  rewrite <- Hr in Hw, Hh.
  destruct (Water_screenBoundaries_exact (WaterSim.width w) (WaterSim.height w) moved Hw Hh)
    as (Hx & Hy & Hrad & _).
  cbv zeta in Hx, Hy, Hrad. unfold inside. rewrite Hx, Hy, Hrad.
  split; [|exact Hr].
  unfold Rmin, Rmax; repeat (destruct (Rle_dec _ _)); repeat split; lra.
Qed.

Lemma collide_radius (p1 p2 : Water.Particle R) :
  Water.radius (WaterSim.collide p1 p2).1 = Water.radius p1 /\
  Water.radius (WaterSim.collide p1 p2).2 = Water.radius p2.
Proof. unfold WaterSim.collide. cbv zeta. case_match; split; reflexivity. Qed.

(** A collision writes the two particles it is about, and no radius. *)
Lemma collide_at_spec i j (l : list (Water.Particle R)) :
  Water.radius <$> WaterSim.collide_at i j l = Water.radius <$> l /\
  forall k, k <> i -> k <> j -> WaterSim.collide_at i j l !! k = l !! k.
Proof.
  unfold WaterSim.collide_at.
  destruct (l !! i) as [p1|] eqn:Hi; [|split; reflexivity].
  destruct (l !! j) as [p2|] eqn:Hj; [|split; reflexivity].
  destruct (collide_radius p1 p2) as [Hr1 Hr2].
  destruct (WaterSim.collide p1 p2) as [q1 q2]. cbn [fst snd] in Hr1, Hr2. split.
  - rewrite !list_fmap_insert, Hr1, Hr2.
    rewrite (list_insert_id (Water.radius <$> l) i)
      by (rewrite list_lookup_fmap, Hi; reflexivity).
    apply list_insert_id. rewrite list_lookup_fmap, Hj. reflexivity.
  - intros k Hki Hkj. rewrite !list_lookup_insert_ne by congruence. reflexivity.
Qed.

Lemma collide_row_spec i (js : list nat) (l : list (Water.Particle R)) :
  Forall (fun j => (i < j)%nat) js ->
  let l' := fold_left (fun l j => WaterSim.collide_at i j l) js l in
  Water.radius <$> l' = Water.radius <$> l /\
  forall k, (k < i)%nat -> l' !! k = l !! k.
Proof.
  intros Hjs. revert l. induction Hjs as [|j js Hj _ IH]; intros l; [split; reflexivity|].
  cbv zeta. cbn [fold_left].
  destruct (IH (WaterSim.collide_at i j l)) as [Hr Hk].
  destruct (collide_at_spec i j l) as [Hr0 Hk0]. split.
  - rewrite Hr. exact Hr0.
  - intros k Hki. rewrite Hk by exact Hki. apply Hk0; lia.
Qed.

Lemma turn_spec CONFIG w i (l : list (Water.Particle R)) :
  Forall (fits w) (Water.radius <$> l) ->
  let l' := WaterSim.turn Math_atan2 Math_cos Math_sin CONFIG w i l in
  Water.radius <$> l' = Water.radius <$> l /\
  (forall k, (k < i)%nat -> l' !! k = l !! k) /\
  (forall p, l' !! i = Some p -> inside w p).
Proof.
  intros Hfits. unfold WaterSim.turn. cbv zeta.
  destruct (collide_row_spec i (seq (i + 1) (length l - (i + 1))) l) as [Hr Hk].
  { apply Forall_forall. intros j Hj. apply elem_of_seq in Hj. lia. }
  cbv zeta in Hr, Hk.
  set (row := fold_left _ _ l) in *.
  destruct (row !! i) as [p1|] eqn:Hi.
  - assert (Hfit : fits w (Water.radius p1)).
    { rewrite Forall_forall in Hfits. apply Hfits. rewrite <- Hr.
      apply list_elem_of_lookup. exists i. rewrite list_lookup_fmap, Hi. reflexivity. }
    destruct (update_inside CONFIG w p1 Hfit) as [Hin Hrad].
    split; [|split].
    + rewrite list_fmap_insert, Hrad.
      rewrite list_insert_id by (rewrite list_lookup_fmap, Hi; reflexivity). exact Hr.
    + intros k Hki. rewrite list_lookup_insert_ne by lia. apply Hk. exact Hki.
    + intros p Hp. rewrite list_lookup_insert_eq in Hp by (eapply lookup_lt_Some; eauto).
      injection Hp as <-. exact Hin.
  - split; [exact Hr|]. split; [exact Hk|]. intros p Hp. congruence.
Qed.

Lemma animate_turns CONFIG w (l : list (Water.Particle R)) n :
  Forall (fits w) (Water.radius <$> l) ->
  let l' := for_i n (WaterSim.turn Math_atan2 Math_cos Math_sin CONFIG w) l in
  Water.radius <$> l' = Water.radius <$> l /\
  forall i p, (i < n)%nat -> l' !! i = Some p -> inside w p.
Proof.
  intros Hfits. induction n as [|n IH]; cbv zeta.
  - split; [reflexivity|]. intros i p Hi. lia.
  - rewrite for_i_S. cbv zeta in IH. destruct IH as [Hr Hin].
    set (l1 := for_i n _ l) in *.
    destruct (turn_spec CONFIG w n l1) as (Hr' & Hk & Hn).
    { rewrite Hr. exact Hfits. }
    cbv zeta in Hr', Hk, Hn. split; [rewrite Hr'; exact Hr|].
    intros i p Hi Hp. destruct (decide (i = n)) as [->|Hne].
    + apply Hn. exact Hp.
    + rewrite Hk in Hp by lia. apply (Hin i); [lia | exact Hp].
Qed.

(** X7.  After every frame of [water.js] all particles are between the walls.
    In exact arithmetic, whatever [Math.atan2], [Math.cos] and [Math.sin]
    return, wherever the particles were and however fast they moved: if
    each radius leaves room between the walls ([2 * radius <= width] and
    [<= height]), one call of [animate] keeps the number of particles and
    every radius, and leaves every particle within
    [[radius, width - radius]] by [[radius, height - radius]]: a
    collision never moves a particle whose [update] has already run. *)
Theorem animate_keeps_particles_inside CONFIG w (particles : list (Water.Particle R)) :
  Forall (fits w) (Water.radius <$> particles) ->
  let particles' := WaterSim.animate Math_atan2 Math_cos Math_sin CONFIG w particles in
  length particles' = length particles /\
  Water.radius <$> particles' = Water.radius <$> particles /\
  Forall (inside w) particles'.
Proof.
  intros Hfits. cbv zeta. unfold WaterSim.animate.
  destruct (animate_turns CONFIG w particles (length particles) Hfits) as [Hr Hin].
  cbv zeta in Hr, Hin.
  assert (Hlen : length (for_i (length particles)
                           (WaterSim.turn Math_atan2 Math_cos Math_sin CONFIG w) particles)
                 = length particles).
  { rewrite <- (length_fmap Water.radius), Hr, length_fmap. reflexivity. }
  split; [exact Hlen|]. split; [exact Hr|].
  apply Forall_lookup. intros i p Hp. apply (Hin i); [|exact Hp].
  rewrite <- Hlen. eapply lookup_lt_Some; eauto.
Qed.

End Box.

Definition calm_world : WaterSim.World R :=
  {| WaterSim.gravity_x := 0; WaterSim.gravity_y := 1;
     WaterSim.pointer_x := 100; WaterSim.pointer_y := 100; WaterSim.pointer_active := true;
     WaterSim.width := 800; WaterSim.height := 600 |}%R.

Lemma animate_keeps_particles_inside_witness :
  let particles' :=
    WaterSim.animate Trig.atan2 cos sin WaterSim.CONFIG calm_world [left_ball; right_ball] in
  length particles' = length [left_ball; right_ball] /\
  Water.radius <$> particles' = Water.radius <$> [left_ball; right_ball] /\
  Forall (inside calm_world) particles'.
Proof.
  apply (animate_keeps_particles_inside Trig.atan2 cos sin WaterSim.CONFIG calm_world
           [left_ball; right_ball]).
  repeat constructor; simpl; lra.
Defined.

Section Repulsion.
Local Open Scope R_scope.

(** [Math.atan2(y, x)] is the direction of [(x, y)]. *)
Lemma cos_sin_atan2 (y x : R) :
  0 < x * x + y * y ->
  cos (Trig.atan2 y x) = x / R_sqrt.sqrt (x * x + y * y) /\
  sin (Trig.atan2 y x) = y / R_sqrt.sqrt (x * x + y * y).
Proof.
  intros Hpos. unfold Trig.atan2.
  destruct (Rlt_dec 0 x) as [Hx|Hx]; [|destruct (Rlt_dec x 0) as [Hx'|Hx']].
  - set (t := y / x).
    assert (Ht : 0 < 1 + t²) by (unfold Rsqr; nra).
    pose proof (sqrt_lt_R0 _ Ht) as HS. pose proof (sqrt_sqrt _ (Rlt_le _ _ Ht)) as HSS.
    rewrite cos_atan, sin_atan. set (S := R_sqrt.sqrt (1 + t²)) in *.
    rewrite (sqrt_lem_1 (x * x + y * y) (x * S)); [| lra | nra |].
    + subst t. split; field; lra.
    + replace (x * S * (x * S)) with (x * x * (S * S)) by ring.
      rewrite HSS. subst t. unfold Rsqr. field. lra.
  - set (t := y / x).
    assert (Ht : 0 < 1 + t²) by (unfold Rsqr; nra).
    pose proof (sqrt_lt_R0 _ Ht) as HS. pose proof (sqrt_sqrt _ (Rlt_le _ _ Ht)) as HSS.
    assert (Hd : R_sqrt.sqrt (x * x + y * y) = - x * R_sqrt.sqrt (1 + t²)).
    { apply sqrt_lem_1; [lra | nra |].
      replace (- x * R_sqrt.sqrt (1 + t²) * (- x * R_sqrt.sqrt (1 + t²)))
        with (x * x * (R_sqrt.sqrt (1 + t²) * R_sqrt.sqrt (1 + t²))) by ring.
      rewrite HSS. subst t. unfold Rsqr. field. lra. }
    rewrite Hd.
    destruct (Rle_dec 0 y) as [Hy|Hy].
    + rewrite neg_cos, neg_sin, cos_atan, sin_atan. fold t.
      set (S := R_sqrt.sqrt (1 + t²)) in *. subst t. split; field; lra.
    + rewrite cos_minus, sin_minus, cos_PI, sin_PI, cos_atan, sin_atan. fold t.
      set (S := R_sqrt.sqrt (1 + t²)) in *. subst t. split; field; lra.
  - assert (x = 0) by lra. subst x.
    replace (0 * 0 + y * y) with (y * y) in * by ring.
    destruct (Rlt_dec 0 y) as [Hy|Hy]; [|destruct (Rlt_dec y 0) as [Hy'|Hy']].
    + rewrite cos_PI2, sin_PI2, sqrt_square by lra. split; field; lra.
    + rewrite cos_neg, sin_neg, cos_PI2, sin_PI2.
      replace (y * y) with (- y * - y) by ring. rewrite sqrt_square by lra.
      split; field; lra.
    + nra.
Qed.

(** X8.  The pointer of [water.js] pushes a particle straight away from it.
    In exact arithmetic with the true arctangent, cosine and sine: inside
    the interaction radius a particle at distance [d > 0] from the pointer
    gains the velocity [(dx/d, dy/d) * (1 - d/iR) * repulsionStrength * 5],
    the push [repel] of [fluid.js] gives with that force constant; a
    particle exactly under the pointer gains [repulsionStrength * 5]
    along [x], with no division by the distance; the position is not
    touched. *)
Theorem repulsion_pushes_away (CONFIG : WaterSim.Config R) (w : WaterSim.World R)
    (this : Water.Particle R) :
  let dx := Water.x this - WaterSim.pointer_x w in
  let dy := Water.y this - WaterSim.pointer_y w in
  let d := R_sqrt.sqrt (dx * dx + dy * dy) in
  let iR := WaterSim.interactionRadius CONFIG in
  let push := (1 - d / iR) * (WaterSim.repulsionStrength CONFIG * 5) in
  dx * dx + dy * dy < iR * iR ->
  let q := WaterSim.repulsion Trig.atan2 cos sin CONFIG w this in
  (0 < dx * dx + dy * dy ->
   Water.vx q = Water.vx this + dx / d * push /\
   Water.vy q = Water.vy this + dy / d * push) /\
  (dx = 0 -> dy = 0 ->
   Water.vx q = Water.vx this + WaterSim.repulsionStrength CONFIG * 5 /\
   Water.vy q = Water.vy this) /\
  Water.x q = Water.x this /\ Water.y q = Water.y this /\
  Water.radius q = Water.radius this.
Proof.
  intros dx dy d iR push Hin q. subst q. unfold WaterSim.repulsion. cbv zeta.
  cbn [nsub nadd nmul ndiv nsqrt nlt R_Number]. fold dx dy iR.
  rewrite (proj2 (Exact.ltb_spec _ _) Hin). fold d.
  assert (HiR : iR <> 0) by (intros Hz; rewrite Hz in Hin; nra).
  assert (H5 : lit 5 = 5) by (cbn [lit R_Number]; unfold Q2R; simpl; lra).
  rewrite H5. unfold WaterSim.speed. cbn [Water.x Water.y Water.vx Water.vy Water.radius].
  repeat split.
  - destruct (cos_sin_atan2 dy dx H) as [-> _]. fold d. subst push. field. split; [exact HiR|].
    subst d. apply Rgt_not_eq, sqrt_lt_R0, H.
  - destruct (cos_sin_atan2 dy dx H) as [_ ->]. fold d. subst push. field. split; [exact HiR|].
    subst d. apply Rgt_not_eq, sqrt_lt_R0, H.
  - subst d. rewrite H, H0. replace (0 * 0 + 0 * 0) with 0 by ring. rewrite sqrt_0.
    unfold Trig.atan2. destruct (Rlt_dec 0 0); [lra|]. rewrite cos_0. field. exact HiR.
  - subst d. rewrite H, H0. replace (0 * 0 + 0 * 0) with 0 by ring. rewrite sqrt_0.
    unfold Trig.atan2. destruct (Rlt_dec 0 0); [lra|]. rewrite sin_0. ring.
Qed.

End Repulsion.

Lemma repulsion_pushes_away_witness :
  let this := right_ball in
  let dx := (Water.x this - WaterSim.pointer_x calm_world)%R in
  let dy := (Water.y this - WaterSim.pointer_y calm_world)%R in
  let d := R_sqrt.sqrt (dx * dx + dy * dy) in
  let iR := WaterSim.interactionRadius WaterSim.CONFIG in
  let push := ((1 - d / iR) * (WaterSim.repulsionStrength WaterSim.CONFIG * 5))%R in
  let q := WaterSim.repulsion Trig.atan2 cos sin WaterSim.CONFIG calm_world this in
  ((0 < dx * dx + dy * dy)%R ->
   Water.vx q = (Water.vx this + dx / d * push)%R /\
   Water.vy q = (Water.vy this + dy / d * push)%R) /\
  (dx = 0%R -> dy = 0%R ->
   Water.vx q = (Water.vx this + WaterSim.repulsionStrength WaterSim.CONFIG * 5)%R /\
   Water.vy q = Water.vy this) /\
  Water.x q = Water.x this /\ Water.y q = Water.y this /\
  Water.radius q = Water.radius this.
Proof.
  apply (repulsion_pushes_away WaterSim.CONFIG calm_world right_ball).
  simpl. unfold Q2R. simpl. lra.
Defined.

Section Init.
Local Open Scope R_scope.
Variable Math_atan2 : R -> R -> R.
Variable Math_cos : R -> R.
Variable Math_sin : R -> R.

(** A particle as the constructor makes it on the canvas of [w]. *)
Definition constructed (CONFIG : WaterSim.Config R) (w : WaterSim.World R)
    (p : Water.Particle R) : Prop :=
  8 / 10 * WaterSim.particleRadius CONFIG <= Water.radius p
    < 12 / 10 * WaterSim.particleRadius CONFIG /\
  0 <= Water.x p < WaterSim.width w /\ 0 <= Water.y p < WaterSim.height w /\
  -5 <= Water.vx p < 5 /\ -5 <= Water.vy p < 5.

Lemma newParticle_constructed CONFIG w (random : nat -> R) k :
  0 < WaterSim.particleRadius CONFIG ->
  (forall n, 0 <= random n < 1) ->
  0 < WaterSim.width w -> 0 < WaterSim.height w ->
  constructed CONFIG w (WaterSim.newParticle CONFIG w random k).
Proof.
  intros HR Hrand Hw Hh.
  assert (H8 : lit (8 # 10) = 8 / 10) by (cbn [lit R_Number]; unfold Q2R; simpl; lra).
  assert (H4 : lit (4 # 10) = 4 / 10) by (cbn [lit R_Number]; unfold Q2R; simpl; lra).
  assert (H10 : lit 10 = 10) by (cbn [lit R_Number]; unfold Q2R; simpl; lra).
  unfold constructed, WaterSim.newParticle.
  cbn [Water.x Water.y Water.vx Water.vy Water.radius].
  rewrite H8, H4, H10, lit_half. cbn [nsub nadd nmul R_Number].
  pose proof (Hrand (5 * k)%nat). pose proof (Hrand (5 * k + 1)%nat).
  pose proof (Hrand (5 * k + 2)%nat). pose proof (Hrand (5 * k + 3)%nat).
  pose proof (Hrand (5 * k + 4)%nat).
  repeat split; nra.
Qed.

(** X9.  What [init] leaves.  In exact arithmetic, with [Math.random] in
    [[0, 1)], a positive [particleRadius] and a window at least
    [2.4 * particleRadius] wide and high: [init] sets [width] and [height]
    to the window's and leaves [CONFIG.particleCount] particles, each with
    a radius in [[0.8, 1.2) * particleRadius] and so with room between the
    walls.  When the animation is already running they are as the
    constructor made them, on the canvas and with both velocity
    components in [[-5, 5)].  On the first call, with [animationId] still
    undefined, [init] also runs one frame of [animate] on them before it
    returns: they are then within the walls, a radius away from each, and
    [animationId] is set. *)
Theorem init_particles_fit (CONFIG : WaterSim.Config R) (innerWidth innerHeight : R)
    (random : nat -> R) (handle : positive) (s : WaterSim.Globals R) :
  0 < WaterSim.particleRadius CONFIG ->
  (forall n, 0 <= random n < 1) ->
  24 / 10 * WaterSim.particleRadius CONFIG <= innerWidth ->
  24 / 10 * WaterSim.particleRadius CONFIG <= innerHeight ->
  let w := WaterSim.onResize innerWidth innerHeight (WaterSim.world s) in
  let created := WaterSim.createParticles CONFIG w random in
  let s' := WaterSim.init Math_atan2 Math_cos Math_sin CONFIG innerWidth innerHeight
              random handle s in
  WaterSim.world s' = w /\
  WaterSim.width w = innerWidth /\ WaterSim.height w = innerHeight /\
  length created = WaterSim.particleCount CONFIG /\
  Forall (constructed CONFIG w) created /\
  (WaterSim.animationId s <> None ->
   WaterSim.particles s' = created /\ WaterSim.animationId s' = WaterSim.animationId s) /\
  (WaterSim.animationId s = None ->
   WaterSim.particles s' = WaterSim.animate Math_atan2 Math_cos Math_sin CONFIG w created /\
   WaterSim.animationId s' = Some handle /\
   Forall (inside w) (WaterSim.particles s')) /\
  length (WaterSim.particles s') = WaterSim.particleCount CONFIG /\
  Forall (fun p =>
            8 / 10 * WaterSim.particleRadius CONFIG <= Water.radius p
              < 12 / 10 * WaterSim.particleRadius CONFIG /\
            fits w (Water.radius p)) (WaterSim.particles s').
Proof.
  intros HR Hrand Hw Hh w created s'.
  assert (Hlen : length created = WaterSim.particleCount CONFIG).
  { subst created. unfold WaterSim.createParticles. rewrite length_fmap, length_seq. reflexivity. }
  assert (Hmade : Forall (constructed CONFIG w) created).
  { subst created. unfold WaterSim.createParticles.
    apply Forall_fmap, Forall_forall. intros k _.
    apply newParticle_constructed; subst w; cbn [WaterSim.onResize WaterSim.width
      WaterSim.height]; try assumption; lra. }
  assert (Hroom : forall r,
            8 / 10 * WaterSim.particleRadius CONFIG <= r
              < 12 / 10 * WaterSim.particleRadius CONFIG -> fits w r).
  { intros r Hr. unfold fits. subst w. cbn [WaterSim.onResize WaterSim.width WaterSim.height].
    split; lra. }
  assert (Hradii : Forall (fun r => 8 / 10 * WaterSim.particleRadius CONFIG <= r
                             < 12 / 10 * WaterSim.particleRadius CONFIG)
                     (Water.radius <$> created)).
  { apply Forall_fmap. eapply Forall_impl; [exact Hmade|]. intros p Hp. apply Hp. }
  assert (Hfits : Forall (fits w) (Water.radius <$> created)).
  { eapply Forall_impl; [exact Hradii|]. exact Hroom. }
  destruct (animate_turns Math_atan2 Math_cos Math_sin CONFIG w created (length created) Hfits)
    as [Hr Hin]. cbv zeta in Hr, Hin.
  fold (WaterSim.animate Math_atan2 Math_cos Math_sin CONFIG w created) in Hr, Hin.
  set (frame := WaterSim.animate Math_atan2 Math_cos Math_sin CONFIG w created) in *.
  assert (Hlen' : length frame = length created).
  { rewrite <- (length_fmap Water.radius), Hr, length_fmap. reflexivity. }
  assert (Hinside : Forall (inside w) frame).
  { apply Forall_lookup. intros i p Hp. apply (Hin i); [|exact Hp].
    rewrite <- Hlen'. eapply lookup_lt_Some; eauto. }
  assert (Hkeep : forall l, Water.radius <$> l = Water.radius <$> created ->
            Forall (fun p => 8 / 10 * WaterSim.particleRadius CONFIG <= Water.radius p
                               < 12 / 10 * WaterSim.particleRadius CONFIG /\
                             fits w (Water.radius p)) l).
  { intros l Hl.
    assert (Hl' : Forall (fun r => 8 / 10 * WaterSim.particleRadius CONFIG <= r
                              < 12 / 10 * WaterSim.particleRadius CONFIG /\ fits w r)
                    (Water.radius <$> l)).
    { rewrite Hl. eapply Forall_impl; [exact Hradii|].
      intros r Hr'. split; [exact Hr' | apply Hroom, Hr']. }
    apply Forall_fmap in Hl'. exact Hl'. }
  subst s'. unfold WaterSim.init. cbv zeta. cbn [WaterSim.animationId].
  fold w. fold created.
  destruct (WaterSim.animationId s) as [running|] eqn:Hid.
  - cbn [WaterSim.world WaterSim.particles WaterSim.animationId].
    repeat split; try assumption; try discriminate.
    apply Hkeep. reflexivity.
  - unfold WaterSim.animate_call.
    cbn [WaterSim.world WaterSim.particles WaterSim.animationId]. fold frame.
    split; [reflexivity|]. split; [reflexivity|]. split; [reflexivity|].
    split; [exact Hlen|]. split; [exact Hmade|]. split; [congruence|].
    split; [intros _; repeat split; exact Hinside|].
    split; [rewrite Hlen'; exact Hlen|]. apply Hkeep. exact Hr.
Qed.

End Init.

(** The page before the start button is pressed: no particle, no frame
    requested yet. *)
Definition before_start : WaterSim.Globals R :=
  {| WaterSim.world := calm_world; WaterSim.particles := []; WaterSim.animationId := None |}.

Lemma init_particles_fit_witness :
  let CONFIG := WaterSim.CONFIG in
  let w := WaterSim.onResize 1280%R 720%R (WaterSim.world before_start) in
  let created := WaterSim.createParticles CONFIG w (fun _ => (1 / 2)%R) in
  let s' := WaterSim.init Trig.atan2 cos sin CONFIG 1280%R 720%R (fun _ => (1 / 2)%R) 1%positive
              before_start in
  WaterSim.world s' = w /\
  WaterSim.width w = 1280%R /\ WaterSim.height w = 720%R /\
  length created = WaterSim.particleCount CONFIG /\
  Forall (constructed CONFIG w) created /\
  (WaterSim.animationId before_start <> None ->
   WaterSim.particles s' = created /\
   WaterSim.animationId s' = WaterSim.animationId before_start) /\
  (WaterSim.animationId before_start = None ->
   WaterSim.particles s' = WaterSim.animate Trig.atan2 cos sin CONFIG w created /\
   WaterSim.animationId s' = Some 1%positive /\
   Forall (inside w) (WaterSim.particles s')) /\
  length (WaterSim.particles s') = WaterSim.particleCount CONFIG /\
  Forall (fun p =>
            (8 / 10 * WaterSim.particleRadius CONFIG <= Water.radius p
               < 12 / 10 * WaterSim.particleRadius CONFIG)%R /\
            fits w (Water.radius p)) (WaterSim.particles s').
Proof.
  apply (init_particles_fit Trig.atan2 cos sin WaterSim.CONFIG 1280%R 720%R
           (fun _ => (1 / 2)%R) 1%positive before_start).
  - simpl. unfold Q2R. simpl. lra.
  - intros n. lra.
  - simpl. unfold Q2R. simpl. lra.
  - simpl. unfold Q2R. simpl. lra.
Defined.

Section CoincidentBalls.
Local Open Scope num_scope.
Variable Math_atan2 : float -> float -> float.
Variable Math_cos : float -> float.
Variable Math_sin : float -> float.

Lemma sub_nan_r v : PrimFloat.sub v nan = nan.
Proof.
  apply Prim2SF_inj. rewrite sub_spec, NaN.Prim2SF_nan.
  destruct (Prim2SF v) as [[]|[]| |]; reflexivity.
Qed.

(** [update] never brings a lost coordinate back: NaN absorbs the
    velocity and fails all four wall tests. *)
Lemma update_keeps_nan CONFIG w (this : Water.Particle float) :
  (Water.x this = nan ->
   Water.x (WaterSim.update Math_atan2 Math_cos Math_sin CONFIG w this) = nan) /\
  (Water.y this = nan ->
   Water.y (WaterSim.update Math_atan2 Math_cos Math_sin CONFIG w this) = nan).
Proof.
  unfold WaterSim.update. cbv zeta.
  set (this1 := WaterSim.speed _ _ this).
  set (this2 := if WaterSim.pointer_active w then _ else this1).
  assert (H2 : Water.x this2 = Water.x this /\ Water.y this2 = Water.y this).
  { subst this2. destruct (WaterSim.pointer_active w); [|split; reflexivity].
    unfold WaterSim.repulsion. cbv zeta. case_match; split; reflexivity. }
  destruct H2 as [H2x H2y].
  set (this4 := WaterSim.speed _ _ (WaterSim.move_to _ _ this2)).
  assert (H4 : Water.x this4 = Water.x this + Water.vx this2 /\
               Water.y this4 = Water.y this + Water.vy this2).
  { subst this4. unfold WaterSim.speed, WaterSim.move_to.
    cbn [Water.x Water.y]. rewrite H2x, H2y. split; reflexivity. }
  destruct H4 as [H4x H4y]. clearbody this4 this2.
  unfold Water.screenBoundaries. cbv zeta. split; intros Hnan.
  - assert (Hx : Water.x this4 = nan).
    { rewrite H4x, Hnan. apply NaN.add_nan_l. }
    change (Water.x this4 <? Water.radius this4)
      with (PrimFloat.ltb (Water.x this4) (Water.radius this4)).
    change (Water.x this4 >? w.(WaterSim.width) - Water.radius this4)
      with (PrimFloat.ltb (w.(WaterSim.width) - Water.radius this4) (Water.x this4)).
    rewrite Hx, NaN.ltb_nan_l, NaN.ltb_nan_r. rewrite <- Hx.
    repeat case_match; reflexivity.
  - assert (Hy : Water.y this4 = nan).
    { rewrite H4y, Hnan. apply NaN.add_nan_l. }
    repeat match goal with
    | |- context [if ?b then _ else _] =>
        lazymatch b with
        | context [if _ then _ else _] => fail
        | _ => destruct b eqn:?
        end; cbn [Water.x Water.y Water.radius] in *
    end;
    try exact Hy;
    repeat match goal with
    | E : (_ <? _) = true |- _ =>
        exfalso; revert E; cbn [nlt float_Number]; rewrite Hy;
        rewrite ?NaN.ltb_nan_l, ?NaN.ltb_nan_r; discriminate
    end.
Qed.

(** X10.  Two particles at one place lose their positions.  In binary64, when
    [p2] is exactly where [p1] is (a finite position) and their radii do
    not sum to zero, the collision step of [animate] divides [0] by the
    distance [0]: both coordinates of both particles become NaN, and no
    later [update] brings them back, whatever the pointer, the gravity and
    [Math.atan2], [Math.cos], [Math.sin] are. *)
Theorem coincident_particles_lose_their_position (p1 p2 : Water.Particle float) :
  is_finite (Water.x p1) = true -> is_finite (Water.y p1) = true ->
  Water.x p2 = Water.x p1 -> Water.y p2 = Water.y p1 ->
  (lit 0 <? (Water.radius p1 + Water.radius p2) * (Water.radius p1 + Water.radius p2)) = true ->
  let q1 := (WaterSim.collide p1 p2).1 in
  let q2 := (WaterSim.collide p1 p2).2 in
  Water.x q1 = nan /\ Water.y q1 = nan /\ Water.x q2 = nan /\ Water.y q2 = nan /\
  forall CONFIG w,
    Water.x (WaterSim.update Math_atan2 Math_cos Math_sin CONFIG w q1) = nan /\
    Water.y (WaterSim.update Math_atan2 Math_cos Math_sin CONFIG w q1) = nan /\
    Water.x (WaterSim.update Math_atan2 Math_cos Math_sin CONFIG w q2) = nan /\
    Water.y (WaterSim.update Math_atan2 Math_cos Math_sin CONFIG w q2) = nan.
Proof.
  intros Hfx Hfy Hx Hy Hr q1 q2.
  assert (Hq : Water.x q1 = nan /\ Water.y q1 = nan /\ Water.x q2 = nan /\ Water.y q2 = nan).
  { subst q1 q2. unfold WaterSim.collide. cbv zeta. rewrite Hx, Hy.
    change (Water.x p1 - Water.x p1) with (PrimFloat.sub (Water.x p1) (Water.x p1)).
    change (Water.y p1 - Water.y p1) with (PrimFloat.sub (Water.y p1) (Water.y p1)).
    rewrite !NaN.sub_diag by assumption.
    change (0%float * 0%float + 0%float * 0%float) with (lit 0 : float).
    rewrite Hr.
    change (0%float / nsqrt (lit 0 : float)) with nan.
    unfold WaterSim.move_to. cbn [fst snd Water.x Water.y].
    cbn [nmul nsub nadd float_Number].
    rewrite !NaN.mul_nan_l, !sub_nan_r, !NaN.add_nan_r. repeat split. }
  destruct Hq as (H1x & H1y & H2x & H2y).
  repeat split; try assumption.
  - apply update_keeps_nan, H1x.
  - apply update_keeps_nan, H1y.
  - apply update_keeps_nan, H2x.
  - apply update_keeps_nan, H2y.
Qed.

End CoincidentBalls.

Definition ball : Water.Particle float :=
  {| Water.x := 100; Water.y := 100; Water.vx := 1; Water.vy := 0; Water.radius := 15 |}%float.

Lemma coincident_particles_lose_their_position_witness :
  let trig := fun _ : float => 0%float in
  let q1 := (WaterSim.collide ball ball).1 in
  let q2 := (WaterSim.collide ball ball).2 in
  Water.x q1 = nan /\ Water.y q1 = nan /\ Water.x q2 = nan /\ Water.y q2 = nan /\
  forall CONFIG w,
    Water.x (WaterSim.update (fun _ => trig) trig trig CONFIG w q1) = nan /\
    Water.y (WaterSim.update (fun _ => trig) trig trig CONFIG w q1) = nan /\
    Water.x (WaterSim.update (fun _ => trig) trig trig CONFIG w q2) = nan /\
    Water.y (WaterSim.update (fun _ => trig) trig trig CONFIG w q2) = nan.
Proof.
  apply (coincident_particles_lose_their_position
           (fun _ _ => 0%float) (fun _ => 0%float) (fun _ => 0%float) ball ball).
  - reflexivity.
  - reflexivity.
  - reflexivity.
  - reflexivity.
  - vm_compute. reflexivity.
Defined.

Section InactivePointer.
Context {num : Type} `{Number num}.
Local Open Scope num_scope.

Lemma update_inactive t1 t2 t3 t1' t2' t3' CONFIG (w w' : WaterSim.World num) this :
  WaterSim.gravity_x w = WaterSim.gravity_x w' ->
  WaterSim.gravity_y w = WaterSim.gravity_y w' ->
  WaterSim.width w = WaterSim.width w' -> WaterSim.height w = WaterSim.height w' ->
  WaterSim.pointer_active w = false -> WaterSim.pointer_active w' = false ->
  WaterSim.update t1 t2 t3 CONFIG w this = WaterSim.update t1' t2' t3' CONFIG w' this.
Proof.
  intros Hgx Hgy Hw Hh Ha Ha'. unfold WaterSim.update.
  rewrite Ha, Ha', Hgx, Hgy, Hw, Hh. reflexivity.
Qed.

(** X11.  With the pointer inactive [water.js] asks for no arctangent, cosine
    or sine.  After a [mouseup] or a [touchend], one call of [animate]
    gives the same particles wherever the pointer was left and whatever
    [Math.atan2], [Math.cos] and [Math.sin] would return; [mousemove]
    alone, with no button pressed, makes the pointer active, and a
    [touchmove] without a touch throws before it stores anything. *)
Theorem inactive_pointer_asks_no_angle t1 t2 t3 t1' t2' t3' CONFIG (w : WaterSim.World num)
    (particles : list (Water.Particle num)) :
  (forall w' : WaterSim.World num,
     WaterSim.gravity_x w = WaterSim.gravity_x w' ->
     WaterSim.gravity_y w = WaterSim.gravity_y w' ->
     WaterSim.width w = WaterSim.width w' -> WaterSim.height w = WaterSim.height w' ->
     WaterSim.animate t1 t2 t3 CONFIG (WaterSim.mouseup w) particles
     = WaterSim.animate t1' t2' t3' CONFIG (WaterSim.touchend w') particles) /\
  (forall cx cy,
     WaterSim.animate t1 t2 t3 CONFIG (WaterSim.mouseup (WaterSim.mousemove cx cy w)) particles
     = WaterSim.animate t1' t2' t3' CONFIG (WaterSim.mouseup w) particles) /\
  (forall cx cy, WaterSim.pointer_active (WaterSim.mousemove cx cy w) = true) /\
  WaterSim.touchmove [] w = None.
Proof.
  assert (Hall : forall w1 w2 : WaterSim.World num,
    WaterSim.gravity_x w1 = WaterSim.gravity_x w2 ->
    WaterSim.gravity_y w1 = WaterSim.gravity_y w2 ->
    WaterSim.width w1 = WaterSim.width w2 -> WaterSim.height w1 = WaterSim.height w2 ->
    WaterSim.pointer_active w1 = false -> WaterSim.pointer_active w2 = false ->
    WaterSim.animate t1 t2 t3 CONFIG w1 particles
    = WaterSim.animate t1' t2' t3' CONFIG w2 particles).
  { intros w1 w2 Hgx Hgy Hw Hh Ha Ha'. unfold WaterSim.animate.
    apply for_i_ext. intros i l _. unfold WaterSim.turn. cbv zeta.
    destruct (fold_left _ _ l !! i) as [p1|]; [|reflexivity].
    rewrite (update_inactive t1 t2 t3 t1' t2' t3' CONFIG w1 w2) by assumption.
    reflexivity. }
  split; [|split; [|split]].
  - intros w' Hgx Hgy Hw Hh. apply Hall; try assumption; reflexivity.
  - intros cx cy. apply Hall; reflexivity.
  - reflexivity.
  - reflexivity.
Qed.

End InactivePointer.

(** * The grid *)

Section GridRoundTrip.
Context {num : Type} `{Number num}.
Local Open Scope num_scope.

Lemma grid_push_nonempty (g : Grid num) k i :
  (forall k' l, g !! k' = Some l -> l <> []) ->
  forall k' l, grid_push g k i !! k' = Some l -> l <> [].
Proof.
  intros Hg k' l. unfold grid_push. destruct (decide (k' = k)) as [->|Hne].
  - rewrite lookup_insert_eq. intros [= <-]. destruct (default [] (g !! k)); discriminate.
  - rewrite lookup_insert_ne by congruence. apply Hg.
Qed.

Lemma buildGrid_nonempty CONFIG (p : Particles num) k l :
  buildGrid CONFIG p !! k = Some l -> l <> [].
Proof.
  revert k l. unfold buildGrid.
  apply (for_i_invariant (fun g : Grid num => forall k l, g !! k = Some l -> l <> [])).
  - intros i g _ Hg. apply grid_push_nonempty, Hg.
  - intros k l Hl. rewrite lookup_empty in Hl. discriminate.
Qed.

(** X12.  What is filed can be found, once, and nothing else can.  After the
    grid is built from the positions [p]: every particle [i] is listed in
    the cell of its own key; a cell lists only particles below
    [particleCount] whose key it is, each once and in increasing order; a
    key is present exactly when some particle has it, and then its cell is
    not empty (a lookup of any other key gives [undefined], which the scan
    skips). *)
Theorem grid_files_every_particle_once (CONFIG : Config num) (p : Particles num) :
  let g := buildGrid CONFIG p in
  (forall i, i < particleCount CONFIG -> i ∈ cell_of g (key_of CONFIG p i)) /\
  (forall k j, j ∈ cell_of g k -> j < particleCount CONFIG /\ key_of CONFIG p j = k) /\
  (forall k, cell_of g k =
             filter (fun i => key_of CONFIG p i = k) (seq 0 (particleCount CONFIG))) /\
  (forall k, NoDup (cell_of g k)) /\
  (forall k l, g !! k = Some l -> l <> [] /\ l = cell_of g k) /\
  (forall k, g !! k = None <->
             forall i, i < particleCount CONFIG -> key_of CONFIG p i <> k).
Proof.
  cbv zeta. split; [|split; [|split; [|split; [|split]]]].
  - intros i Hi. apply elem_of_cell_buildGrid. split; [assumption | reflexivity].
  - intros k j Hj. apply elem_of_cell_buildGrid in Hj. exact Hj.
  - intros k. apply cell_of_buildGrid.
  - intros k. apply NoDup_cell_buildGrid.
  - intros k l Hl. split; [eapply buildGrid_nonempty; eauto|].
    unfold cell_of. rewrite Hl. reflexivity.
  - intros k. split.
    + intros Hnone i Hi Hk.
      assert (Hin : i ∈ cell_of (buildGrid CONFIG p) k)
        by (apply elem_of_cell_buildGrid; split; assumption).
      unfold cell_of in Hin. rewrite Hnone in Hin. simpl in Hin.
      apply elem_of_nil in Hin. exact Hin.
    + intros Hno. destruct (buildGrid CONFIG p !! k) as [l|] eqn:Hl; [|reflexivity].
      exfalso. destruct l as [|j l]; [eapply buildGrid_nonempty; eauto|].
      assert (Hin : j ∈ cell_of (buildGrid CONFIG p) k).
      { unfold cell_of. rewrite Hl. simpl. left. }
      apply elem_of_cell_buildGrid in Hin as [Hj Hk]. exact (Hno j Hj Hk).
Qed.

End GridRoundTrip.

(** * The "High Performance" solver step against the others *)

Section SolverSteps.
Local Open Scope R_scope.

(** The offsets [-1, 0, 1] name the cells the counting loops name. *)
Lemma HighPerf_block_keys_exact (a b : Z) :
  HighPerf.block_keys (IZR a) (IZR b) = block_keys (IZR a) (IZR b).
Proof.
  rewrite block_keys_exact. unfold HighPerf.block_keys, key.
  cbn [mbind list_bind app]. rewrite lit_minus_1, lit_0, lit_1.
  cbn [nadd to_str R_Number].
  replace (IZR a + -1) with (IZR (a - 1)) by (rewrite minus_IZR; lra).
  replace (IZR b + -1) with (IZR (b - 1)) by (rewrite minus_IZR; lra).
  replace (IZR a + 0) with (IZR a) by lra. replace (IZR b + 0) with (IZR b) by lra.
  replace (IZR a + 1) with (IZR (a + 1)) by (rewrite plus_IZR; lra).
  replace (IZR b + 1) with (IZR (b + 1)) by (rewrite plus_IZR; lra).
  rewrite !ZfloorZ. reflexivity.
Qed.

Lemma HighPerf_keys_same (CONFIG : Config R) (x y : R) :
  HighPerf.block_keys (nfloor (ndiv x (GRID_SIZE CONFIG))) (nfloor (ndiv y (GRID_SIZE CONFIG)))
  = block_keys (nfloor (ndiv x (GRID_SIZE CONFIG))) (nfloor (ndiv y (GRID_SIZE CONFIG))).
Proof. cbn [nfloor R_Number]. apply HighPerf_block_keys_exact. Qed.

Lemma HighPerf_turn_same (CONFIG : Config R) (g : Grid R) i (p : Particles R) :
  relaxParticle CONFIG HighPerf.block_keys g i p = relaxParticle CONFIG block_keys g i p.
Proof. unfold relaxParticle. cbv zeta. rewrite HighPerf_keys_same. reflexivity. Qed.

Lemma HighPerf_relax_same (CONFIG : Config R) (g : Grid R) (p : Particles R) :
  relax CONFIG HighPerf.block_keys g p = relax CONFIG block_keys g p.
Proof. unfold relax. apply for_i_ext. intros i q _. apply HighPerf_turn_same. Qed.

(** X13.  One scan, two spellings.  In exact arithmetic the offset loops of the
    "High Performance" version, [(gx + dx) + "," + (gy + dy)] for [dx] and
    [dy] from -1 to 1, look up the same nine keys in the same order as the
    counting loops of the other versions, [x + "," + y] for [x] from
    [gx-1] to [gx+1]; so a relaxation turn, and a whole pass, is the same
    function of the grid and the particles in all four versions. *)
Theorem HighPerf_scans_the_same_block (CONFIG : Config R) (g : Grid R) (p : Particles R) :
  (forall x y : R,
     HighPerf.block_keys (nfloor (ndiv x (GRID_SIZE CONFIG))) (nfloor (ndiv y (GRID_SIZE CONFIG)))
     = block_keys (nfloor (ndiv x (GRID_SIZE CONFIG))) (nfloor (ndiv y (GRID_SIZE CONFIG)))) /\
  (forall x y : R,
     NoDup (HighPerf.block_keys (nfloor (ndiv x (GRID_SIZE CONFIG)))
                                (nfloor (ndiv y (GRID_SIZE CONFIG)))) /\
     length (HighPerf.block_keys (nfloor (ndiv x (GRID_SIZE CONFIG)))
                                 (nfloor (ndiv y (GRID_SIZE CONFIG)))) = 9%nat) /\
  (forall i, relaxParticle CONFIG HighPerf.block_keys g i p
             = relaxParticle CONFIG block_keys g i p) /\
  relax CONFIG HighPerf.block_keys g p = relax CONFIG block_keys g p.
Proof.
  split; [intros x y; apply HighPerf_keys_same|].
  split; [|split; [intros i; apply HighPerf_turn_same | apply HighPerf_relax_same]].
  intros x y. rewrite HighPerf_keys_same. cbn [nfloor R_Number]. split.
  - apply NoDup_block_keys.
  - rewrite block_keys_exact. reflexivity.
Qed.

(** [else if] does what the second [if] does when the interval is not
    empty: a coordinate put at [m] is not beyond [bound - m]. *)
Lemma clampParticle_else_same m bw bh i (p : Particles R) :
  m <= bw - m -> m <= bh - m ->
  clampParticle_else m bw bh i p = clampParticle m bw bh i p.
Proof.
  intros Hw Hh. unfold clampParticle_else, clampParticle. cbv zeta.
  cbn [nsub nlt R_Number].
  assert (Hx : (if Exact.ltb (get (particles_x p) i) m then set_x p i m
                else if Exact.ltb (bw - m) (get (particles_x p) i) then set_x p i (bw - m)
                else p)
               = (let p1 := if Exact.ltb (get (particles_x p) i) m then set_x p i m else p in
                  if Exact.ltb (bw - m) (get (particles_x p1) i)
                  then set_x p1 i (bw - m) else p1)).
  { cbv zeta. destruct (Exact.ltb (get (particles_x p) i) m) eqn:E; [|reflexivity].
    apply Exact.ltb_spec in E.
    destruct (Nat.lt_ge_cases i (length (particles_x p))) as [Hi|Hi].
    - cbn [particles_x set_x]. rewrite get_set_eq by exact Hi. cbn [fround R_Number].
      rewrite (proj2 (Exact.ltb_false (bw - m) m)) by lra. reflexivity.
    - assert (Hsame : set_x p i m = p).
      { unfold set_x, set. rewrite list_insert_ge by lia. destruct p; reflexivity. }
      rewrite Hsame. rewrite (proj2 (Exact.ltb_false (bw - m) (get (particles_x p) i))) by lra.
      reflexivity. }
  rewrite Hx. cbv zeta.
  set (q := if Exact.ltb (bw - m) _ then _ else _). clearbody q.
  destruct (Exact.ltb (get (particles_y q) i) m) eqn:E; [|reflexivity].
  apply Exact.ltb_spec in E.
  destruct (Nat.lt_ge_cases i (length (particles_y q))) as [Hi|Hi].
  - cbn [particles_y set_y]. rewrite get_set_eq by exact Hi. cbn [fround R_Number].
    rewrite (proj2 (Exact.ltb_false (bh - m) m)) by lra. reflexivity.
  - assert (Hsame : set_y q i m = q).
    { unfold set_y, set. rewrite list_insert_ge by lia. destruct q; reflexivity. }
    rewrite Hsame. rewrite (proj2 (Exact.ltb_false (bh - m) (get (particles_y q) i))) by lra.
    reflexivity.
Qed.

(** X14.  The "High Performance" solver step is a substep without the grid
    build.  In exact arithmetic and on a canvas at least [2 * radius] wide
    and high, one turn of its loop over [step] relaxes and clamps exactly
    as a substep of the other versions does, only with the grid it is
    given; when that grid is the one built from the current positions, as
    in the first turn of a frame, it is a substep of the other versions. *)
Theorem HighPerf_step_is_a_substep_on_the_given_grid (CONFIG : Config R) (env : Env R)
    (st : State R) :
  radius CONFIG <= width env - radius CONFIG ->
  radius CONFIG <= height env - radius CONFIG ->
  HighPerf.solveStep CONFIG env st =
    {| particles := enforceBoundaries CONFIG (width env) (height env)
                      (relax CONFIG block_keys (grid st) (particles st));
       grid := grid st |} /\
  (grid st = buildGrid CONFIG (particles st) ->
   HighPerf.solveStep CONFIG env st = substep CONFIG (width env) (height env) st).
Proof.
  intros Hw Hh.
  assert (Hstep : HighPerf.solveStep CONFIG env st =
    {| particles := enforceBoundaries CONFIG (width env) (height env)
                      (relax CONFIG block_keys (grid st) (particles st));
       grid := grid st |}).
  { unfold HighPerf.solveStep, enforceBoundaries.
    rewrite HighPerf_relax_same.
    f_equal. apply for_i_ext. intros i q _. apply clampParticle_else_same; assumption. }
  split; [exact Hstep|]. intros Hg. rewrite Hstep, Hg. reflexivity.
Qed.

End SolverSteps.

Lemma HighPerf_step_is_a_substep_on_the_given_grid_witness :
  let env := {| gravity_x := 0; gravity_y := 1; pointer_x := 0; pointer_y := 0;
                pointer_down := false; width := 800; height := 600; innerWidth := 800 |}%R in
  let st := {| particles := pair_particles; grid := buildGrid pair_config pair_particles |} in
  HighPerf.solveStep pair_config env st =
    {| particles := enforceBoundaries pair_config (width env) (height env)
                      (relax pair_config block_keys (grid st) (particles st));
       grid := grid st |} /\
  (grid st = buildGrid pair_config (particles st) ->
   HighPerf.solveStep pair_config env st = substep pair_config (width env) (height env) st).
Proof.
  apply (HighPerf_step_is_a_substep_on_the_given_grid pair_config
           {| gravity_x := 0; gravity_y := 1; pointer_x := 0; pointer_y := 0;
              pointer_down := false; width := 800; height := 600; innerWidth := 800 |}%R
           {| particles := pair_particles; grid := buildGrid pair_config pair_particles |}).
  - simpl. unfold Q2R. simpl. lra.
  - simpl. unfold Q2R. simpl. lra.
Defined.

(** * What a relaxation pass keeps *)

Section Centroid.
Local Open Scope R_scope.

(** The sum of the elements of an array. *)
Definition total (a : list R) : R := fold_right Rplus 0 a.

Lemma total_set (a : list R) j v :
  (j < length a)%nat -> total (set a j v) = total a - get a j + v.
Proof.
  unfold set, get. cbn [fround undefined R_Number]. revert j.
  induction a as [|c a IH]; intros j Hj; [simpl in Hj; lia|].
  destruct j as [|j]; simpl.
  - ring.
  - rewrite IH by (simpl in Hj; lia). ring.
Qed.

Lemma total_add (a : list R) j u :
  (j < length a)%nat -> total (set a j (nadd (get a j) u)) = total a + u.
Proof. intros Hj. rewrite total_set by exact Hj. cbn [nadd R_Number]. ring. Qed.

(** The push loop moves what it takes from the particle's own share. *)
Lemma push_neighbor_balance CONFIG P PNear (neighbors : list (Neighbor R)) n :
  Forall (fun e => (id e < n)%nat) neighbors ->
  forall (p : Particles R) dx dy,
    length (particles_x p) = n -> length (particles_y p) = n ->
    let '(q, dx', dy') := fold_left (push_neighbor CONFIG P PNear) neighbors (p, dx, dy) in
    total (particles_x q) + dx' = total (particles_x p) + dx /\
    total (particles_y q) + dy' = total (particles_y p) + dy /\
    length (particles_x q) = n /\ length (particles_y q) = n.
Proof.
  induction 1 as [|e es He _ IH]; intros p dx dy Hlx Hly; [repeat split; assumption|].
  cbn [fold_left]. unfold push_neighbor at 2. cbv zeta.
  set (ux := nmul (ndiv (n_dx e) (d e)) _). set (uy := nmul (ndiv (n_dy e) (d e)) _).
  set (p1 := set_y (set_x p (id e) _) (id e) _).
  specialize (IH p1 (nsub dx ux) (nsub dy uy)).
  destruct (fold_left _ es _) as [[q dx'] dy'].
  destruct IH as (Hx & Hy & Hlx' & Hly').
  - subst p1. cbn [particles_x set_x set_y]. rewrite length_set. exact Hlx.
  - subst p1. cbn [particles_y set_x set_y]. rewrite length_set. exact Hly.
  - rewrite Hx, Hy. subst p1. cbn [particles_x particles_y set_x set_y].
    rewrite !total_add by lia. cbn [nsub R_Number]. repeat split; try assumption; ring.
Qed.

Lemma relax_with_balance CONFIG (neighbors : list (Neighbor R)) i n (p : Particles R) :
  Forall (fun e => (id e < n)%nat) neighbors -> (i < n)%nat ->
  length (particles_x p) = n -> length (particles_y p) = n ->
  let q := relax_with CONFIG neighbors i p in
  total (particles_x q) = total (particles_x p) /\
  total (particles_y q) = total (particles_y p) /\
  length (particles_x q) = n /\ length (particles_y q) = n.
Proof.
  intros Hids Hi Hlx Hly. cbv zeta. unfold relax_with.
  destruct (densities CONFIG neighbors) as [rho rhoNear].
  pose proof (push_neighbor_balance CONFIG (pressure CONFIG rho) (nearPressure CONFIG rhoNear)
                neighbors n Hids p (lit 0) (lit 0) Hlx Hly) as Hb.
  destruct (fold_left _ neighbors _) as [[q dx] dy].
  destruct Hb as (Hx & Hy & Hlx' & Hly').
  cbn [particles_x particles_y set_x set_y]. rewrite !length_set.
  rewrite !total_add by lia. rewrite lit_0 in Hx, Hy.
  repeat split; try assumption; lra.
Qed.

Lemma found_are_indexed CONFIG (p p0 : Particles R) keys i px py :
  Forall (fun e => (id e < particleCount CONFIG)%nat)
         (findNeighbors CONFIG p (buildGrid CONFIG p0) keys i px py).
Proof.
  rewrite findNeighbors_filter. apply Forall_forall. intros e He.
  apply list_elem_of_In, in_map_iff in He as (j & <- & Hj).
  apply filter_In in Hj as [Hj _]. apply list_elem_of_In in Hj.
  cbn [id entry]. eapply candidates_indexed. exact Hj.
Qed.

(** X15.  Relaxation only moves particles against each other.  In exact
    arithmetic, with any grid built by a version and with either
    enumeration of the block, every turn of the relaxation loop, and so a
    whole pass, leaves the sum of all [x] and the sum of all [y]
    unchanged: what a neighbour is pushed by is taken from the particle
    whose turn it is.  (The boundary pass that follows does not keep
    them.) *)
Theorem relaxation_keeps_the_centroid (CONFIG : Config R) keys (p p0 : Particles R) :
  wf (particleCount CONFIG) p ->
  (forall i, (i < particleCount CONFIG)%nat ->
     total (particles_x (relaxParticle CONFIG keys (buildGrid CONFIG p0) i p))
       = total (particles_x p) /\
     total (particles_y (relaxParticle CONFIG keys (buildGrid CONFIG p0) i p))
       = total (particles_y p)) /\
  total (particles_x (relax CONFIG keys (buildGrid CONFIG p0) p)) = total (particles_x p) /\
  total (particles_y (relax CONFIG keys (buildGrid CONFIG p0) p)) = total (particles_y p).
Proof.
  intros Hwf.
  assert (Hturn : forall i q, (i < particleCount CONFIG)%nat ->
            length (particles_x q) = particleCount CONFIG ->
            length (particles_y q) = particleCount CONFIG ->
            let q' := relaxParticle CONFIG keys (buildGrid CONFIG p0) i q in
            total (particles_x q') = total (particles_x q) /\
            total (particles_y q') = total (particles_y q) /\
            length (particles_x q') = particleCount CONFIG /\
            length (particles_y q') = particleCount CONFIG).
  { intros i q Hi Hlx Hly. cbv zeta. unfold relaxParticle. cbv zeta.
    apply relax_with_balance; try assumption. apply found_are_indexed. }
  destruct Hwf as (Hlx & Hly & _). split.
  - intros i Hi. destruct (Hturn i p Hi Hlx Hly) as (Hx & Hy & _). split; assumption.
  - unfold relax.
    assert (Hall : let q := for_i (particleCount CONFIG)
                              (relaxParticle CONFIG keys (buildGrid CONFIG p0)) p in
                   total (particles_x q) = total (particles_x p) /\
                   total (particles_y q) = total (particles_y p) /\
                   length (particles_x q) = particleCount CONFIG /\
                   length (particles_y q) = particleCount CONFIG).
    { apply (for_i_invariant (fun q =>
        total (particles_x q) = total (particles_x p) /\
        total (particles_y q) = total (particles_y p) /\
        length (particles_x q) = particleCount CONFIG /\
        length (particles_y q) = particleCount CONFIG)); [|repeat split; assumption].
      intros i q Hi (Hx & Hy & Hqx & Hqy).
      destruct (Hturn i q Hi Hqx Hqy) as (Hx' & Hy' & Hqx' & Hqy').
      repeat split; congruence. }
    cbv zeta in Hall. destruct Hall as (Hx & Hy & _). split; assumption.
Qed.

End Centroid.

Lemma relaxation_keeps_the_centroid_witness :
  (forall i, i < particleCount loose_config ->
     total (particles_x (relaxParticle loose_config block_keys
                           (buildGrid loose_config loose_pair) i loose_pair))
       = total (particles_x loose_pair) /\
     total (particles_y (relaxParticle loose_config block_keys
                           (buildGrid loose_config loose_pair) i loose_pair))
       = total (particles_y loose_pair)) /\
  total (particles_x (relax loose_config block_keys (buildGrid loose_config loose_pair)
                        loose_pair)) = total (particles_x loose_pair) /\
  total (particles_y (relax loose_config block_keys (buildGrid loose_config loose_pair)
                        loose_pair)) = total (particles_y loose_pair).
Proof.
  apply (relaxation_keeps_the_centroid loose_config block_keys loose_pair loose_pair).
  repeat split.
Defined.

(** * A particle without a position *)

Section Lost.
Local Open Scope num_scope.

Lemma advance_keeps_nan j (p : Particles float) i :
  nan_pos p i -> nan_pos (advance j p) i.
Proof.
  intros [Hx Hy]. unfold nan_pos, advance.
  cbn [particles_x particles_y particles_vx particles_vy set_x set_y set_prevX set_prevY].
  split; apply NaN.add_keeps_nan; assumption.
Qed.

Lemma predict_turn_keeps_nan CONFIG env iR force ptx pty post j (p : Particles float) i :
  (forall k q, nan_pos q i -> nan_pos (post k q) i) ->
  nan_pos p i -> nan_pos (predict_turn CONFIG env iR force ptx pty post j p) i.
Proof.
  intros Hpost Hp. unfold predict_turn. apply Hpost, advance_keeps_nan.
  destruct (pointer_block_positions (pointer_down env) iR force ptx pty CONFIG env j p)
    as [Hx Hy].
  cbv zeta in Hx, Hy. unfold nan_pos. rewrite Hx, Hy. exact Hp.
Qed.

Lemma frame_keeps_nan update (CONFIG : Config float) env st i :
  In update versions -> nan_pos (particles st) i ->
  nan_pos (particles (update CONFIG env st)) i.
Proof.
  unfold versions. simpl. intros [<-|[<-|[<-|[<-|[]]]]] Hp.
  - unfold ARWater.updatePhysics. cbn [particles].
    destruct (updateVelocities_positions CONFIG
                (particles (substeps CONFIG (width env) (height env)
                   {| particles := ARWater.predict CONFIG env (particles st);
                      grid := grid st |}))) as (Hx & Hy & _).
    unfold nan_pos. rewrite Hx, Hy. apply substeps_keep_nan. cbn [particles].
    apply (for_i_invariant (fun q => nan_pos q i)); [|exact Hp].
    intros j q _ Hq.
    apply (predict_turn_keeps_nan CONFIG env (interactionRadius CONFIG) (lit 3)
             (pointer_x env) (pointer_y env) (fun _ q => q)); auto.
  - unfold Debug.updatePhysics. cbn [particles].
    destruct (updateVelocities_positions CONFIG
                (particles (substeps CONFIG (width env) (height env)
                   {| particles := Debug.predict CONFIG env (particles st);
                      grid := grid st |}))) as (Hx & Hy & _).
    unfold nan_pos. rewrite Hx, Hy. apply substeps_keep_nan. cbn [particles].
    apply (for_i_invariant (fun q => nan_pos q i)); [|exact Hp].
    intros j q _ Hq.
    apply (predict_turn_keeps_nan CONFIG env (interactionRadius CONFIG) (lit 4)
             (pointer_x env) (pointer_y env) (fun _ q => q)); auto.
  - unfold V5.updatePhysics. cbn [particles].
    destruct (updateVelocities_positions CONFIG
                (particles (substeps CONFIG (width env) (height env)
                   {| particles := V5.predict CONFIG env (particles st);
                      grid := grid st |}))) as (Hx & Hy & _).
    unfold nan_pos. rewrite Hx, Hy. apply substeps_keep_nan. cbn [particles].
    apply (for_i_invariant (fun q => nan_pos q i)); [|exact Hp].
    intros j q _ Hq.
    apply (predict_turn_keeps_nan CONFIG env
             (interactionRadius CONFIG * (width env / innerWidth env)) (lit 4)
             (pointer_x env * (width env / innerWidth env))
             (pointer_y env * (width env / innerWidth env)) (fun _ q => q)); auto.
  - unfold HighPerf.updatePhysics. cbn [particles].
    match goal with |- nan_pos (updateVelocities CONFIG ?q) i =>
      destruct (updateVelocities_positions CONFIG q) as (Hx & Hy & _) end.
    unfold nan_pos. rewrite Hx, Hy. apply solveSteps_keep_nan. cbn [particles].
    apply (for_i_invariant (fun q => nan_pos q i)); [|exact Hp].
    intros j q _ Hq.
    apply (predict_turn_keeps_nan CONFIG env (interactionRadius CONFIG) (lit 2)
             (pointer_x env) (pointer_y env)
             (fun k q => clampParticle (radius CONFIG) (width env) (height env) k q));
      [|exact Hq].
    intros k q' Hq'. apply clampParticle_keeps_nan, Hq'.
Qed.

(** X16.  A lost particle stays lost.  In binary64 and in every version: once
    both coordinates of a particle are NaN they are NaN after every later
    frame, whatever the gravity, the pointer and the canvas size become;
    no clamp, no pressure and no reset of the velocity brings it back, and
    after each of these frames its velocity is NaN too. *)
Theorem lost_particle_stays_lost update (CONFIG : Config float) (envs : list (Env float)) st i :
  In update versions ->
  nan_pos (particles st) i ->
  nan_pos (particles (fold_left (fun st env => update CONFIG env st) envs st)) i /\
  forall env, i < particleCount CONFIG ->
    let p' := particles (update CONFIG env
                (fold_left (fun st env => update CONFIG env st) envs st)) in
    get (particles_vx p') i = nan /\ get (particles_vy p') i = nan.
Proof.
  intros Hin Hp.
  assert (Hall : nan_pos (particles (fold_left (fun st env => update CONFIG env st) envs st)) i).
  { revert st Hp. induction envs as [|env envs IH]; intros st Hp; [exact Hp|].
    cbn [fold_left]. apply IH, frame_keeps_nan; assumption. }
  split; [exact Hall|]. intros env Hi. cbv zeta.
  set (st' := fold_left _ envs st) in *.
  destruct (versions_frame_shape update Hin CONFIG env st') as (body & p2 & Hsave & Hmove & Hres).
  pose proof (frame_keeps_nan update CONFIG env st' i Hin Hall) as Hafter.
  rewrite Hres in Hafter |- *.
  destruct (updateVelocities_positions CONFIG p2) as (Hx & Hy & _).
  unfold nan_pos in Hafter. rewrite Hx, Hy in Hafter.
  destruct (updateVelocities_nan CONFIG p2 i Hi Hafter) as (Hvx & Hvy & _).
  split; assumption.
Qed.

(** The neighbour test on a distance that is NaN. *)
Lemma is_neighbor_nan CONFIG (p : Particles float) i px py j :
  get (particles_x p) j = nan \/ get (particles_y p) j = nan \/ px = nan \/ py = nan ->
  is_neighbor CONFIG p i px py j = false.
Proof.
  intros Hnan. unfold is_neighbor. cbv zeta.
  assert (Hd2 : (get (particles_x p) j - px) * (get (particles_x p) j - px) +
                (get (particles_y p) j - py) * (get (particles_y p) j - py) = nan).
  { cbn [nsub nmul nadd float_Number].
    destruct Hnan as [Hn|[Hn|[Hn|Hn]]]; rewrite Hn.
    - rewrite NaN.sub_nan_l, NaN.mul_nan_l. apply NaN.add_nan_l.
    - rewrite NaN.sub_nan_l, NaN.mul_nan_l. apply NaN.add_nan_r.
    - rewrite sub_nan_r, NaN.mul_nan_l. apply NaN.add_nan_l.
    - rewrite sub_nan_r, NaN.mul_nan_l. apply NaN.add_nan_r. }
  rewrite Hd2. cbn [nlt float_Number]. rewrite NaN.ltb_nan_l.
  rewrite andb_false_l, andb_false_r. reflexivity.
Qed.

(** X17.  A particle with a NaN coordinate is out of the simulation.  In
    binary64, whatever the grid holds and whichever cells are scanned:
    nobody finds it as a neighbour, so it adds to no density and nothing
    is pushed by it, and it finds no neighbour itself, so its turn of the
    relaxation loop moves no other particle. *)
Theorem lost_particle_is_invisible (CONFIG : Config float) (p : Particles float)
    (g : Grid float) j :
  get (particles_x p) j = nan \/ get (particles_y p) j = nan ->
  (forall keys k px py, j ∉ map id (findNeighbors CONFIG p g keys k px py)) /\
  (forall keys, findNeighbors CONFIG p g keys j
                  (get (particles_x p) j) (get (particles_y p) j) = []) /\
  (forall keys_of k, k <> j ->
     get (particles_x (relaxParticle CONFIG keys_of g j p)) k = get (particles_x p) k /\
     get (particles_y (relaxParticle CONFIG keys_of g j p)) k = get (particles_y p) k).
Proof.
  intros Hj.
  assert (Hown : forall keys, findNeighbors CONFIG p g keys j
                                (get (particles_x p) j) (get (particles_y p) j) = []).
  { intros keys. rewrite findNeighbors_filter, filter_nobody; [reflexivity|].
    intros k _. apply is_neighbor_nan. tauto. }
  split; [|split; [exact Hown|]].
  - intros keys k px py Hin. rewrite findNeighbors_filter in Hin.
    rewrite <- list_fmap_compose in Hin. apply list_elem_of_fmap in Hin as (j' & Hid & Hin).
    cbn in Hid. subst j'. apply list_elem_of_In, filter_In in Hin as [_ Hn].
    rewrite is_neighbor_nan in Hn by tauto. discriminate.
  - intros keys_of k Hk. unfold relaxParticle. cbv zeta. rewrite Hown.
    unfold relax_with. cbn [densities fold_left].
    cbn [particles_x particles_y set_x set_y].
    rewrite !get_set_ne by congruence. split; reflexivity.
Qed.

End Lost.

Lemma lost_particle_stays_lost_witness :
  let st := ARWater.updatePhysics demo_config touch_env demo_state in
  nan_pos (particles (fold_left (fun st env => ARWater.updatePhysics demo_config env st)
                        [demo_env; touch_env] st)) 0 /\
  forall env, 0 < particleCount demo_config ->
    let p' := particles (ARWater.updatePhysics demo_config env
                (fold_left (fun st env => ARWater.updatePhysics demo_config env st)
                   [demo_env; touch_env] st)) in
    get (particles_vx p') 0 = nan /\ get (particles_vy p') 0 = nan.
Proof.
  apply (lost_particle_stays_lost ARWater.updatePhysics demo_config [demo_env; touch_env]
           (ARWater.updatePhysics demo_config touch_env demo_state) 0).
  - left. reflexivity.
  - split; vm_compute; reflexivity.
Defined.

Lemma lost_particle_is_invisible_witness :
  let p := particles (ARWater.updatePhysics demo_config touch_env demo_state) in
  let g := grid (ARWater.updatePhysics demo_config touch_env demo_state) in
  (forall keys k px py, 0 ∉ map id (findNeighbors demo_config p g keys k px py)) /\
  (forall keys, findNeighbors demo_config p g keys 0
                  (get (particles_x p) 0) (get (particles_y p) 0) = []) /\
  (forall keys_of k, k <> 0 ->
     get (particles_x (relaxParticle demo_config keys_of g 0 p)) k = get (particles_x p) k /\
     get (particles_y (relaxParticle demo_config keys_of g 0 p)) k = get (particles_y p) k).
Proof.
  apply (lost_particle_is_invisible demo_config
           (particles (ARWater.updatePhysics demo_config touch_env demo_state))
           (grid (ARWater.updatePhysics demo_config touch_env demo_state)) 0).
  left. vm_compute. reflexivity.
Defined.

(** * The counting loop of the scan *)

Section Counting.
Local Open Scope num_scope.

(** X18.  A counter that [x++] does not change never passes the bound.  In
    binary64, when [x + 1] is [x] again (an infinity, or a number from
    [2^53] on) and [x <= hi] holds, the loop
    [for (...; x <= hi; x++)] takes every turn it is allowed: with any
    number of turns as a limit its values are that many times [x], so the
    loop itself never ends.  (The offset loops of the "High Performance"
    version count from -1 to 1 and always make three turns.) *)
Theorem stuck_counter_never_passes (x hi : float) (fuel : nat) :
  x + lit 1 = x -> (x <=? hi) = true ->
  count_up fuel x hi = replicate fuel x /\
  length (count_up fuel x hi) = fuel.
Proof.
  intros Hstuck Hle.
  assert (Hall : count_up fuel x hi = replicate fuel x).
  { induction fuel as [|fuel IH]; [reflexivity|].
    cbn [count_up replicate]. rewrite Hle, Hstuck, IH. reflexivity. }
  split; [exact Hall|]. rewrite Hall. apply length_replicate.
Qed.

End Counting.

Lemma stuck_counter_never_passes_witness :
  count_up 1000 0x1p53%float 0x1p53%float = replicate 1000 0x1p53%float /\
  length (count_up 1000 0x1p53%float 0x1p53%float) = 1000.
Proof.
  apply (stuck_counter_never_passes 0x1p53%float 0x1p53%float 1000).
  - vm_compute. reflexivity.
  - vm_compute. reflexivity.
Defined.

(** ** When the counting loops end *)

Section LoopsEnd.
Context {num : Type} `{Number num}.
Local Open Scope num_scope.

(** A loop that is over after [n] turns has the same values with any
    larger number of turns allowed: they are the values of the loop. *)
Lemma count_up_ended (n fuel : nat) (lo hi : num) :
  count_ends n lo hi = true -> n <= fuel -> count_up fuel lo hi = count_up n lo hi.
Proof.
  revert fuel lo. induction n as [|n IH]; intros fuel lo Hend Hfuel.
  - cbn [count_ends] in Hend. destruct (lo <=? hi) eqn:Hle; [discriminate|].
    destruct fuel; cbn [count_up]; rewrite ?Hle; reflexivity.
  - cbn [count_ends] in Hend. destruct fuel as [|fuel]; [lia|]. cbn [count_up].
    destruct (lo <=? hi); [|reflexivity].
    rewrite (IH fuel) by (assumption || lia). reflexivity.
Qed.

Lemma around_is_the_loop (g : num) (fuel : nat) :
  count_ends 3 (g - lit 1) (g + lit 1) = true -> 3 <= fuel ->
  count_up fuel (g - lit 1) (g + lit 1) = around g.
Proof. intros Hend Hfuel. apply count_up_ended; assumption. Qed.

Lemma block_keys_is_the_scan (gx gy : num) (fuel : nat) :
  scan_ends gx gy = true -> 3 <= fuel -> block_keys_upto fuel gx gy = block_keys gx gy.
Proof.
  unfold scan_ends. intros [Hx Hy]%andb_true_iff Hfuel. unfold block_keys_upto, block_keys.
  rewrite (around_is_the_loop gx fuel Hx Hfuel).
  destruct (around gx) as [|x xs] eqn:Hxs; [reflexivity|].
  rewrite (around_is_the_loop gy fuel Hy Hfuel). reflexivity.
Qed.

(** A loop that carries a test along: its state is that of the loop
    alone, and the test holds at the end only if it held at every turn. *)
Lemma for_i_tested {A} n (f : nat -> A -> A) (c : nat -> A -> bool) (a : A) (b : bool) :
  let tested := for_i n (fun i (acc : A * bool) => (f i (fst acc), snd acc && c i (fst acc)))
                  (a, b) in
  fst tested = for_i n f a /\
  (snd tested = true -> b = true /\ forall i, i < n -> c i (for_i i f a) = true).
Proof.
  induction n as [|n IH]; cbv zeta.
  - split; [reflexivity|]. intros Hb. split; [exact Hb | intros i Hi; lia].
  - rewrite !for_i_S. cbv zeta in IH. destruct IH as [Hfst Hsnd].
    cbn [fst snd]. rewrite Hfst. split; [reflexivity|].
    intros [Hok Hc]%andb_true_iff. destruct (Hsnd Hok) as [Hb Hall].
    split; [exact Hb|]. intros i Hi. destruct (decide (i = n)) as [->|Hne].
    + exact Hc.
    + apply Hall. lia.
Qed.

Lemma for_i_same {A} n (f f' : nat -> A -> A) (a : A) :
  (forall i, i < n -> f' i (for_i i f a) = f i (for_i i f a)) ->
  for_i n f' a = for_i n f a.
Proof.
  induction n as [|n IH]; intros Hsame; [reflexivity|].
  rewrite !for_i_S, IH by (intros i Hi; apply Hsame; lia). apply Hsame. lia.
Qed.

(** A pass whose scans all end is the pass of the loops themselves. *)
Lemma relax_returned (CONFIG : Config num) (g : Grid num) (p : Particles num) (fuel : nat) :
  relax_returns CONFIG g p = true -> 3 <= fuel ->
  relax CONFIG (block_keys_upto fuel) g p = relax CONFIG block_keys g p.
Proof.
  intros Hret Hfuel. unfold relax_returns in Hret.
  destruct (for_i_tested (particleCount CONFIG) (relaxParticle CONFIG block_keys g)
              (fun i q => scan_ends (nfloor (get (particles_x q) i / GRID_SIZE CONFIG))
                                    (nfloor (get (particles_y q) i / GRID_SIZE CONFIG)))
              p true) as [_ Hall].
  cbv zeta in Hall. destruct (Hall Hret) as [_ Hends].
  unfold relax. apply for_i_same. intros i Hi. pose proof (Hends i Hi) as Hend.
  set (q := for_i i (relaxParticle CONFIG block_keys g) p) in *.
  unfold relaxParticle. cbv zeta.
  rewrite (block_keys_is_the_scan _ _ fuel Hend Hfuel). reflexivity.
Qed.

(** A substep loop that returns gives the state [substeps] gives, however
    many turns the counting loops are allowed from three on. *)
Lemma substeps_returned (CONFIG : Config num) (bw bh : num) (st : State num) (fuel : nat) :
  substeps_return CONFIG bw bh st = true -> 3 <= fuel ->
  substeps_upto fuel CONFIG bw bh st = substeps CONFIG bw bh st.
Proof.
  intros Hret Hfuel. unfold substeps_return in Hret.
  destruct (for_i_tested (subSteps CONFIG) (fun _ => substep CONFIG bw bh)
              (fun _ s => relax_returns CONFIG (buildGrid CONFIG (particles s)) (particles s))
              st true) as [_ Hall].
  cbv zeta in Hall. destruct (Hall Hret) as [_ Hends].
  unfold substeps_upto, substeps. apply for_i_same. intros i Hi.
  pose proof (Hends i Hi) as Hend.
  set (s := for_i i (fun _ => substep CONFIG bw bh) st) in *.
  unfold substep_upto, substep.
  rewrite (relax_returned _ _ _ fuel Hend Hfuel). reflexivity.
Qed.

End LoopsEnd.

Section LoopsEndExact.
Local Open Scope R_scope.

Lemma count_ends_exact (g : R) : count_ends 3 (nsub g (lit 1)) (nadd g (lit 1)) = true.
Proof.
  rewrite lit_1. cbn [count_ends nsub nadd R_Number]. rewrite lit_1.
  rewrite !nle_true by lra. rewrite nle_false by lra. reflexivity.
Qed.

Lemma scan_ends_exact (gx gy : R) : scan_ends gx gy = true.
Proof. unfold scan_ends. rewrite !count_ends_exact. destruct (around gx); reflexivity. Qed.

Lemma relax_returns_exact (CONFIG : Config R) g p : relax_returns CONFIG g p = true.
Proof.
  unfold relax_returns.
  apply (for_i_invariant (fun acc : Particles R * bool => snd acc = true)); [|reflexivity].
  intros i acc _ Hok. cbn [snd]. rewrite Hok, scan_ends_exact. reflexivity.
Qed.

Lemma substeps_return_exact (CONFIG : Config R) bw bh st :
  substeps_return CONFIG bw bh st = true.
Proof.
  unfold substeps_return.
  apply (for_i_invariant (fun acc : State R * bool => snd acc = true)); [|reflexivity].
  intros i acc _ Hok. cbn [snd]. rewrite Hok, relax_returns_exact. reflexivity.
Qed.

(** In exact arithmetic every frame returns. *)
Lemma frame_returns_exact update returns (CONFIG : Config R) env st :
  In (update, returns) returning_versions -> returns CONFIG env st = true.
Proof.
  unfold returning_versions. simpl.
  intros [[= <- <-]|[[= <- <-]|[[= <- <-]|[[= <- <-]|[]]]]];
    try apply substeps_return_exact; reflexivity.
Qed.

End LoopsEndExact.

(** * Where a frame leaves the particles *)

Section FrameEnd.
Context {num : Type} `{Number num}.
Local Open Scope num_scope.

(** [else if] on one coordinate, stores included. *)
Definition clamp_else_value (m bound c : num) : num :=
  if c <? m then fround m else if c >? bound - m then fround (bound - m) else c.

Lemma clampParticle_else_value m bw bh i (p : Particles num) :
  i < length (particles_x p) -> i < length (particles_y p) ->
  get (particles_x (clampParticle_else m bw bh i p)) i
    = clamp_else_value m bw (get (particles_x p) i) /\
  get (particles_y (clampParticle_else m bw bh i p)) i
    = clamp_else_value m bh (get (particles_y p) i).
Proof.
  intros Hx Hy. unfold clampParticle_else, clamp_else_value. cbv zeta.
  repeat match goal with
  | |- context [if ?b then _ else _] =>
      lazymatch b with
      | context [if _ then _ else _] => fail
      | _ => destruct b eqn:?
      end;
      cbn [particles_x particles_y set_x set_y];
      rewrite ?get_set_eq by (rewrite ?length_set; assumption)
  end; split; reflexivity.
Qed.

Lemma clamp_else_loop_value CONFIG bw bh (p : Particles num) i :
  wf (particleCount CONFIG) p -> i < particleCount CONFIG ->
  let q := for_i (particleCount CONFIG) (clampParticle_else (radius CONFIG) bw bh) p in
  get (particles_x q) i = clamp_else_value (radius CONFIG) bw (get (particles_x p) i) /\
  get (particles_y q) i = clamp_else_value (radius CONFIG) bh (get (particles_y p) i).
Proof.
  intros Hwf Hi. cbv zeta.
  set (body := clampParticle_else (radius CONFIG) bw bh).
  assert (Hloc : forall j, local_at j (body j)) by (intros j; apply clampParticle_else_local).
  pose proof (for_i_after _ body p i Hloc Hi) as Hafter.
  pose proof (for_i_before i body p i Hloc (Nat.le_refl i)) as Hbefore.
  assert (Hwf' : wf (particleCount CONFIG) (for_i i body p)) by (apply for_i_wf; assumption).
  destruct Hwf' as (Hlx & Hly & _).
  unfold at_index in Hafter, Hbefore.
  injection Hafter as Hax Hay _ _ _ _. injection Hbefore as Hbx Hby _ _ _ _.
  rewrite Hax, Hay. unfold body at 1 3.
  destruct (clampParticle_else_value (radius CONFIG) bw bh i (for_i i body p)) as [-> ->];
    [lia | lia |].
  rewrite Hbx, Hby. split; reflexivity.
Qed.

(** The last thing a substep loop with at least one turn does to the
    positions is a boundary pass over well-formed arrays. *)
Lemma substeps_end CONFIG bw bh (st : State num) :
  0 < subSteps CONFIG -> wf (particleCount CONFIG) (particles st) ->
  exists relaxed, wf (particleCount CONFIG) relaxed /\
    moves_only (particles st) relaxed /\
    particles (substeps CONFIG bw bh st) = enforceBoundaries CONFIG bw bh relaxed.
Proof.
  intros Hk Hwf. unfold substeps.
  destruct (subSteps CONFIG) as [|k]; [lia|]. rewrite for_i_S.
  set (st1 := for_i k (fun _ => substep CONFIG bw bh) st).
  assert (Hm1 : moves_only (particles st) (particles st1)).
  { subst st1. apply (for_i_invariant (fun s => moves_only (particles st) (particles s)));
      [|apply moves_only_refl].
    intros j s _ Hs. eapply moves_only_trans; [exact Hs | apply substep_moves_only]. }
  exists (relax CONFIG block_keys (buildGrid CONFIG (particles st1)) (particles st1)).
  assert (Hm2 : moves_only (particles st)
                  (relax CONFIG block_keys (buildGrid CONFIG (particles st1)) (particles st1))).
  { eapply moves_only_trans; [exact Hm1 | apply relax_moves_only]. }
  split; [eapply wf_moves_only; eauto|]. split; [exact Hm2 | reflexivity].
Qed.

Lemma solveSteps_end CONFIG env (st : State num) :
  0 < subSteps CONFIG -> wf (particleCount CONFIG) (particles st) ->
  exists relaxed, wf (particleCount CONFIG) relaxed /\
    moves_only (particles st) relaxed /\
    particles (for_i (subSteps CONFIG) (fun _ => HighPerf.solveStep CONFIG env) st)
    = for_i (particleCount CONFIG)
        (clampParticle_else (radius CONFIG) (width env) (height env)) relaxed.
Proof.
  intros Hk Hwf.
  destruct (subSteps CONFIG) as [|k]; [lia|]. rewrite for_i_S.
  set (st1 := for_i k (fun _ => HighPerf.solveStep CONFIG env) st).
  assert (Hm1 : moves_only (particles st) (particles st1)).
  { subst st1. apply (for_i_invariant (fun s => moves_only (particles st) (particles s)));
      [|apply moves_only_refl].
    intros j s _ Hs. eapply moves_only_trans; [exact Hs|].
    unfold HighPerf.solveStep; simpl.
    eapply moves_only_trans; [apply relax_moves_only|].
    apply moves_only_for_i. intros i q. apply clampParticle_else_moves_only. }
  exists (relax CONFIG HighPerf.block_keys (grid st1) (particles st1)).
  assert (Hm2 : moves_only (particles st)
                  (relax CONFIG HighPerf.block_keys (grid st1) (particles st1))).
  { eapply moves_only_trans; [exact Hm1 | apply relax_moves_only]. }
  split; [eapply wf_moves_only; eauto|]. split; [exact Hm2 | reflexivity].
Qed.

(** Every version ends a frame that has a substep with a clamp of each
    coordinate, by [if]/[if] or by [if]/[else if]; the arrays keep their
    length. *)
Lemma frame_ends_with_a_clamp update (CONFIG : Config num) env st i :
  In update versions ->
  wf (particleCount CONFIG) (particles st) -> i < particleCount CONFIG ->
  0 < subSteps CONFIG ->
  let p' := particles (update CONFIG env st) in
  wf (particleCount CONFIG) p' /\
  exists cx cy,
    (get (particles_x p') i = clamp_value (radius CONFIG) (width env) cx \/
     get (particles_x p') i = clamp_else_value (radius CONFIG) (width env) cx) /\
    (get (particles_y p') i = clamp_value (radius CONFIG) (height env) cy \/
     get (particles_y p') i = clamp_else_value (radius CONFIG) (height env) cy).
Proof.
  intros Hin Hwf Hi Hk. cbv zeta.
  assert (Hwf' : wf (particleCount CONFIG) (particles (update CONFIG env st))).
  { destruct (versions_frame_shape update Hin CONFIG env st)
      as (body & p2 & Hsave & Hmove & Hres).
    rewrite Hres. unfold updateVelocities.
    apply for_i_wf; [apply updateVelocity_local|].
    eapply wf_moves_only; [exact Hmove|]. apply for_i_wf; [apply Hsave | exact Hwf]. }
  split; [exact Hwf'|].
  unfold versions in Hin. simpl in Hin. destruct Hin as [<-|[<-|[<-|[<-|[]]]]].
  - unfold ARWater.updatePhysics. cbn [particles].
    destruct (substeps_end CONFIG (width env) (height env)
                {| particles := ARWater.predict CONFIG env (particles st); grid := grid st |} Hk)
      as (relaxed & Hwr & _ & Hend).
    { cbn [particles]. apply for_i_wf; [apply ARWater_saves | exact Hwf]. }
    destruct (updateVelocities_positions CONFIG
                (particles (substeps CONFIG (width env) (height env)
                   {| particles := ARWater.predict CONFIG env (particles st);
                      grid := grid st |}))) as (-> & -> & _).
    rewrite Hend.
    destruct (enforceBoundaries_value CONFIG (width env) (height env) relaxed i Hwr Hi)
      as [-> ->]. do 2 eexists. split; left; reflexivity.
  - unfold Debug.updatePhysics. cbn [particles].
    destruct (substeps_end CONFIG (width env) (height env)
                {| particles := Debug.predict CONFIG env (particles st); grid := grid st |} Hk)
      as (relaxed & Hwr & _ & Hend).
    { cbn [particles]. apply for_i_wf; [apply Debug_saves | exact Hwf]. }
    destruct (updateVelocities_positions CONFIG
                (particles (substeps CONFIG (width env) (height env)
                   {| particles := Debug.predict CONFIG env (particles st);
                      grid := grid st |}))) as (-> & -> & _).
    rewrite Hend.
    destruct (enforceBoundaries_value CONFIG (width env) (height env) relaxed i Hwr Hi)
      as [-> ->]. do 2 eexists. split; left; reflexivity.
  - unfold V5.updatePhysics. cbn [particles]. cbv zeta.
    destruct (substeps_end CONFIG (width env) (height env)
                {| particles := V5.predict CONFIG env (particles st); grid := grid st |} Hk)
      as (relaxed & Hwr & _ & Hend).
    { cbn [particles]. apply for_i_wf; [apply V5_saves | exact Hwf]. }
    destruct (updateVelocities_positions CONFIG
                (particles (substeps CONFIG (width env) (height env)
                   {| particles := V5.predict CONFIG env (particles st);
                      grid := grid st |}))) as (-> & -> & _).
    rewrite Hend.
    destruct (enforceBoundaries_value CONFIG (width env) (height env) relaxed i Hwr Hi)
      as [-> ->]. do 2 eexists. split; left; reflexivity.
  - unfold HighPerf.updatePhysics. cbn [particles]. cbv zeta.
    set (st0 := {| particles := HighPerf.predict CONFIG env (particles st);
                   grid := buildGrid CONFIG (HighPerf.predict CONFIG env (particles st)) |}).
    destruct (solveSteps_end CONFIG env st0 Hk) as (relaxed & Hwr & _ & Hend).
    { subst st0. cbn [particles]. apply for_i_wf; [apply HighPerf_saves | exact Hwf]. }
    destruct (updateVelocities_positions CONFIG
                (particles (for_i (subSteps CONFIG)
                              (fun _ => HighPerf.solveStep CONFIG env) st0)))
      as (-> & -> & _).
    rewrite Hend.
    destruct (clamp_else_loop_value CONFIG (width env) (height env) relaxed i Hwr Hi)
      as [-> ->]. do 2 eexists. split; right; reflexivity.
Qed.

End FrameEnd.

Section InsideOrLost.
Local Open Scope num_scope.

Lemma nan_or_number (c : float) : c = nan \/ Order.number c.
Proof.
  destruct (is_nan c) eqn:E; [left|right; exact E].
  apply Prim2SF_inj. rewrite NaN.Prim2SF_nan.
  destruct (decide (Prim2SF c = S754_nan)) as [Hc|Hc]; [exact Hc|].
  apply Order.number_spec in Hc. unfold Order.number in Hc. congruence.
Qed.

(** Either clamp leaves NaN as it is and puts a number inside. *)
Lemma clamp_lands (m bound c c' : float) :
  fround m = m -> fround (bound - m) = bound - m -> (m <=? bound - m) = true ->
  c' = clamp_value m bound c \/ c' = clamp_else_value m bound c ->
  c' = nan \/ ((m <=? c') = true /\ (c' <=? bound - m) = true).
Proof.
  intros Hm Hb Hmb Hc'.
  destruct (nan_or_number c) as [->|Hc].
  - left. destruct Hc' as [->| ->]; unfold clamp_value, clamp_else_value; cbv zeta;
      cbn [nlt float_Number]; rewrite ?NaN.ltb_nan_l, ?NaN.ltb_nan_r; reflexivity.
  - right. destruct Hc' as [->| ->].
    + apply clamp_value_contains; assumption.
    + unfold clamp_else_value. rewrite Hm, Hb.
      destruct (Order.leb_number _ _ Hmb) as [Nm Nb].
      change (m <=? bound - m) with (PrimFloat.leb m (bound - m)) in Hmb.
      destruct (c <? m) eqn:E1.
      * split; [apply Order.leb_refl; exact Nm | exact Hmb].
      * destruct (bound - m <? c) eqn:E2.
        -- split; [exact Hmb | apply Order.leb_refl; exact Nb].
        -- split; apply Order.not_ltb_leb; assumption.
Qed.

Lemma returning_versions_frames {num : Type} `{Number num} update returns :
  In (update, returns) (returning_versions (num := num)) -> In update versions.
Proof.
  unfold returning_versions, versions. simpl.
  intros [[= <- <-]|[[= <- <-]|[[= <- <-]|[[= <- <-]|[]]]]]; auto.
Qed.

(** X19.  Inside the box, or lost.  In binary64 and in every version, a frame
    that returns and has at least one substep, on a canvas where [radius],
    [width - radius] and [height - radius] are binary32 values and leave a
    non-empty interval, ends with each coordinate of each particle either
    NaN or within [[radius, bound - radius]]: there is no third outcome,
    such as a position off the canvas.  The six arrays keep their
    length.  A frame returns when the counting loops of its scans end,
    which [returns] tests ([substeps_returned]: the state is then the
    same with any number of turns allowed to them); the frame of the
    "High Performance" version, which counts offsets, always does. *)
Theorem frame_ends_inside_or_lost update returns (CONFIG : Config float) env st i :
  In (update, returns) returning_versions ->
  returns CONFIG env st = true ->
  wf (particleCount CONFIG) (particles st) -> i < particleCount CONFIG ->
  0 < subSteps CONFIG ->
  let m := radius CONFIG in
  fround m = m -> fround (width env - m) = width env - m ->
  fround (height env - m) = height env - m ->
  (m <=? width env - m) = true -> (m <=? height env - m) = true ->
  let p' := particles (update CONFIG env st) in
  wf (particleCount CONFIG) p' /\
  (get (particles_x p') i = nan \/
   ((m <=? get (particles_x p') i) = true /\ (get (particles_x p') i <=? width env - m) = true)) /\
  (get (particles_y p') i = nan \/
   ((m <=? get (particles_y p') i) = true /\ (get (particles_y p') i <=? height env - m) = true)).
Proof.
  intros Hin _ Hwf Hi Hk m Hm Hbw Hbh Hmw Hmh p'. subst p'.
  apply returning_versions_frames in Hin.
  destruct (frame_ends_with_a_clamp update CONFIG env st i Hin Hwf Hi Hk)
    as (Hwf' & cx & cy & Hx & Hy).
  split; [exact Hwf'|]. split.
  - apply (clamp_lands m (width env) cx); assumption.
  - apply (clamp_lands m (height env) cy); assumption.
Qed.

End InsideOrLost.

Lemma frame_ends_inside_or_lost_witness :
  let m := radius demo_config in
  let p' := particles (ARWater.updatePhysics demo_config touch_env demo_state) in
  wf (particleCount demo_config) p' /\
  (get (particles_x p') 1 = nan \/
   (nle m (get (particles_x p') 1) = true /\
    nle (get (particles_x p') 1) (nsub (width touch_env) m) = true)) /\
  (get (particles_y p') 1 = nan \/
   (nle m (get (particles_y p') 1) = true /\
    nle (get (particles_y p') 1) (nsub (height touch_env) m) = true)).
Proof.
  apply (frame_ends_inside_or_lost ARWater.updatePhysics ARWater.returns
           demo_config touch_env demo_state 1).
  - left. reflexivity.
  - vm_compute. reflexivity.
  - repeat split.
  - unfold demo_config; simpl; lia.
  - unfold demo_config; simpl; lia.
  - vm_compute. reflexivity.
  - vm_compute. reflexivity.
  - vm_compute. reflexivity.
  - vm_compute. reflexivity.
  - vm_compute. reflexivity.
Defined.

(** A particle thrown at [2^67] a frame: PREDICT puts its cell coordinate
    beyond [2^53], the counting loops of its scan stay on their first
    value, and the frame of the three versions that count does not
    return. *)
Definition thrown_state : State float := {|
  particles := {| particles_x := [100; 110]%float; particles_y := [100; 105]%float;
                  particles_vx := [0x1p67; 0]%float; particles_vy := [0; 0]%float;
                  particles_prevX := [100; 110]%float; particles_prevY := [100; 105]%float |};
  grid := ∅ |}.

Example thrown_particle_frame_does_not_return :
  ARWater.returns demo_config demo_env thrown_state = false /\
  Debug.returns demo_config demo_env thrown_state = false /\
  V5.returns demo_config demo_env thrown_state = false /\
  ARWater.returns demo_config demo_env demo_state = true.
Proof. vm_compute. repeat split. Qed.

Section Speed.
Local Open Scope R_scope.

Lemma clamp_lands_exact (m bound c c' : R) :
  m <= bound - m ->
  c' = clamp_value m bound c \/ c' = clamp_else_value m bound c ->
  m <= c' <= bound - m.
Proof.
  intros Hmb [->| ->]; unfold clamp_value, clamp_else_value; cbv zeta;
    cbn [nlt nsub fround R_Number]; unfold Exact.ltb;
    repeat (destruct (Rlt_dec _ _)); lra.
Qed.

(** X20.  The walls bound the speed.  In exact arithmetic and in every version,
    on a canvas at least [2 * radius] wide and high, a frame with at least
    one substep ends with every particle within [[radius, bound - radius]]
    on both axes; and since the velocity is rebuilt from the distance
    covered, a particle that started the frame inside that interval ends
    it with a velocity component of at most [|damping| * (bound - 2 *
    radius)], however strong the gravity, the pointer push and the
    pressure were. *)
Theorem walls_bound_the_speed update (CONFIG : Config R) env st i :
  In update versions ->
  wf (particleCount CONFIG) (particles st) -> (i < particleCount CONFIG)%nat ->
  (0 < subSteps CONFIG)%nat ->
  let m := radius CONFIG in
  m <= width env - m -> m <= height env - m ->
  let p := particles st in
  let p' := particles (update CONFIG env st) in
  m <= get (particles_x p') i <= width env - m /\
  m <= get (particles_y p') i <= height env - m /\
  (m <= get (particles_x p) i <= width env - m ->
   Rabs (get (particles_vx p') i) <= Rabs (damping CONFIG) * (width env - 2 * m)) /\
  (m <= get (particles_y p) i <= height env - m ->
   Rabs (get (particles_vy p') i) <= Rabs (damping CONFIG) * (height env - 2 * m)).
Proof.
  intros Hin Hwf Hi Hk m Hw Hh p p'. subst p p'.
  destruct (frame_ends_with_a_clamp update CONFIG env st i Hin Hwf Hi Hk)
    as (_ & cx & cy & Hx & Hy).
  pose proof (clamp_lands_exact m (width env) cx _ Hw Hx) as Hinx.
  pose proof (clamp_lands_exact m (height env) cy _ Hh Hy) as Hiny.
  split; [exact Hinx|]. split; [exact Hiny|].
  destruct (versions_frame_shape update Hin CONFIG env st) as (body & p2 & Hsave & Hmove & Hres).
  rewrite Hres in *.
  assert (Hwf1 : wf (particleCount CONFIG) (for_i (particleCount CONFIG) body (particles st))).
  { apply for_i_wf; [apply Hsave | exact Hwf]. }
  assert (Hwf2 : wf (particleCount CONFIG) p2) by (eapply wf_moves_only; eauto).
  destruct (updateVelocities_spec CONFIG p2 i Hwf2 Hi) as [Hvx Hvy].
  destruct (updateVelocities_positions CONFIG p2) as (Hpx & Hpy & _ & _).
  destruct (saves_position_loop _ body (particles st) i Hsave Hwf Hi) as [HsX HsY].
  destruct Hmove as (_ & _ & HmX & HmY & _).
  rewrite Hvx, Hvy. rewrite Hpx in Hinx. rewrite Hpy in Hiny.
  rewrite HmX, HmY, HsX, HsY. cbn [fround nsub nmul R_Number].
  split; intros Hstart; rewrite Rabs_mult, Rmult_comm;
    apply Rmult_le_compat_l; try apply Rabs_pos; apply Rabs_le; lra.
Qed.

End Speed.

Lemma walls_bound_the_speed_witness :
  let env := {| gravity_x := 0; gravity_y := 1; pointer_x := 0; pointer_y := 0;
                pointer_down := false; width := 800; height := 600; innerWidth := 800 |}%R in
  let st := {| particles := pair_particles; grid := ∅ |} in
  let m := radius pair_config in
  let p := particles st in
  let p' := particles (V5.updatePhysics pair_config env st) in
  (m <= get (particles_x p') 0 <= width env - m)%R /\
  (m <= get (particles_y p') 0 <= height env - m)%R /\
  ((m <= get (particles_x p) 0 <= width env - m)%R ->
   (Rabs (get (particles_vx p') 0) <= Rabs (damping pair_config) * (width env - 2 * m))%R) /\
  ((m <= get (particles_y p) 0 <= height env - m)%R ->
   (Rabs (get (particles_vy p') 0) <= Rabs (damping pair_config) * (height env - 2 * m))%R).
Proof.
  apply (walls_bound_the_speed V5.updatePhysics pair_config
           {| gravity_x := 0; gravity_y := 1; pointer_x := 0; pointer_y := 0;
              pointer_down := false; width := 800; height := 600; innerWidth := 800 |}%R
           {| particles := pair_particles; grid := ∅ |} 0).
  - right. right. left. reflexivity.
  - repeat split.
  - simpl. lia.
  - simpl. lia.
  - simpl. unfold Q2R. simpl. lra.
  - simpl. unfold Q2R. simpl. lra.
Defined.

(** * Free flight *)

Section Flight.
Local Open Scope R_scope.

(** Each version with its PREDICT loop. *)
Definition frames
  : list ((Config R -> Env R -> State R -> State R) *
          (Config R -> Env R -> Particles R -> Particles R)) :=
  [ (ARWater.updatePhysics, ARWater.predict); (Debug.updatePhysics, Debug.predict);
    (V5.updatePhysics, V5.predict); (HighPerf.updatePhysics, HighPerf.predict) ].

(** Particle [i] is within the clamp interval on both axes. *)
Definition within (CONFIG : Config R) (env : Env R) (q : Particles R) (i : nat) : Prop :=
  radius CONFIG <= get (particles_x q) i <= width env - radius CONFIG /\
  radius CONFIG <= get (particles_y q) i <= height env - radius CONFIG.

Lemma relax_all_alone CONFIG keys (q p0 : Particles R) :
  wf (particleCount CONFIG) q ->
  (forall i, (i < particleCount CONFIG)%nat -> alone CONFIG q i) ->
  relax CONFIG keys (buildGrid CONFIG p0) q = q.
Proof.
  intros (Hlx & Hly & _) Halone. unfold relax.
  apply (for_i_invariant (fun r => r = q)); [|reflexivity].
  intros k r Hk ->. unfold relaxParticle. cbv zeta.
  rewrite alone_finds_nobody by (apply Halone; exact Hk).
  apply relax_with_nil; lia.
Qed.

Lemma clamp_all_within CONFIG env (q : Particles R) :
  (forall i, (i < particleCount CONFIG)%nat -> within CONFIG env q i) ->
  enforceBoundaries CONFIG (width env) (height env) q = q /\
  for_i (particleCount CONFIG)
    (clampParticle_else (radius CONFIG) (width env) (height env)) q = q.
Proof.
  intros Hin. unfold enforceBoundaries.
  split; (apply (for_i_invariant (fun r => r = q)); [|reflexivity]);
    intros k r Hk ->; destruct (Hin k Hk) as [[Hx1 Hx2] [Hy1 Hy2]];
    unfold clampParticle, clampParticle_else; cbv zeta; cbn [nlt nsub R_Number].
  - rewrite (proj2 (Exact.ltb_false _ _) Hx1), (proj2 (Exact.ltb_false _ _) Hx2),
      (proj2 (Exact.ltb_false _ _) Hy1), (proj2 (Exact.ltb_false _ _) Hy2). reflexivity.
  - rewrite (proj2 (Exact.ltb_false _ _) Hx1), (proj2 (Exact.ltb_false _ _) Hx2),
      (proj2 (Exact.ltb_false _ _) Hy1), (proj2 (Exact.ltb_false _ _) Hy2). reflexivity.
Qed.

Lemma substeps_idle CONFIG env (st : State R) :
  wf (particleCount CONFIG) (particles st) ->
  (forall i, (i < particleCount CONFIG)%nat -> alone CONFIG (particles st) i) ->
  (forall i, (i < particleCount CONFIG)%nat -> within CONFIG env (particles st) i) ->
  particles (substeps CONFIG (width env) (height env) st) = particles st.
Proof.
  intros Hwf Halone Hin. unfold substeps.
  apply (for_i_invariant (fun s => particles s = particles st)); [|reflexivity].
  intros k s _ Hs. unfold substep. cbn [particles]. rewrite Hs.
  rewrite relax_all_alone by assumption. apply clamp_all_within, Hin.
Qed.

Lemma solveSteps_idle CONFIG env (q p0 : Particles R) :
  wf (particleCount CONFIG) q ->
  (forall i, (i < particleCount CONFIG)%nat -> alone CONFIG q i) ->
  (forall i, (i < particleCount CONFIG)%nat -> within CONFIG env q i) ->
  particles (for_i (subSteps CONFIG) (fun _ => HighPerf.solveStep CONFIG env)
               {| particles := q; grid := buildGrid CONFIG p0 |}) = q.
Proof.
  intros Hwf Halone Hin.
  assert (Hboth : let s := for_i (subSteps CONFIG) (fun _ => HighPerf.solveStep CONFIG env)
                             {| particles := q; grid := buildGrid CONFIG p0 |} in
                  particles s = q /\ grid s = buildGrid CONFIG p0).
  { apply (for_i_invariant (fun s => particles s = q /\ grid s = buildGrid CONFIG p0));
      [|split; reflexivity].
    intros k s _ [Hs Hg]. unfold HighPerf.solveStep. cbn [particles grid].
    rewrite Hs, Hg. split; [|reflexivity].
    rewrite relax_all_alone by assumption. apply clamp_all_within, Hin. }
  apply Hboth.
Qed.

(** X21.  Particles that PREDICT leaves apart and inside fly free.  In exact
    arithmetic and in every version: if after the PREDICT loop no two
    particles are within the cutoff [GRID_SIZE] and every particle is
    within [[radius, bound - radius]] on both axes, the substeps change
    nothing, however many there are: the frame ends with the predicted
    positions, and the velocity of each particle is the step PREDICT gave
    it times [damping]. *)
Theorem apart_and_inside_fly_free update predict (CONFIG : Config R) env st :
  In (update, predict) frames ->
  wf (particleCount CONFIG) (particles st) ->
  let q := predict CONFIG env (particles st) in
  (forall i, (i < particleCount CONFIG)%nat -> alone CONFIG q i) ->
  (forall i, (i < particleCount CONFIG)%nat -> within CONFIG env q i) ->
  let p' := particles (update CONFIG env st) in
  particles_x p' = particles_x q /\ particles_y p' = particles_y q /\
  forall i, (i < particleCount CONFIG)%nat ->
    get (particles_vx p') i
      = (get (particles_x q) i - get (particles_x (particles st)) i) * damping CONFIG /\
    get (particles_vy p') i
      = (get (particles_y q) i - get (particles_y (particles st)) i) * damping CONFIG.
Proof.
  intros Hin Hwf q Halone Hwithin p'.
  assert (Hshape : exists body,
            saves_position (particleCount CONFIG) body /\
            q = for_i (particleCount CONFIG) body (particles st) /\
            p' = updateVelocities CONFIG q).
  { unfold frames in Hin. simpl in Hin.
    destruct Hin as [[= <- <-]|[[= <- <-]|[[= <- <-]|[[= <- <-]|[]]]]]; subst p'.
    - exists (ARWater.predictParticle CONFIG env). split; [apply ARWater_saves|].
      split; [reflexivity|]. unfold ARWater.updatePhysics. cbn [particles]. f_equal.
      apply (substeps_idle CONFIG env {| particles := q; grid := grid st |});
        [|assumption|assumption].
      cbn [particles]. apply for_i_wf; [apply ARWater_saves | exact Hwf].
    - exists (Debug.predictParticle CONFIG env). split; [apply Debug_saves|].
      split; [reflexivity|]. unfold Debug.updatePhysics. cbn [particles]. f_equal.
      apply (substeps_idle CONFIG env {| particles := q; grid := grid st |});
        [|assumption|assumption].
      cbn [particles]. apply for_i_wf; [apply Debug_saves | exact Hwf].
    - exists (V5.predictParticle CONFIG env (ndiv (width env) (innerWidth env))).
      split; [apply V5_saves|].
      split; [reflexivity|]. unfold V5.updatePhysics. cbn [particles]. cbv zeta. f_equal.
      apply (substeps_idle CONFIG env {| particles := q; grid := grid st |});
        [|assumption|assumption].
      cbn [particles]. apply for_i_wf; [apply V5_saves | exact Hwf].
    - exists (HighPerf.predictParticle CONFIG env). split; [apply HighPerf_saves|].
      split; [reflexivity|]. unfold HighPerf.updatePhysics. cbn [particles]. cbv zeta. f_equal.
      apply (solveSteps_idle CONFIG env q q); [|assumption|assumption].
      apply for_i_wf; [apply HighPerf_saves | exact Hwf]. }
  destruct Hshape as (body & Hsave & Hq & Hp'). rewrite Hp'.
  destruct (updateVelocities_positions CONFIG q) as (Hx & Hy & _ & _).
  split; [exact Hx|]. split; [exact Hy|]. intros i Hi.
  assert (Hwfq : wf (particleCount CONFIG) q).
  { rewrite Hq. apply for_i_wf; [apply Hsave | exact Hwf]. }
  destruct (updateVelocities_spec CONFIG q i Hwfq Hi) as [Hvx Hvy].
  destruct (saves_position_loop _ body (particles st) i Hsave Hwf Hi) as [HsX HsY].
  rewrite <- Hq in HsX, HsY. rewrite Hvx, Hvy, HsX, HsY. split; reflexivity.
Qed.

End Flight.

(** Two particles of the "V5" version on a row, 200 apart and at rest,
    gravity pointing down, pointer up; the cutoff is 30. *)
Definition falling_env : Env R :=
  {| gravity_x := 0; gravity_y := 1; pointer_x := 0; pointer_y := 0;
     pointer_down := false; width := 800; height := 600; innerWidth := 800 |}%R.

Definition apart_state : State R := {|
  particles := {| particles_x := [100; 300]; particles_y := [100; 100];
                  particles_vx := [0; 0]; particles_vy := [0; 0];
                  particles_prevX := [100; 300]; particles_prevY := [100; 100] |}%R;
  grid := ∅ |}.

Lemma apart_and_inside_fly_free_witness :
  let q := V5.predict pair_config falling_env (particles apart_state) in
  let p' := particles (V5.updatePhysics pair_config falling_env apart_state) in
  particles_x p' = particles_x q /\ particles_y p' = particles_y q /\
  forall i, i < particleCount pair_config ->
    get (particles_vx p') i
      = ((get (particles_x q) i - get (particles_x (particles apart_state)) i)
         * damping pair_config)%R /\
    get (particles_vy p') i
      = ((get (particles_y q) i - get (particles_y (particles apart_state)) i)
         * damping pair_config)%R.
Proof.
  apply (apart_and_inside_fly_free V5.updatePhysics V5.predict pair_config
           falling_env apart_state).
  - right. right. left. reflexivity.
  - repeat split.
  - intros i Hi j Hj Hji. simpl in Hi, Hj.
    assert (Hij : (i = 0 /\ j = 1) \/ (i = 1 /\ j = 0)) by lia.
    destruct Hij as [[-> ->]|[-> ->]];
      unfold dist2; simpl; unfold get, set; simpl; unfold Q2R; simpl; lra.
  - intros i Hi. simpl in Hi.
    assert (Hi' : i = 0 \/ i = 1) by lia.
    destruct Hi' as [-> | ->];
      unfold within; simpl; unfold get, set; simpl; unfold Q2R; simpl; lra.
Defined.

(** * The grid search against a search over all particles *)

Section BruteForce.
Local Open Scope R_scope.

Lemma ids_of_entries (p : Particles R) px py (l : list nat) :
  map id (map (entry p px py) l) = l.
Proof. induction l as [|j l IH]; [reflexivity|]. cbn [map id entry]. rewrite IH. reflexivity. Qed.

(** X22.  The grid finds what a search over all particles finds.  In exact
    arithmetic, with [physRadius > 0] and the grid built from the current
    positions, the neighbours the scan of the 3x3 block collects for
    particle [i] are, each exactly once, the particles [j] below
    [particleCount] other than [i] with [0.001 < d2 < GRID_SIZE^2]: the
    cells save the work of the search, and lose and add nothing.  The
    same holds for the offset loops of the "High Performance" version. *)
Theorem grid_search_is_brute_force (CONFIG : Config R) (p : Particles R) (i : nat) :
  0 < physRadius CONFIG ->
  let px := get (particles_x p) i in
  let py := get (particles_y p) i in
  let gx := nfloor (ndiv px (GRID_SIZE CONFIG)) in
  let gy := nfloor (ndiv py (GRID_SIZE CONFIG)) in
  let all := List.filter (is_neighbor CONFIG p i px py) (seq 0 (particleCount CONFIG)) in
  map id (findNeighbors CONFIG p (buildGrid CONFIG p) (block_keys gx gy) i px py) ≡ₚ all /\
  map id (findNeighbors CONFIG p (buildGrid CONFIG p) (HighPerf.block_keys gx gy) i px py)
    ≡ₚ all /\
  forall j, j ∈ all <->
    (j < particleCount CONFIG)%nat /\ i <> j /\
    dist2 p i j < GRID_SIZE CONFIG * GRID_SIZE CONFIG /\ / 1000 < dist2 p i j.
Proof.
  intros Hr px py gx gy all.
  assert (Hall : forall j, j ∈ all <->
            (j < particleCount CONFIG)%nat /\ i <> j /\
            dist2 p i j < GRID_SIZE CONFIG * GRID_SIZE CONFIG /\ / 1000 < dist2 p i j).
  { intros j. subst all. rewrite list_elem_of_In, filter_In, <- list_elem_of_In, elem_of_seq.
    subst px py. rewrite is_neighbor_exact. split.
    - intros [[_ Hj] Hn]. split; [lia | exact Hn].
    - intros [Hj Hn]. split; [lia | exact Hn]. }
  assert (Hkeys : map id (findNeighbors CONFIG p (buildGrid CONFIG p) (block_keys gx gy) i px py)
                  ≡ₚ all).
  { rewrite findNeighbors_filter, ids_of_entries. apply NoDup_Permutation.
    - apply NoDup_ListNoDup, List.NoDup_filter, NoDup_ListNoDup.
      subst gx gy. cbn [nfloor R_Number]. apply NoDup_candidates, NoDup_block_keys.
    - subst all. apply NoDup_ListNoDup, List.NoDup_filter, NoDup_ListNoDup, NoDup_seq.
    - intros j. rewrite Hall. rewrite list_elem_of_In, filter_In, <- list_elem_of_In.
      subst px py. rewrite is_neighbor_exact. split.
      + intros [Hc Hn]. split; [|exact Hn]. eapply candidates_indexed. exact Hc.
      + intros [Hj Hn]. split; [|exact Hn].
        apply neighbor_is_a_candidate; [exact Hr | exact Hj | apply Hn]. }
  split; [exact Hkeys|]. split; [|exact Hall].
  subst gx gy. rewrite HighPerf_keys_same. exact Hkeys.
Qed.

End BruteForce.

Lemma grid_search_is_brute_force_witness :
  let CONFIG := pair_config in
  let p := pair_particles in
  let px := get (particles_x p) 0 in
  let py := get (particles_y p) 0 in
  let gx := nfloor (ndiv px (GRID_SIZE CONFIG)) in
  let gy := nfloor (ndiv py (GRID_SIZE CONFIG)) in
  let all := List.filter (is_neighbor CONFIG p 0 px py) (seq 0 (particleCount CONFIG)) in
  map id (findNeighbors CONFIG p (buildGrid CONFIG p) (block_keys gx gy) 0 px py) ≡ₚ all /\
  map id (findNeighbors CONFIG p (buildGrid CONFIG p) (HighPerf.block_keys gx gy) 0 px py)
    ≡ₚ all /\
  forall j, j ∈ all <->
    j < particleCount CONFIG /\ 0 <> j /\
    (dist2 p 0 j < GRID_SIZE CONFIG * GRID_SIZE CONFIG)%R /\ (/ 1000 < dist2 p 0 j)%R.
Proof.
  apply (grid_search_is_brute_force pair_config pair_particles 0).
  simpl. unfold Q2R. simpl. lra.
Defined.
